(** * Multi-file context analysis: the relationship and service-grouping engine

    A shallow embedding of [ContextAnalyzer] (analyzers/context-analyzer.ts)
    together with [BaseParser] and [ParserFactory] (parsers/), the analysis
    loop of the pipeline (automation/pipeline.ts) and the dependency diagram
    of the documentation generator.

    Conventions of the embedding.
    - A JavaScript string is a [string]: a sequence of code units, here the
      code units below 256.  The two line terminators and the seven white
      space characters of that range are the ones the regular expressions
      and [trim] see.
    - A JavaScript [Map] iterates in insertion order, so it is an
      association list whose keys are kept distinct by [JsMap.set].
    - The file system and the regex-driven fact extractors of the parsers
      are a read-only [World]; an operation that can throw returns an
      [outcome].
    - The analyzer object is a record threaded through the methods; a
      method that throws keeps the mutations made before the throw.
    - The traversal of the directory tree follows what the world reports
      and takes a fuel bound; the two loops whose turns are bounded by the
      length of their input carry that bound, and are shown not to be cut
      by it. *)

From Stdlib Require Import String Ascii List Bool Arith Lia Permutation.
Import ListNotations.
Local Open Scope list_scope.
Local Open Scope string_scope.
Local Open Scope nat_scope.

Set Implicit Arguments.

(** ** Characters and strings as JavaScript sees them *)

Module Str.

Definition code (c : ascii) : nat := nat_of_ascii c.

Definition in_range (lo hi : nat) (c : ascii) : bool :=
  (lo <=? code c) && (code c <=? hi).

Definition is_upper (c : ascii) : bool := in_range 65 90 c.
Definition is_lower (c : ascii) : bool := in_range 97 122 c.
Definition is_digit (c : ascii) : bool := in_range 48 57 c.

(** [String.prototype.toLowerCase] on one code unit below 256: the ASCII
    capitals and the Latin-1 capitals (all of 192..222 but the
    multiplication sign 215) move up by 32. *)
Definition lower_char (c : ascii) : ascii :=
  if is_upper c || (in_range 192 222 c && negb (code c =? 215))
  then ascii_of_nat (code c + 32) else c.

Fixpoint toLowerCase (s : string) : string :=
  match s with
  | EmptyString => EmptyString
  | String c s' => String (lower_char c) (toLowerCase s')
  end.

(** Canonicalisation of a code unit under the [i] flag (no [u] flag): the
    upper-case mapping, except that a code unit of 128 or more never maps
    below 128.  Below 256 only the small ASCII and Latin-1 letters other
    than the sharp s and the division sign move. *)
Definition canon_char (c : ascii) : ascii :=
  if is_lower c || (in_range 224 254 c && negb (code c =? 247))
  then ascii_of_nat (code c - 32) else c.

Definition ci_eqb (a b : ascii) : bool :=
  Ascii.eqb (canon_char a) (canon_char b).

(** [LineTerminator]: what [.] refuses. *)
Definition is_line_terminator (c : ascii) : bool :=
  (code c =? 10) || (code c =? 13).

(** White space and line terminators: what [\s] accepts and [trim] strips. *)
Definition is_space (c : ascii) : bool :=
  in_range 9 13 c || (code c =? 32) || (code c =? 160).

(** [\w] *)
Definition is_word (c : ascii) : bool :=
  is_upper c || is_lower c || is_digit c || (code c =? 95).

Definition rev (s : string) : string :=
  string_of_list_ascii (List.rev (list_ascii_of_string s)).

Fixpoint drop_while (p : ascii -> bool) (s : string) : string :=
  match s with
  | EmptyString => EmptyString
  | String c s' => if p c then drop_while p s' else s
  end.

Fixpoint take_while (p : ascii -> bool) (s : string) : string :=
  match s with
  | EmptyString => EmptyString
  | String c s' => if p c then String c (take_while p s') else EmptyString
  end.

Definition is_empty (s : string) : bool :=
  match s with EmptyString => true | _ => false end.

(** A non-empty string is truthy. *)
Definition truthy (s : string) : bool := negb (is_empty s).

Definition startsWith (s pre : string) : bool := String.prefix pre s.

Definition endsWith (s suf : string) : bool := String.prefix (rev suf) (rev s).

(** [s.includes(sub)] *)
Fixpoint includes (s sub : string) : bool :=
  String.prefix sub s ||
  match s with
  | EmptyString => false
  | String _ s' => includes s' sub
  end.

Definition trimStart (s : string) : string := drop_while is_space s.
Definition trim (s : string) : string := rev (trimStart (rev (trimStart s))).

(** [s.split(sep)] for a one-character separator: never the empty list. *)
Fixpoint split (sep : ascii) (s : string) : list string :=
  match s with
  | EmptyString => [EmptyString]
  | String c s' =>
      if Ascii.eqb c sep then EmptyString :: split sep s'
      else match split sep s' with
           | [] => [String c EmptyString]
           | w :: ws => String c w :: ws
           end
  end.

(** [s.replace(/c/g, by)] for a one-character pattern. *)
Fixpoint replace_all (c : ascii) (by_ : string) (s : string) : string :=
  match s with
  | EmptyString => EmptyString
  | String d s' =>
      if Ascii.eqb d c then by_ ++ replace_all c by_ s'
      else String d (replace_all c by_ s')
  end.

(** [s.replace(c, by)] for a one-character string pattern: the first
    occurrence only. *)
Fixpoint replace_first (c : ascii) (by_ : string) (s : string) : string :=
  match s with
  | EmptyString => EmptyString
  | String d s' =>
      if Ascii.eqb d c then by_ ++ s' else String d (replace_first c by_ s')
  end.

(** [list.includes(x)] on strings *)
Definition mem (x : string) (l : list string) : bool :=
  existsb (String.eqb x) l.

(** [a.slice(0, a.length - b.length)] when [b] is known to end [a] *)
Definition drop_end (n : nat) (s : string) : string :=
  substring 0 (String.length s - n) s.

End Str.

(** ** Node's [path] module, POSIX flavour *)

Module Path.

Definition slash : ascii := "/"%char.
Definition dot : ascii := "."%char.
Definition is_slash (c : ascii) : bool := Ascii.eqb c slash.
Definition not_slash (c : ascii) : bool := negb (is_slash c).
Definition not_dot (c : ascii) : bool := negb (Ascii.eqb c dot).

(** The last component of a path: trailing separators are skipped, then
    everything back to the previous separator is taken. *)
Definition last_component (p : string) : string :=
  Str.rev (Str.take_while not_slash (Str.drop_while is_slash (Str.rev p))).

Definition trailing_slashes (p : string) : string :=
  Str.take_while is_slash (Str.rev p).

(** [path.extname(p)]: from the last dot of the last component, unless
    there is no dot, the dot opens the component, or the component is
    [".."]. *)
Definition extname (p : string) : string :=
  let b := Str.rev (last_component p) in
  let after := Str.take_while not_dot b in
  match Str.drop_while not_dot b with
  | EmptyString => ""
  | String _ before =>
      if Str.is_empty before then ""
      else if String.eqb (last_component p) ".." then ""
      else String dot (Str.rev after)
  end.

(** [path.basename(p)] *)
Definition basename1 (p : string) : string := last_component p.

(** [path.basename(p, suffix)].  The suffix is compared backwards inside
    the last component; when the component runs out before the suffix
    does, Node keeps the trailing separators. *)
Definition basename (p suffix : string) : string :=
  if Str.is_empty suffix || (String.length p <? String.length suffix)
  then basename1 p
  else if String.eqb suffix p then ""
  else
    let comp := last_component p in
    if Str.endsWith comp suffix then
      if String.eqb comp suffix then comp
      else Str.drop_end (String.length suffix) comp
    else if Str.endsWith suffix comp then comp ++ trailing_slashes p
    else comp.

(** [path.dirname(p)] *)
Definition dirname (p : string) : string :=
  match p with
  | EmptyString => "."
  | String c0 rest =>
      let hasRoot := is_slash c0 in
      let r1 := Str.drop_while is_slash (Str.rev rest) in
      match Str.drop_while not_slash r1 with
      | EmptyString => if hasRoot then "/" else "."
      | String _ r3 =>
          if hasRoot && Str.is_empty r3 then "//"
          else String c0 (Str.rev r3)
      end
  end.

Definition isAbsolute (p : string) : bool :=
  match p with String c _ => is_slash c | EmptyString => false end.

(** [normalizeString]: the segments of a path with [.] and empty segments
    dropped and [..] resolved against the segment before it. *)
Fixpoint norm_segs (allowAboveRoot : bool) (segs : list string)
         (acc : list string) : list string :=
  match segs with
  | [] => List.rev acc
  | seg :: rest =>
      if Str.is_empty seg || String.eqb seg "." then
        norm_segs allowAboveRoot rest acc
      else if String.eqb seg ".." then
        match acc with
        | top :: acc' =>
            if String.eqb top ".." then
              norm_segs allowAboveRoot rest
                        (if allowAboveRoot then ".." :: acc else acc)
            else norm_segs allowAboveRoot rest acc'
        | [] =>
            norm_segs allowAboveRoot rest
                      (if allowAboveRoot then [".."] else [])
        end
      else norm_segs allowAboveRoot rest (seg :: acc)
  end.

Definition normalizeString (p : string) (allowAboveRoot : bool) : string :=
  String.concat "/" (norm_segs allowAboveRoot (Str.split slash p) []).

(** [path.normalize(p)] *)
Definition normalize (p : string) : string :=
  if Str.is_empty p then "."
  else
    let isAbs := isAbsolute p in
    let trailing := Str.endsWith p "/" in
    let r := normalizeString p (negb isAbs) in
    if Str.is_empty r then
      if isAbs then "/" else if trailing then "./" else "."
    else
      let r := if trailing then r ++ "/" else r in
      if isAbs then "/" ++ r else r.

(** [path.join(...args)] *)
Definition join (args : list string) : string :=
  match filter Str.truthy args with
  | [] => "."
  | parts => normalize (String.concat "/" parts)
  end.

(** [path.resolve(...args)] with the process's working directory [cwd]:
    arguments are prepended from the right until the path is absolute. *)
Fixpoint resolve_args (rargs : list string) (resolved : string) : string :=
  match rargs with
  | [] => resolved
  | a :: rest =>
      if isAbsolute resolved then resolved
      else if Str.is_empty a then resolve_args rest resolved
      else resolve_args rest (a ++ "/" ++ resolved)
  end.

Definition resolve (cwd : string) (args : list string) : string :=
  let r := resolve_args (List.rev args) "" in
  let r := if isAbsolute r then r else cwd ++ "/" ++ r in
  let abs := isAbsolute r in
  let n := normalizeString r (negb abs) in
  if abs then "/" ++ n else if Str.is_empty n then "." else n.

End Path.

(** ** Regular expressions: a backtracking matcher

    The fragment of [RegExp] that the analyzer's literals use: character
    classes, sequence, ordered alternation, greedy repetition, capture
    groups and the end anchor.  Matching is by continuations, so a failure
    later in the pattern backtracks into the choices made earlier, in the
    order a JavaScript engine tries them.  A capture group that did not
    take part in the match reads as the empty string: the analyzer only
    ever tests such a group for truthiness. *)

Module Regex.

Inductive regex : Type :=
| Chr (p : ascii -> bool)
| Eps
| Seq (r1 r2 : regex)
| Alt (r1 r2 : regex)
| Star (r : regex)
| Group (n : nat) (r : regex)
| Eol.

Definition captures := list (nat * string).

Fixpoint lookup (n : nat) (c : captures) : string :=
  match c with
  | [] => ""
  | (m, v) :: c' => if n =? m then v else lookup n c'
  end.

Definition consumed (s s' : string) : string :=
  substring 0 (String.length s - String.length s') s.

Section Run.
Variable R : Type.

(** The greedy loop of [r*], given the matcher [step] of [r]: another turn
    is tried first, and a turn that consumes nothing is refused; [n]
    bounds the turns by the length of the input. *)
Fixpoint star_loop
         (step : string -> captures -> (string -> captures -> option R) -> option R)
         (k : string -> captures -> option R)
         (n : nat) (s : string) (c : captures) {struct n} : option R :=
  match n with
  | 0 => k s c
  | S n' =>
      match step s c
                 (fun s1 c1 =>
                    if String.length s1 <? String.length s
                    then star_loop step k n' s1 c1 else None) with
      | Some x => Some x
      | None => k s c
      end
  end.

Fixpoint run (r : regex) (s : string) (c : captures)
         (k : string -> captures -> option R) {struct r} : option R :=
  match r with
  | Chr p =>
      match s with
      | String a s' => if p a then k s' c else None
      | EmptyString => None
      end
  | Eps => k s c
  | Seq r1 r2 => run r1 s c (fun s1 c1 => run r2 s1 c1 k)
  | Alt r1 r2 =>
      match run r1 s c k with
      | Some x => Some x
      | None => run r2 s c k
      end
  | Star r1 => star_loop (run r1) k (String.length s) s c
  | Group n r1 =>
      run r1 s c (fun s1 c1 => k s1 ((n, consumed s s1) :: c1))
  | Eol => if Str.is_empty s then k s c else None
  end.
End Run.

(** The result of a successful [exec]: the index of the match in the
    string that was searched, [match[0]], the groups, and the input after
    the match (from [lastIndex] on). *)
Record result : Type := mkResult {
  index : nat;
  whole : string;
  groups : captures;
  after : string
}.

Definition group (n : nat) (m : result) : string := lookup n (groups m).

(** The first position from which the pattern matches. *)
Fixpoint search (r : regex) (pos : nat) (s : string) : option result :=
  match run r s [] (fun s' c => Some (s', c)) with
  | Some (s', c) => Some (mkResult pos (consumed s s') c s')
  | None =>
      match s with
      | EmptyString => None
      | String _ s' => search r (S pos) s'
      end
  end.

(** [str.match(r)] for a pattern without the [g] flag *)
Definition match_ (r : regex) (s : string) : option result := search r 0 s.

(** The successive results of [while ((m = r.exec(s)) !== null)] for a
    pattern with the [g] flag.  Every pattern of the analyzer opens with
    a literal, so each result consumes input and the loop ends. *)
Fixpoint exec_loop (fuel : nat) (r : regex) (s : string) : list result :=
  match fuel with
  | 0 => []
  | S fuel' =>
      match search r 0 s with
      | None => []
      | Some m =>
          m :: (if String.length (after m) <? String.length s
                then exec_loop fuel' r (after m) else [])
      end
  end.

Definition exec_all (r : regex) (s : string) : list result :=
  exec_loop (S (String.length s)) r s.

(** [str.replace(r, '')] for a pattern without the [g] flag *)
Definition remove_first (r : regex) (s : string) : string :=
  match search r 0 s with
  | None => s
  | Some m => substring 0 (index m) s ++ after m
  end.

(** *** Pattern combinators *)

Definition chr (a : ascii) : regex := Chr (Ascii.eqb a).
Definition chr_ci (a : ascii) : regex := Chr (Str.ci_eqb a).
Definition not_chr (a : ascii) : regex := Chr (fun c => negb (Ascii.eqb c a)).
Definition any : regex := Chr (fun c => negb (Str.is_line_terminator c)).
Definition space : regex := Chr Str.is_space.
Definition word : regex := Chr Str.is_word.
Definition plus (r : regex) : regex := Seq r (Star r).
Definition opt (r : regex) : regex := Alt r Eps.

Fixpoint lit (s : string) : regex :=
  match s with
  | EmptyString => Eps
  | String a s' => Seq (chr a) (lit s')
  end.

Fixpoint lit_ci (s : string) : regex :=
  match s with
  | EmptyString => Eps
  | String a s' => Seq (chr_ci a) (lit_ci s')
  end.

Fixpoint seq (rs : list regex) : regex :=
  match rs with
  | [] => Eps
  | [r] => r
  | r :: rs' => Seq r (seq rs')
  end.

End Regex.

(** ** Service name and category of a file (pure functions of the path) *)

Module Naming.
Import Regex.

(** [/(.+)Suffix$/i] *)
Definition suffixPattern (suffix : string) : regex :=
  Seq (Group 1 (plus any)) (Seq (lit_ci suffix) Eol).

Definition suffixes : list string :=
  ["Controller"; "Service"; "Handler"; "Repository"; "Manager";
   "Provider"; "Component"].

Definition patterns : list regex := map suffixPattern suffixes.

(** The [for (const pattern of patterns)] loop: the first pattern that
    matches returns its group 1. *)
Fixpoint firstMatch (ps : list regex) (fileName : string) : option string :=
  match ps with
  | [] => None
  | pattern :: ps' =>
      match match_ pattern fileName with
      | Some m => Some (group 1 m)
      | None => firstMatch ps' fileName
      end
  end.

Definition extractServiceName (filePath : string) : string :=
  let fileName := Path.basename filePath (Path.extname filePath) in
  let dirName := Path.basename1 (Path.dirname filePath) in
  match firstMatch patterns fileName with
  | Some name => name
  | None => if String.eqb dirName "." then "Root" else dirName
  end.


Definition categorizeFile (filePath : string) : string :=
  let fileName := Str.toLowerCase (Path.basename1 filePath) in
  let dirName := Str.toLowerCase (Path.basename1 (Path.dirname filePath)) in
  if Str.includes fileName "controller" || Str.includes fileName "handler"
     || Str.includes fileName "router" then "controller"
  else if Str.includes fileName "service" || Str.includes fileName "manager"
          || Str.includes fileName "provider" then "service"
  else if Str.includes fileName "model" || Str.includes fileName "entity"
          || Str.includes fileName "dto" || Str.includes fileName "domain"
  then "model"
  else if Str.includes fileName "repository" || Str.includes fileName "dao"
          || Str.includes fileName "data" then "repository"
  else if Str.includes fileName "config" || Str.includes fileName "setting"
          || Str.includes fileName "property" then "config"
  else if Str.includes fileName "util" || Str.includes fileName "helper"
          || Str.includes fileName "tool" then "utility"
  else if Str.includes fileName "test" || Str.includes fileName "spec"
  then "test"
  else if Str.mem dirName ["controller"; "controllers"; "handler"; "handlers"]
  then "controller"
  else if Str.mem dirName ["service"; "services"; "business"; "logic"]
  then "service"
  else if Str.mem dirName
            ["model"; "models"; "entity"; "entities"; "domain"; "dto"]
  then "model"
  else if Str.mem dirName ["repository"; "repositories"; "dao"; "data"]
  then "repository"
  else if Str.mem dirName ["config"; "configuration"; "settings"]
  then "config"
  else if Str.mem dirName
            ["util"; "utils"; "utility"; "utilities"; "helper"; "helpers"]
  then "utility"
  else if Str.mem dirName ["test"; "tests"; "spec"; "specs"] then "test"
  else "unknown".

End Naming.

Import Naming.

(** ** The data model (types/index.ts and the analyzer's own interfaces) *)

Inductive Language : Type := go | java | csharp.

Inductive HttpMethod : Type := GET | POST | PUT | DELETE | PATCH.

Inductive ParameterIn : Type := in_query | in_path | in_header | in_body.

Record Parameter_ : Type := {
  param_name : string;
  param_type : string;
  param_in : ParameterIn;
  param_required : bool;
  param_description : string
}.

Record Response : Type := {
  resp_statusCode : nat;
  resp_description : string
}.

Record ApiEndpoint : Type := {
  ep_method : HttpMethod;
  ep_path : string;
  ep_description : string;
  ep_parameters : list Parameter_;
  ep_responses : list Response;
  ep_tags : list string;
  ep_fileName : string;
  ep_lineNumber : nat
}.

Record FunctionInfo : Type := {
  fn_name : string;
  fn_description : string;
  fn_parameters : list Parameter_;
  fn_returnType : string;
  fn_annotations : list string;
  fn_lineNumber : nat
}.

Record PropertyInfo : Type := {
  prop_name : string;
  prop_type : string;
  prop_description : string;
  prop_annotations : list string
}.

Record ClassInfo : Type := {
  cls_name : string;
  cls_description : string;
  cls_methods : list FunctionInfo;
  cls_properties : list PropertyInfo;
  cls_annotations : list string;
  cls_lineNumber : nat
}.

Record CodeModule : Type := {
  filePath : string;
  language : Language;
  endpoints : list ApiEndpoint;
  classes : list ClassInfo;
  functions : list FunctionInfo;
  lastModified : nat
}.

Inductive RelationType : Type :=
| rel_import | rel_extends | rel_implements | rel_calls | rel_references
| rel_config.

Record FileRelationship : Type := {
  sourceFile : string;
  targetFile : string;
  relationType : RelationType;
  details : string
}.

Record CrossFileReference : Type := {
  fromFile : string;
  fromLocation : nat * nat;
  toFile : string;
  toSymbol : string
}.

Record ServiceContext : Type := {
  serviceName : string;
  rootPath : string;
  controllers : list CodeModule;
  services : list CodeModule;
  models : list CodeModule;
  repositories : list CodeModule;
  configurations : list CodeModule;
  utilities : list CodeModule;
  tests : list CodeModule;
  relationships : list FileRelationship;
  apiEndpoints : list ApiEndpoint;
  businessLogic : list ClassInfo;
  dataModels : list ClassInfo
}.

Record GraphEdge : Type := {
  edge_from : string;
  edge_to : string;
  edge_type : RelationType
}.

Record DependencyGraph : Type := {
  nodes : list string;
  edges : list GraphEdge
}.

(** ** A JavaScript [Map] with string keys: insertion-ordered *)

Module JsMap.

Definition t (V : Type) : Type := list (string * V).

Definition empty {V : Type} : t V := [].

Fixpoint get {V : Type} (k : string) (m : t V) : option V :=
  match m with
  | [] => None
  | (k', v) :: m' => if String.eqb k k' then Some v else get k m'
  end.

Definition has {V : Type} (k : string) (m : t V) : bool :=
  match get k m with Some _ => true | None => false end.

(** [m.set(k, v)]: an existing key keeps its place, a new key goes last. *)
Fixpoint set {V : Type} (k : string) (v : V) (m : t V) : t V :=
  match m with
  | [] => [(k, v)]
  | (k', v') :: m' =>
      if String.eqb k k' then (k, v) :: m' else (k', v') :: set k v m'
  end.

Definition keys {V : Type} (m : t V) : list string := map fst m.

Definition entries {V : Type} (m : t V) : list (string * V) := m.

End JsMap.

(** ** Outcomes of operations that can throw *)

Definition error : Type := string.

(** [Hang]: the awaited operation never settles, or a recursion was cut by
    its fuel bound. *)
Inductive outcome (A : Type) : Type :=
| Ok (a : A)
| Throw (e : error)
| Hang.

Arguments Ok {A} a.
Arguments Throw {A} e.
Arguments Hang {A}.

Definition obind {A B : Type} (c : outcome A) (k : A -> outcome B) : outcome B :=
  match c with
  | Ok a => k a
  | Throw e => Throw e
  | Hang => Hang
  end.

Notation "'let!' x := c 'in' k" := (obind c (fun x => k))
  (at level 10, x name, c at level 100, k at level 200).

(** ** The world the analyzer reads: file system and fact extractors *)

Inductive StatKind : Type := IsDirectory | IsFile | IsOther.

Record Stats : Type := {
  kind : StatKind;
  mtime : nat
}.

Record World : Type := {
  cwd : string;
  readdir : string -> outcome (list string);
  stat : string -> outcome Stats;
  readFile : string -> outcome string;
  pathExists : string -> bool;
  extractApiEndpoints : Language -> string -> string -> outcome (list ApiEndpoint);
  extractClasses : Language -> string -> string -> outcome (list ClassInfo);
  extractFunctions : Language -> string -> string -> outcome (list FunctionInfo)
}.

(** ** The analyzer object and the monad of its methods *)

Record Analyzer : Type := {
  codeModules : JsMap.t CodeModule;
  fileRelationships : list FileRelationship;
  crossReferences : list CrossFileReference
}.

(** [new ContextAnalyzer()] *)
Definition newAnalyzer : Analyzer :=
  {| codeModules := JsMap.empty; fileRelationships := []; crossReferences := [] |}.

Definition M (A : Type) : Type := Analyzer -> outcome A * Analyzer.

Definition ret {A : Type} (a : A) : M A := fun st => (Ok a, st).

Definition bind {A B : Type} (c : M A) (k : A -> M B) : M B :=
  fun st =>
    match c st with
    | (Ok a, st') => k a st'
    | (Throw e, st') => (Throw e, st')
    | (Hang, st') => (Hang, st')
    end.

Definition lift {A : Type} (c : outcome A) : M A := fun st => (c, st).

Definition gets {A : Type} (f : Analyzer -> A) : M A := fun st => (Ok (f st), st).

Declare Scope analyzer_scope.
Delimit Scope analyzer_scope with M.
Notation "x <- c ;; k" := (bind c (fun x => k))
  (at level 200, c at level 100, k at level 200, right associativity)
  : analyzer_scope.
Notation "c ;; k" := (bind c (fun _ => k))
  (at level 200, k at level 200, right associativity) : analyzer_scope.

(** [for (const x of l) { await body(x) }] *)
Fixpoint forEach {A : Type} (l : list A) (body : A -> M unit) : M unit :=
  match l with
  | [] => ret tt
  | x :: l' => bind (body x) (fun _ => forEach l' body)
  end.

Definition when (b : bool) (c : M unit) : M unit := if b then c else ret tt.

(** [this.fileRelationships.push(rel)] *)
Definition pushRelationship (rel : FileRelationship) : M unit :=
  fun st =>
    (Ok tt,
     {| codeModules := codeModules st;
        fileRelationships := (fileRelationships st ++ [rel])%list;
        crossReferences := crossReferences st |}).

(** [this.codeModules.set(filePath, module)] *)
Definition setModule (path : string) (m : CodeModule) : M unit :=
  fun st =>
    (Ok tt,
     {| codeModules := JsMap.set path m (codeModules st);
        fileRelationships := fileRelationships st;
        crossReferences := crossReferences st |}).

(** ** The regular expressions of the relationship extractor *)

Module Patterns.
Import Regex.

Definition quote : ascii := ascii_of_nat 34.
Definition newline : ascii := ascii_of_nat 10.

(** [/import\s+(?:\(\s*([^)]+)\s*\)|Q([^Q]+)Q)/g], with [Q] standing for
    the double quote *)
Definition goImportRegex : regex :=
  seq [lit "import"; plus space;
       Alt (seq [chr "("; Star space; Group 1 (plus (not_chr ")"));
                 Star space; chr ")"])
           (seq [chr quote; Group 2 (plus (not_chr quote)); chr quote])].

(** [/import\s+(?:static\s+)?([^;]+);/g] *)
Definition javaImportRegex : regex :=
  seq [lit "import"; plus space; opt (Seq (lit "static") (plus space));
       Group 1 (plus (not_chr ";")); chr ";"].

Definition wordCommaSpace (c : ascii) : bool :=
  Str.is_word c || Ascii.eqb c "," || Str.is_space c.

(** [/class\s+(\w+)(?:\s+extends\s+(\w+))?(?:\s+implements\s+([\w,\s]+))?/g] *)
Definition javaClassRegex : regex :=
  seq [lit "class"; plus space; Group 1 (plus word);
       opt (seq [plus space; lit "extends"; plus space; Group 2 (plus word)]);
       opt (seq [plus space; lit "implements"; plus space;
                 Group 3 (plus (Chr wordCommaSpace))])].

(** [/@(\w+)(?:\([^)]*\))?/g] *)
Definition annotationRegex : regex :=
  seq [chr "@"; Group 1 (plus word);
       opt (seq [chr "("; Star (not_chr ")"); chr ")"])].

Definition visibility : regex :=
  Alt (lit "private") (Alt (lit "protected") (lit "public")).

(** [/@Autowired\s+(?:private|protected|public)?\s*(\w+)\s+(\w+);/g] *)
Definition fieldRegex : regex :=
  seq [lit "@Autowired"; plus space; opt visibility; Star space;
       Group 1 (plus word); plus space; Group 2 (plus word); chr ";"].

(** [/using\s+([^;]+);/g] *)
Definition usingRegex : regex :=
  seq [lit "using"; plus space; Group 1 (plus (not_chr ";")); chr ";"].

Definition baseTypeChar (c : ascii) : bool :=
  wordCommaSpace c || Ascii.eqb c "<" || Ascii.eqb c ">".

(** [/class\s+(\w+)(?:\s*:\s*([\w,\s<>]+))?/g] *)
Definition csharpClassRegex : regex :=
  seq [lit "class"; plus space; Group 1 (plus word);
       opt (seq [Star space; chr ":"; Star space;
                 Group 2 (plus (Chr baseTypeChar))])].

(** [/(?:private|protected|public)\s+readonly\s+I(\w+)\s+_(\w+);/g] *)
Definition diRegex : regex :=
  seq [visibility; plus space; lit "readonly"; plus space; chr "I";
       Group 1 (plus word); plus space; chr "_"; Group 2 (plus word);
       chr ";"].

(** [/<.*>/] *)
Definition genericsRegex : regex := seq [chr "<"; Star any; chr ">"].

End Patterns.

(** ** The methods *)

Section Methods.

Variable w : World.

Local Open Scope analyzer_scope.

(** *** parsers/base-parser.ts and parsers/index.ts *)

(** [BaseParser.parseFile]: every exception of the body is caught and
    turned into [null]. *)
Definition BaseParser_parseFile (lang : Language) (path : string)
  : outcome (option CodeModule) :=
  match
    (let! content := readFile w path in
     let! stats := stat w path in
     let! eps := extractApiEndpoints w lang content path in
     let! cls := extractClasses w lang content path in
     let! fns := extractFunctions w lang content path in
     Ok {| filePath := path; language := lang; endpoints := eps;
           classes := cls; functions := fns; lastModified := mtime stats |})
  with
  | Ok m => Ok (Some m)
  | Throw _ => Ok None
  | Hang => Hang
  end.

Definition extensionMap (extension : string) : option Language :=
  if String.eqb extension ".go" then Some go
  else if String.eqb extension ".java" then Some java
  else if String.eqb extension ".cs" then Some csharp
  else None.

Definition getParserByFileExtension (path : string) : option Language :=
  extensionMap (Str.toLowerCase (Path.extname path)).

(** [ParserFactory.parseFile] *)
Definition parseFile (path : string) : outcome (option CodeModule) :=
  match getParserByFileExtension path with
  | None => Ok None
  | Some lang => BaseParser_parseFile lang path
  end.

Definition getSupportedExtensions : list string := [".go"; ".java"; ".cs"].

(** *** Discovery *)

Definition skipDirs : list string :=
  ["node_modules"; ".git"; "dist"; "build"; "target"; "bin"; "obj";
   ".idea"; ".vscode"; "coverage"; "logs"; "tmp"; "temp"].

Definition shouldSkipDirectory (dirName : string) : bool :=
  Str.mem dirName skipDirs || Str.startsWith dirName ".".

(** The closure [traverse] of [findAllSupportedFiles]; [files] is the
    array it pushes to.  The recursion follows the directory tree that
    the world reports, so it is bounded by [fuel]. *)
Fixpoint traverse (fuel : nat) (dir : string) (files : list string)
  : outcome (list string) :=
  match fuel with
  | 0 => Hang
  | S fuel' =>
      let! items := readdir w dir in
      (fix each (items : list string) (files : list string)
         : outcome (list string) :=
         match items with
         | [] => Ok files
         | item :: items' =>
             let itemPath := Path.join [dir; item] in
             let! stats := stat w itemPath in
             let! files' :=
               match kind stats with
               | IsDirectory =>
                   if negb (shouldSkipDirectory item)
                   then traverse fuel' itemPath files
                   else Ok files
               | IsFile =>
                   if Str.mem (Path.extname item) getSupportedExtensions
                   then Ok (files ++ [itemPath])%list
                   else Ok files
               | IsOther => Ok files
               end in
             each items' files'
         end) items files
  end.

Definition findAllSupportedFiles (fuel : nat) (directoryPath : string)
  : outcome (list string) :=
  traverse fuel directoryPath [].

Definition parseAllFiles (fuel : nat) (directoryPath : string) : M unit :=
  allFiles <- lift (findAllSupportedFiles fuel directoryPath) ;;
  forEach allFiles (fun path =>
    module <- lift (parseFile path) ;;
    match module with
    | Some m => setModule path m
    | None => ret tt
    end).

(** *** Resolution of references *)

Definition possibleMarkers : list string :=
  ["package.json"; "pom.xml"; "build.gradle"; "go.mod"; "*.csproj";
   "*.sln"; ".git"].

(** One turn of the loop over [possibleMarkers]: is the marker present
    in [currentPath]? *)
Definition markerPresent (currentPath marker : string) : outcome bool :=
  if String.eqb marker ".git" then
    Ok (pathExists w (Path.join [currentPath; marker]))
  else if Str.includes marker "*" then
    let! files := readdir w currentPath in
    let pattern := Str.replace_first "*" "" marker in
    Ok (existsb (fun f => Str.endsWith f pattern) files)
  else Ok (pathExists w (Path.join [currentPath; marker])).

Fixpoint anyMarker (currentPath : string) (markers : list string)
  : outcome bool :=
  match markers with
  | [] => Ok false
  | marker :: markers' =>
      let! present := markerPresent currentPath marker in
      if present then Ok true else anyMarker currentPath markers'
  end.

Fixpoint findProjectRoot_loop (fuel : nat) (currentPath : string)
  : outcome (option string) :=
  match fuel with
  | 0 => Hang
  | S fuel' =>
      if String.eqb currentPath (Path.dirname currentPath) then Ok None
      else
        let! found := anyMarker currentPath possibleMarkers in
        if found then Ok (Some currentPath)
        else findProjectRoot_loop fuel' (Path.dirname currentPath)
  end.

(** Each turn of the loop shortens [currentPath] until it is a fixed
    point of [dirname], so the length of the path bounds the turns. *)
Definition findProjectRoot (path : string) : outcome (option string) :=
  findProjectRoot_loop (String.length path + 3) (Path.dirname path).

Definition firstExisting (possiblePaths : list string) : option string :=
  find (pathExists w) possiblePaths.

Definition resolveGoImport (path importPath : string)
  : outcome (option string) :=
  if Str.startsWith importPath "./" || Str.startsWith importPath "../" then
    let basePath := Path.dirname path in
    let resolvedPath := Path.resolve (cwd w) [basePath; importPath] in
    if pathExists w resolvedPath then
      let! files := readdir w resolvedPath in
      match find (fun f => Str.endsWith f ".go") files with
      | Some goFile => Ok (Some (Path.join [resolvedPath; goFile]))
      | None => Ok None
      end
    else Ok None
  else Ok None.

Definition resolveJavaImport (path importPath : string)
  : outcome (option string) :=
  let relativePath := Str.replace_all "." "/" importPath ++ ".java" in
  let! projectRoot := findProjectRoot path in
  match projectRoot with
  | Some root =>
      if Str.truthy root then
        Ok (firstExisting
              [Path.join [root; "src"; "main"; "java"; relativePath];
               Path.join [root; "src"; relativePath];
               Path.join [Path.dirname path; relativePath]])
      else Ok None
  | None => Ok None
  end.

Definition resolveCSharpUsing (path usingPath : string)
  : outcome (option string) :=
  let relativePath := Str.replace_all "." "/" usingPath ++ ".cs" in
  let! projectRoot := findProjectRoot path in
  match projectRoot with
  | Some root =>
      if Str.truthy root then
        Ok (firstExisting
              [Path.join [root; relativePath];
               Path.join [Path.dirname path; relativePath]])
      else Ok None
  | None => Ok None
  end.

Definition hasClass (className : string) (m : CodeModule) : bool :=
  existsb (fun cls => String.eqb (cls_name cls) className) (classes m).

(** [findClassDefinition]: the first entry of the module table, in
    iteration order, that declares the class. *)
Definition findClassDefinition (basePath className : string)
  : M (option string) :=
  gets (fun st =>
          match find (fun e => hasClass className (snd e))
                     (JsMap.entries (codeModules st)) with
          | Some (path, _) => Some path
          | None => None
          end).

(** [if (target) { this.fileRelationships.push({...}) }]: a target that
    is [null] or the empty string is falsy. *)
Definition pushIfResolved (source : string) (target : option string)
           (type : RelationType) (detail : string) : M unit :=
  match target with
  | Some t =>
      when (Str.truthy t)
           (pushRelationship
              {| sourceFile := source; targetFile := t;
                 relationType := type; details := detail |})
  | None => ret tt
  end.

(** The step every import pattern ends in:
    [const resolved = await this.resolve...(...); if (resolved) push]. *)
Definition resolveAndPush (resolver : outcome (option string))
           (source : string) (detail : string) : M unit :=
  resolvedPath <- lift resolver ;;
  pushIfResolved source resolvedPath rel_import detail.

(** The step every symbol pattern ends in:
    [const targetFile = await this.findClassDefinition(...);
     if (targetFile) push]. *)
Definition lookupAndPush (source className : string) (type : RelationType)
           (detail : string) : M unit :=
  targetFile <- findClassDefinition source className ;;
  pushIfResolved source targetFile type detail.

(** *** Relationship extraction *)

(** [a || b] on strings *)
Definition jsOr (a b : string) : string := if Str.truthy a then a else b.

Definition analyzeGoRelationships (path content : string) : M unit :=
  forEach (Regex.exec_all Patterns.goImportRegex content) (fun m =>
    let imports := jsOr (Regex.group 1 m) (Regex.group 2 m) in
    when (Str.truthy imports)
      (let importLines :=
         filter (fun line => Str.truthy (Str.trim line))
                (Str.split Patterns.newline imports) in
       forEach importLines (fun importLine =>
         let cleanImport :=
           Str.trim (Str.replace_all Patterns.quote "" importLine) in
         when (Str.truthy cleanImport
               && negb (Str.startsWith cleanImport "//"))
           (resolveAndPush (resolveGoImport path cleanImport)
                           path cleanImport)))).
(* The loop over the struct pattern that follows in the source has an
   empty body. *)

Definition findServiceDependencies (path content annotation : string)
  : M unit :=
  forEach (Regex.exec_all Patterns.fieldRegex content) (fun m =>
    let serviceType := Regex.group 1 m in
    let fieldName := Regex.group 2 m in
    lookupAndPush path serviceType rel_references
                  ("@Autowired " ++ serviceType ++ " " ++ fieldName)).

Definition injectionAnnotations : list string :=
  ["Autowired"; "Inject"; "Service"; "Component"; "Repository"].

Definition analyzeJavaRelationships (path content : string) : M unit :=
  forEach (Regex.exec_all Patterns.javaImportRegex content) (fun m =>
    let importPath := Str.trim (Regex.group 1 m) in
    when (Str.truthy importPath)
      (resolveAndPush (resolveJavaImport path importPath)
                      path importPath)) ;;
  forEach (Regex.exec_all Patterns.javaClassRegex content) (fun m =>
    let className := Regex.group 1 m in
    let extendsClass := Regex.group 2 m in
    let implementsInterfaces := Regex.group 3 m in
    when (Str.truthy extendsClass)
      (lookupAndPush path extendsClass rel_extends
                     (className ++ " extends " ++ extendsClass)) ;;
    when (Str.truthy implementsInterfaces)
      (let interfaces :=
         map Str.trim (Str.split "," implementsInterfaces) in
       forEach interfaces (fun interfaceName =>
         lookupAndPush path interfaceName rel_implements
                       (className ++ " implements " ++ interfaceName)))) ;;
  forEach (Regex.exec_all Patterns.annotationRegex content) (fun m =>
    let annotation := Regex.group 1 m in
    when (Str.mem annotation injectionAnnotations)
         (findServiceDependencies path content annotation)).

Definition analyzeCSharpRelationships (path content : string) : M unit :=
  forEach (Regex.exec_all Patterns.usingRegex content) (fun m =>
    let usingPath := Str.trim (Regex.group 1 m) in
    when (Str.truthy usingPath)
      (resolveAndPush (resolveCSharpUsing path usingPath)
                      path usingPath)) ;;
  forEach (Regex.exec_all Patterns.csharpClassRegex content) (fun m =>
    let className := Regex.group 1 m in
    let baseTypes := Regex.group 2 m in
    when (Str.truthy baseTypes)
      (let types := map Str.trim (Str.split "," baseTypes) in
       forEach types (fun baseType =>
         let cleanType := Regex.remove_first Patterns.genericsRegex baseType in
         lookupAndPush path cleanType rel_extends
                       (className ++ " : " ++ baseType)))) ;;
  forEach (Regex.exec_all Patterns.diRegex content) (fun m =>
    let interfaceName := "I" ++ Regex.group 1 m in
    lookupAndPush path interfaceName rel_references
                  ("Dependency injection: " ++ interfaceName)).

Definition findRelationshipsForFile (path : string) (module : CodeModule)
  : M unit :=
  content <- lift (readFile w path) ;;
  match language module with
  | go => analyzeGoRelationships path content
  | java => analyzeJavaRelationships path content
  | csharp => analyzeCSharpRelationships path content
  end.

Definition analyzeFileRelationships : M unit :=
  entries <- gets (fun st => JsMap.entries (codeModules st)) ;;
  forEach entries (fun e => findRelationshipsForFile (fst e) (snd e)).

(** The loop of [extractCrossFileReferences] has an empty body. *)
Definition extractCrossFileReferences : M unit := ret tt.

(** *** Grouping and context assembly *)

(** One turn of the loop of [groupFilesByService].  [groups.get(name)]
    is present after the [set] before it. *)
Definition addToGroup (groups : JsMap.t (list string)) (path : string)
  : JsMap.t (list string) :=
  let name := extractServiceName path in
  let groups :=
    if negb (JsMap.has name groups) then JsMap.set name [] groups
    else groups in
  match JsMap.get name groups with
  | Some files => JsMap.set name (files ++ [path])%list groups
  | None => groups
  end.

Definition groupFilesByService (st : Analyzer) : JsMap.t (list string) :=
  fold_left addToGroup (JsMap.keys (codeModules st)) JsMap.empty.

Definition emptyContext (name root : string) : ServiceContext :=
  {| serviceName := name; rootPath := root;
     controllers := []; services := []; models := []; repositories := [];
     configurations := []; utilities := []; tests := [];
     relationships := []; apiEndpoints := []; businessLogic := [];
     dataModels := [] |}.

(** The [switch (fileType)] of [createServiceContext] *)
Definition placeModule (fileType : string) (module : CodeModule)
           (c : ServiceContext) : ServiceContext :=
  let '(Build_ServiceContext name root ctl svc mdl rep cfg utl tst rels
                             eps logic data) := c in
  if String.eqb fileType "controller" then
    Build_ServiceContext name root (ctl ++ [module]) svc mdl rep cfg utl tst
                         rels (eps ++ endpoints module) logic data
  else if String.eqb fileType "service" then
    Build_ServiceContext name root ctl (svc ++ [module]) mdl rep cfg utl tst
                         rels eps (logic ++ classes module) data
  else if String.eqb fileType "model" then
    Build_ServiceContext name root ctl svc (mdl ++ [module]) rep cfg utl tst
                         rels eps logic (data ++ classes module)
  else if String.eqb fileType "repository" then
    Build_ServiceContext name root ctl svc mdl (rep ++ [module]) cfg utl tst
                         rels eps logic data
  else if String.eqb fileType "config" then
    Build_ServiceContext name root ctl svc mdl rep (cfg ++ [module]) utl tst
                         rels eps logic data
  else if String.eqb fileType "utility" then
    Build_ServiceContext name root ctl svc mdl rep cfg (utl ++ [module]) tst
                         rels eps logic data
  else if String.eqb fileType "test" then
    Build_ServiceContext name root ctl svc mdl rep cfg utl (tst ++ [module])
                         rels eps logic data
  else
    Build_ServiceContext name root ctl svc mdl rep cfg (utl ++ [module]) tst
                         rels eps logic data.

(** One turn of the loop over [files] *)
Definition addFile (st : Analyzer) (c : ServiceContext) (path : string)
  : ServiceContext :=
  match JsMap.get path (codeModules st) with
  | None => c
  | Some module => placeModule (categorizeFile path) module c
  end.

Definition touches (files : list string) (rel : FileRelationship) : bool :=
  Str.mem (sourceFile rel) files || Str.mem (targetFile rel) files.

Definition setRelationships (rels : list FileRelationship)
           (c : ServiceContext) : ServiceContext :=
  let '(Build_ServiceContext name root ctl svc mdl rep cfg utl tst _
                             eps logic data) := c in
  Build_ServiceContext name root ctl svc mdl rep cfg utl tst rels
                       eps logic data.

Definition createServiceContext (st : Analyzer) (name root : string)
           (files : list string) : ServiceContext :=
  let context := fold_left (addFile st) files (emptyContext name root) in
  setRelationships (filter (touches files) (fileRelationships st)) context.

(** [processedFiles.add(file)] on a [Set] *)
Definition setAdd (s : list string) (x : string) : list string :=
  if Str.mem x s then s else (s ++ [x])%list.

(** One turn of the loop over [serviceGroups.entries()] *)
Definition addContext (st : Analyzer) (basePath : string)
           (acc : list ServiceContext * list string)
           (group : string * list string)
  : list ServiceContext * list string :=
  ((fst acc ++ [createServiceContext st (fst group) basePath (snd group)])%list,
   fold_left setAdd (snd group) (snd acc)).

Definition contextsOf (st : Analyzer) (basePath : string)
  : list ServiceContext :=
  let serviceGroups := groupFilesByService st in
  let '(contexts, processedFiles) :=
    fold_left (addContext st basePath) (JsMap.entries serviceGroups)
              ([], []) in
  let ungroupedFiles :=
    filter (fun file => negb (Str.mem file processedFiles))
           (JsMap.keys (codeModules st)) in
  if 0 <? List.length ungroupedFiles then
    (contexts ++ [createServiceContext st "General" basePath ungroupedFiles])%list
  else contexts.

Definition groupIntoServiceContexts (basePath : string)
  : M (list ServiceContext) :=
  gets (fun st => contextsOf st basePath).

(** *** The public methods *)

(** The [try] block of [analyzeDirectory]; its [catch] logs and rethrows
    the error it caught. *)
Definition analyzeDirectory (fuel : nat) (directoryPath : string)
  : M (list ServiceContext) :=
  parseAllFiles fuel directoryPath ;;
  analyzeFileRelationships ;;
  extractCrossFileReferences ;;
  groupIntoServiceContexts directoryPath.

Definition getFileRelationships : M (list FileRelationship) :=
  gets fileRelationships.

Definition getCrossReferences : M (list CrossFileReference) :=
  gets crossReferences.

(** One turn of the loop of [getServiceDependencyGraph]; [nodes] is a
    [Set], [edges] an array. *)
Definition addEdge (name : string) (acc : list string * list GraphEdge)
           (rel : FileRelationship) : list string * list GraphEdge :=
  let sourceServiceName := extractServiceName (sourceFile rel) in
  let targetServiceName := extractServiceName (targetFile rel) in
  if String.eqb sourceServiceName name || String.eqb targetServiceName name
  then
    (setAdd (setAdd (fst acc) (Path.basename1 (sourceFile rel)))
            (Path.basename1 (targetFile rel)),
     (snd acc ++ [{| edge_from := Path.basename1 (sourceFile rel);
                     edge_to := Path.basename1 (targetFile rel);
                     edge_type := relationType rel |}])%list)
  else acc.

Definition getServiceDependencyGraph (name : string) : M DependencyGraph :=
  rels <- gets fileRelationships ;;
  let '(nodeSet, edgeList) := fold_left (addEdge name) rels ([], []) in
  ret {| nodes := nodeSet; edges := edgeList |}.

End Methods.

(** ** The rest of the parsers' interface (parsers/base-parser.ts,
    parsers/index.ts) and the analysis loop of the pipeline *)

Section Callers.

Variable w : World.

Local Open Scope analyzer_scope.

(** [getFileExtensions] of the three parsers *)
Definition getFileExtensions (lang : Language) : list string :=
  match lang with
  | go => [".go"]
  | java => [".java"]
  | csharp => [".cs"]
  end.

(** [BaseParser.shouldSkipDirectory]: a shorter list than the analyzer's *)
Definition baseSkipDirs : list string :=
  ["node_modules"; ".git"; "dist"; "build"; "target"; "bin"; "obj"].

Definition BaseParser_shouldSkipDirectory (dirName : string) : bool :=
  Str.mem dirName baseSkipDirs || Str.startsWith dirName ".".

(** The closure [traverse] of [BaseParser.getSourceFiles] *)
Fixpoint BaseParser_traverse (lang : Language) (fuel : nat) (dir : string)
         (files : list string) : outcome (list string) :=
  match fuel with
  | 0 => Hang
  | S fuel' =>
      let! items := readdir w dir in
      (fix each (items : list string) (files : list string)
         : outcome (list string) :=
         match items with
         | [] => Ok files
         | item :: items' =>
             let itemPath := Path.join [dir; item] in
             let! stats := stat w itemPath in
             let! files' :=
               match kind stats with
               | IsDirectory =>
                   if negb (BaseParser_shouldSkipDirectory item)
                   then BaseParser_traverse lang fuel' itemPath files
                   else Ok files
               | IsFile =>
                   if Str.mem (Path.extname item) (getFileExtensions lang)
                   then Ok (files ++ [itemPath])%list
                   else Ok files
               | IsOther => Ok files
               end in
             each items' files'
         end) items files
  end.

Definition getSourceFiles (lang : Language) (fuel : nat) (directoryPath : string)
  : outcome (list string) :=
  BaseParser_traverse lang fuel directoryPath [].

(** The loop of [BaseParser.parseDirectory]; [modules] is the array it
    pushes to. *)
Fixpoint parseEach (lang : Language) (files : list string)
         (modules : list CodeModule) : outcome unit * list CodeModule :=
  match files with
  | [] => (Ok tt, modules)
  | file :: files' =>
      match BaseParser_parseFile w lang file with
      | Ok (Some m) => parseEach lang files' (modules ++ [m])%list
      | Ok None => parseEach lang files' modules
      | Throw e => (Throw e, modules)
      | Hang => (Hang, modules)
      end
  end.

(** [BaseParser.parseDirectory]: the [catch] logs the error, and the
    modules pushed before it are returned. *)
Definition BaseParser_parseDirectory (lang : Language) (fuel : nat)
           (directoryPath : string) : outcome (list CodeModule) :=
  match getSourceFiles lang fuel directoryPath with
  | Ok files =>
      match parseEach lang files [] with
      | (Ok _, modules) => Ok modules
      | (Throw _, modules) => Ok modules
      | (Hang, _) => Hang
      end
  | Throw _ => Ok []
  | Hang => Hang
  end.

(** [ParserFactory.getSupportedLanguages] *)
Definition getSupportedLanguages : list Language := [go; java; csharp].

(** [ParserFactory.parseDirectory]; an array given for [languages] is
    used even when it is empty. *)
Fixpoint parseWith (fuel : nat) (directoryPath : string)
         (parsersToUse : list Language) (modules : list CodeModule)
  : outcome (list CodeModule) :=
  match parsersToUse with
  | [] => Ok modules
  | lang :: rest =>
      let! languageModules := BaseParser_parseDirectory lang fuel directoryPath in
      parseWith fuel directoryPath rest (modules ++ languageModules)%list
  end.

Definition parseDirectory (fuel : nat) (directoryPath : string)
           (languages : option (list Language)) : outcome (list CodeModule) :=
  let parsersToUse :=
    match languages with
    | Some ls => ls
    | None => [go; java; csharp]
    end in
  parseWith fuel directoryPath parsersToUse [].

(** [BaseParser.findLineNumber]: the loop over the lines, [i] being the
    index of the first line of [lines] *)
Fixpoint findLineFrom (lines : list string) (searchText : string) (i : nat)
  : option nat :=
  match lines with
  | [] => None
  | line :: lines' =>
      if Str.includes line searchText then Some (i + 1)
      else findLineFrom lines' searchText (S i)
  end.

Definition findLineNumber (content searchText : string) : nat :=
  match findLineFrom (Str.split Patterns.newline content) searchText 0 with
  | Some n => n
  | None => 1
  end.

(** [BaseParser.extractComments] over the abstract [isComment] and
    [cleanComment] of a parser.  [commentsAbove lines n description] is
    the loop from the index [n - 1] down to 0; a line that is missing or
    blank after [trim] is passed over. *)
Variable isComment : string -> bool.
Variable cleanComment : string -> string.

Fixpoint commentsAbove (lines : list string) (n : nat) (description : string)
  : string :=
  match n with
  | 0 => description
  | S i =>
      let line :=
        match nth_error lines i with
        | Some l => Str.trim l
        | None => ""
        end in
      if negb (Str.truthy line) then commentsAbove lines i description
      else if isComment line then
             commentsAbove lines i (cleanComment line ++ (String Patterns.newline EmptyString) ++ description)
           else description
  end.

Definition extractComments (content : string) (lineNumber : nat) : string :=
  Str.trim (commentsAbove (Str.split Patterns.newline content)
                          (lineNumber - 1) "").

(** The analysis loop of [processWithMultiFileContext] (automation/
    pipeline.ts): one analyzer object serves every source directory, and
    the contexts of each run are pushed to [serviceContexts]. *)
Fixpoint analyzeSourceDirectories (fuel : nat) (sourceDirectories : list string)
         (serviceContexts : list ServiceContext) : M (list ServiceContext) :=
  match sourceDirectories with
  | [] => ret serviceContexts
  | directory :: rest =>
      contexts <- analyzeDirectory w fuel directory ;;
      analyzeSourceDirectories fuel rest (serviceContexts ++ contexts)%list
  end.

(** [serviceContexts.reduce((sum, ctx) => sum + ctx.relationships.length, 0)] *)
Definition crossReferencesFound (serviceContexts : list ServiceContext) : nat :=
  fold_left (fun sum ctx => sum + List.length (relationships ctx))
            serviceContexts 0.

End Callers.

(** ** Worlds to run the analyzer in: a disk given by two tables *)

(** A world over a table of directories (absolute path, entries) and a
    table of regular files (absolute path, content).  A path is resolved
    against [dir]; what is in neither table does not exist.  The fact
    extractors find no endpoints and no functions, and the classes that
    [declared] lists for the file. *)
Definition diskWorld (dir : string) (dirs : JsMap.t (list string))
           (files : JsMap.t string) (declared : string -> list string)
  : World :=
  {| cwd := dir;
     readdir := fun p =>
       match JsMap.get (Path.resolve dir [p]) dirs with
       | Some entries => Ok entries
       | None => Throw ("ENOTDIR: " ++ p)
       end;
     stat := fun p =>
       if JsMap.has (Path.resolve dir [p]) dirs
       then Ok {| kind := IsDirectory; mtime := 0 |}
       else if JsMap.has (Path.resolve dir [p]) files
            then Ok {| kind := IsFile; mtime := 0 |}
            else Throw ("ENOENT: " ++ p);
     readFile := fun p =>
       match JsMap.get (Path.resolve dir [p]) files with
       | Some content => Ok content
       | None => Throw ("ENOENT: " ++ p)
       end;
     pathExists := fun p =>
       JsMap.has (Path.resolve dir [p]) dirs
       || JsMap.has (Path.resolve dir [p]) files;
     extractApiEndpoints := fun _ _ _ => Ok [];
     extractClasses := fun _ _ p =>
       Ok (map (fun n => {| cls_name := n; cls_description := "";
                            cls_methods := []; cls_properties := [];
                            cls_annotations := []; cls_lineNumber := 1 |})
               (declared p));
     extractFunctions := fun _ _ _ => Ok [] |}.

Definition lf : string := String Patterns.newline "".
Definition dq : string := String Patterns.quote "".

(** A project [/w/r] of one Go file, two Java files and two C# files, next
    to a Go package [/w/shared] that lies outside of it. *)
Definition sampleDirs : JsMap.t (list string) :=
  [("/w", ["r"; "shared"; "go.mod"]);
   ("/w/r", ["a.go"; "UserService.java"; "User.java"; "IFoo.cs"; "Foo.cs"]);
   ("/w/shared", ["x.go"])].

Definition sampleFiles : JsMap.t string :=
  [("/w/go.mod", "module w");
   ("/w/r/a.go",
    "package a" ++ lf ++ "import " ++ dq ++ "../shared" ++ dq ++ lf
    ++ "import (" ++ lf ++ "  " ++ dq ++ "fmt" ++ dq ++ lf
    ++ "  " ++ dq ++ "./missing" ++ dq ++ lf ++ ")" ++ lf);
   ("/w/r/UserService.java",
    "import com.x.Y;" ++ lf
    ++ "public class UserService extends User implements Audited {" ++ lf
    ++ "  @Autowired private User owner;" ++ lf ++ "}");
   ("/w/r/User.java", "class User {}");
   ("/w/r/IFoo.cs", "using System;" ++ lf ++ "interface IFoo {}");
   ("/w/r/Foo.cs",
    "class Foo : Base<T>, IFoo { private readonly IFoo _foo; }");
   ("/w/shared/x.go", "package shared")].

Definition sampleDeclared (p : string) : list string :=
  if String.eqb p "/w/r/User.java" then ["User"]
  else if String.eqb p "/w/r/UserService.java" then ["UserService"]
  else if String.eqb p "/w/r/IFoo.cs" then ["IFoo"]
  else [].

Definition sampleWorld : World :=
  diskWorld "/w" sampleDirs sampleFiles sampleDeclared.

(** A project whose directory lists, next to a Go file, an entry that
    cannot be stat'ed (a dangling link) *)
Definition danglingDirs : JsMap.t (list string) :=
  [("/w", ["r"]); ("/w/r", ["a.go"; "ghost.go"])].

Definition danglingWorld : World :=
  diskWorld "/w" danglingDirs [("/w/r/a.go", "package a")] (fun _ => []).




(** The run of the analyzer over the sample project *)
Definition sampleFound : list string :=
  Eval vm_compute in
    match findAllSupportedFiles sampleWorld 4 "/w/r" with
    | Ok files => files
    | _ => []
    end.

Definition sampleContexts : list ServiceContext :=
  Eval vm_compute in
    match fst (analyzeDirectory sampleWorld 4 "/w/r" newAnalyzer) with
    | Ok contexts => contexts
    | _ => []
    end.

Definition sampleFinal : Analyzer :=
  Eval vm_compute in snd (analyzeDirectory sampleWorld 4 "/w/r" newAnalyzer).

(** The module table after the parsing phase of that run *)
Definition sampleParsed : Analyzer :=
  Eval vm_compute in snd (parseAllFiles sampleWorld 4 "/w/r" newAnalyzer).

(** Two of its edges: the import of the Go package outside the project,
    and the inheritance between the two Java files *)
Definition sampleImportEdge : FileRelationship :=
  {| sourceFile := "/w/r/a.go"; targetFile := "/w/shared/x.go";
     relationType := rel_import; details := "../shared" |}.

Definition sampleExtendsEdge : FileRelationship :=
  {| sourceFile := "/w/r/UserService.java"; targetFile := "/w/r/User.java";
     relationType := rel_extends; details := "UserService extends User" |}.

(** Its two contexts *)
Definition sampleDirContext : ServiceContext :=
  nth 0 sampleContexts (emptyContext "" "").

Definition sampleUserContext : ServiceContext :=
  nth 1 sampleContexts (emptyContext "" "").

(** ** Notions used by the statements *)

(** The analyzer after the edges [E] were pushed *)
Definition addRels (st : Analyzer) (E : list FileRelationship) : Analyzer :=
  {| codeModules := codeModules st;
     fileRelationships := (fileRelationships st ++ E)%list;
     crossReferences := crossReferences st |}.

(** A method that only pushes edges: over a fixed module table its result
    and the edges it pushes do not depend on the edges already stored, and
    every edge it pushes satisfies [Q]. *)
Definition emits {A : Type} (tbl : JsMap.t CodeModule)
           (Q : FileRelationship -> Prop) (c : M A) : Prop :=
  exists (r : outcome A) (E : list FileRelationship),
    Forall Q E /\
    forall st, codeModules st = tbl -> c st = (r, addRels st E).

(** An import edge is justified by the resolver of one of the three
    languages, run on the scanned file and on the text the edge records. *)
Definition resolvedImport (w : World) (rel : FileRelationship) : Prop :=
  resolveGoImport w (sourceFile rel) (details rel) = Ok (Some (targetFile rel))
  \/ resolveJavaImport w (sourceFile rel) (details rel) = Ok (Some (targetFile rel))
  \/ resolveCSharpUsing w (sourceFile rel) (details rel) = Ok (Some (targetFile rel)).

(** What holds of an edge pushed while [path] is scanned over the module
    table [tbl]. *)
Definition edgeOf (w : World) (tbl : JsMap.t CodeModule) (path : string)
           (rel : FileRelationship) : Prop :=
  sourceFile rel = path /\
  targetFile rel <> "" /\
  match relationType rel with
  | rel_import => resolvedImport w rel
  | _ => In (targetFile rel) (JsMap.keys tbl)
  end.

(** The modules a context holds, bucket after bucket, and their files *)
Definition bucketModules (c : ServiceContext) : list CodeModule :=
  (controllers c ++ services c ++ models c ++ repositories c
   ++ configurations c ++ utilities c ++ tests c)%list.

Definition memberFiles (c : ServiceContext) : list string :=
  map filePath (bucketModules c).

(** How many modules of [l] belong to the file [path] *)
Definition hits (path : string) (l : list CodeModule) : nat :=
  List.length (filter (fun m => String.eqb (filePath m) path) l).

(** How many times the file [path] occurs in the buckets of the contexts *)
Definition occurrences (path : string) (ctxs : list ServiceContext) : nat :=
  list_sum (map (fun c => hits path (bucketModules c)) ctxs).

(** An edge pushed by a pass over the whole table *)
Definition storedEdge (w : World) (tbl : JsMap.t CodeModule)
           (rel : FileRelationship) : Prop :=
  In (sourceFile rel) (JsMap.keys tbl) /\
  edgeOf w tbl (sourceFile rel) rel.

(** The invariants of an analyzer that has only run in the world [w]:
    the table has one entry per key, each entry is what the fact provider
    returns for its key, and every stored edge was pushed by a pass over
    the table or an earlier state of it. *)
Record wellFormed (w : World) (st : Analyzer) : Prop := {
  wf_keys : NoDup (JsMap.keys (codeModules st));
  wf_table : forall k m, In (k, m) (codeModules st) -> parseFile w k = Ok (Some m);
  wf_edges : forall rel, In rel (fileRelationships st) ->
                         storedEdge w (codeModules st) rel
}.

(** What [findClassDefinition] returns over the table [tbl] *)
Definition classFile (tbl : JsMap.t CodeModule) (className : string)
  : option string :=
  match find (fun e => hasClass className (snd e)) (JsMap.entries tbl) with
  | Some (path, _) => Some path
  | None => None
  end.

(** The body of the loop of [parseAllFiles] *)
Definition parseOne (w : World) (path : string) : M unit :=
  bind (lift (parseFile w path))
       (fun module => match module with
                      | Some m => setModule path m
                      | None => ret tt
                      end).

(** Does [path] belong to the service [name]? *)
Definition inService (name : string) (path : string) : bool :=
  String.eqb (extractServiceName path) name.

(** The state of the loop of [groupFilesByService] after the keys
    [processed]: group names are distinct, a group lists the processed
    keys of its service in order, and every processed key has its group. *)
Record groupInv (processed : list string) (groups : JsMap.t (list string))
  : Prop := {
  gi_names : NoDup (JsMap.keys groups);
  gi_files : forall name files, In (name, files) groups ->
                                files = filter (inService name) processed;
  gi_cover : forall k, In k processed ->
                       In (extractServiceName k) (JsMap.keys groups)
}.

(** Does the module stored for [f] belong to the file [path]? *)
Definition storedFor (st : Analyzer) (path f : string) : bool :=
  match JsMap.get f (codeModules st) with
  | Some m => String.eqb (filePath m) path
  | None => false
  end.

(** The context built for a group *)
Definition contextOfGroup (st : Analyzer) (basePath : string)
           (group : string * list string) : ServiceContext :=
  createServiceContext st (fst group) basePath (snd group).

(** *** The naming rules in the words of the specification *)

(** Letter case, stated on the characters themselves and not through the
    string functions of the code.  Among the characters below 256 the
    capital letters are the 26 of ASCII (65 to 90) and the 30 of Latin-1
    (192 to 222 without the multiplication sign 215); each lies 32 below
    its small letter. *)
Definition isCapital (c : ascii) : bool :=
  let n := nat_of_ascii c in
  ((65 <=? n) && (n <=? 90))
  || ((192 <=? n) && (n <=? 214))
  || ((216 <=? n) && (n <=? 222)).

Definition smallLetter (c : ascii) : ascii :=
  if isCapital c then ascii_of_nat (nat_of_ascii c + 32) else c.


(** The same character up to the case of letters *)
Definition sameLetter (a b : ascii) : bool :=
  Ascii.eqb (smallLetter a) (smallLetter b).

(** [t] and [suffix] have the same length and, place by place, the same
    characters up to the case of letters. *)
Fixpoint equalIgnoringCase (t suffix : string) : bool :=
  match t, suffix with
  | EmptyString, EmptyString => true
  | String a t', String b suffix' =>
      sameLetter a b && equalIgnoringCase t' suffix'
  | _, _ => false
  end.

Definition notLineTerminator (c : ascii) : bool :=
  negb (Str.is_line_terminator c).

Fixpoint allChars (p : ascii -> bool) (s : string) : bool :=
  match s with
  | EmptyString => true
  | String c s' => p c && allChars p s'
  end.

(** What is left of [s] after a prefix that the matcher accepts for
    [suffix] under the [i] flag (the comparison [Str.ci_eqb] of the
    code) *)
Fixpoint ciStrip (suffix s : string) : option string :=
  match suffix with
  | EmptyString => Some s
  | String a suffix' =>
      match s with
      | String b s' => if Str.ci_eqb a b then ciStrip suffix' s' else None
      | EmptyString => None
      end
  end.

(** The matcher accepts the whole of [t] for [suffix] under the [i]
    flag. *)
Definition ciEqual (t suffix : string) : bool :=
  match ciStrip suffix t with
  | Some EmptyString => true
  | _ => false
  end.

(** [name] is the [<Name>] group of [<Name>Suffix] in [s], with the
    suffix compared as the matcher compares it: [s] ends in the suffix;
    the name is the non-empty run of characters before it that starts at
    the beginning of [s] or right after the last line terminator, which
    the [.] of the pattern does not cross.  [capturedIgnoringCase] below
    states the same with the comparison of the specification. *)
Definition captured (suffix s name : string) : Prop :=
  exists pre tail,
    s = pre ++ name ++ tail /\
    ciEqual tail suffix = true /\
    name <> "" /\
    allChars notLineTerminator name = true /\
    (pre = "" \/
     exists pre' c, pre = pre' ++ String c "" /\ Str.is_line_terminator c = true).

(** The same capture with the suffix compared in the words of the
    specification: [s] is [pre ++ name ++ tail] where [tail] is the
    suffix whatever the case of its letters, the name is not empty and
    holds no line terminator, and [pre] is empty or ends in a line
    terminator.  The name keeps the case it has in [s]. *)
Definition capturedIgnoringCase (suffix s name : string) : Prop :=
  exists pre tail,
    s = pre ++ name ++ tail /\
    equalIgnoringCase tail suffix = true /\
    name <> "" /\
    allChars notLineTerminator name = true /\
    (pre = "" \/
     exists pre' c, pre = pre' ++ String c "" /\ Str.is_line_terminator c = true).

(** The greedy scan of [.*]: the longest run of characters other than
    line terminators after which [k] succeeds *)
Fixpoint greedy {R : Type} (k : string -> option R) (s : string) : option R :=
  match s with
  | String a s' =>
      if notLineTerminator a then
        match greedy k s' with
        | Some x => Some x
        | None => k s
        end
      else k s
  | EmptyString => k s
  end.

(** What [/(.+)Suffix$/i] captures when the match starts at the first
    character of [s] *)
Definition hereCapture (suffix s : string) : option string :=
  match s with
  | String a s' =>
      if notLineTerminator a then
        greedy (fun v => if ciEqual v suffix
                         then Some (Regex.consumed s v) else None) s'
      else None
  | EmptyString => None
  end.

(** What it captures at the first position of [s] from which it matches *)
Fixpoint firstCapture (suffix s : string) : option string :=
  match hereCapture suffix s with
  | Some name => Some name
  | None =>
      match s with
      | String _ s' => firstCapture suffix s'
      | EmptyString => None
      end
  end.





(** A bound on the turns that the loop of [findProjectRoot] can still
    take from [p]: each turn shortens the path, down to one of the fixed
    points [.] and [/] of [dirname], possibly through [//]. *)
Definition pathMeasure (p : string) : nat :=
  if String.eqb p "." || String.eqb p "/" then 0
  else if String.eqb p "//" then 1
  else String.length p + 1.

(** The least number of characters a match of the pattern consumes *)
Fixpoint minLength (r : Regex.regex) : nat :=
  match r with
  | Regex.Chr _ => 1
  | Regex.Eps => 0
  | Regex.Seq r1 r2 => minLength r1 + minLength r2
  | Regex.Alt r1 r2 => Nat.min (minLength r1) (minLength r2)
  | Regex.Star _ => 0
  | Regex.Group _ r1 => minLength r1
  | Regex.Eol => 0
  end.

(** A continuation restricted to the inputs that are shorter than [s] by
    at least [m] characters *)
Definition guard {R : Type} (m : nat) (s : string)
           (k : string -> Regex.captures -> option R)
  : string -> Regex.captures -> option R :=
  fun s' c' => if String.length s' + m <=? String.length s then k s' c' else None.

(** The patterns that run in an [exec] loop *)
Definition loopPatterns : list Regex.regex :=
  [Patterns.goImportRegex; Patterns.javaImportRegex; Patterns.javaClassRegex;
   Patterns.annotationRegex; Patterns.fieldRegex; Patterns.usingRegex;
   Patterns.csharpClassRegex; Patterns.diRegex].

(** Does an edge touch the service [name]? *)
Definition touchesService (name : string) (rel : FileRelationship) : bool :=
  String.eqb (extractServiceName (sourceFile rel)) name
  || String.eqb (extractServiceName (targetFile rel)) name.

(** The graph edge of a relationship *)
Definition graphEdge (rel : FileRelationship) : GraphEdge :=
  {| edge_from := Path.basename1 (sourceFile rel);
     edge_to := Path.basename1 (targetFile rel);
     edge_type := relationType rel |}.

(** Every stored edge ends at a key of the module table. *)
Definition targetsKnown (st : Analyzer) : Prop :=
  forall rel, In rel (fileRelationships st) ->
              In (targetFile rel) (JsMap.keys (codeModules st)).

(** A resolve-and-push step whose resolver does not answer with a key of
    the module table pushes nothing. *)
Definition unknownReferenceDropped (st : Analyzer) (source detail : string)
           (resolver : outcome (option string)) : Prop :=
  (forall t, resolver = Ok (Some t) ->
             ~ In t (JsMap.keys (codeModules st))) ->
  fileRelationships (snd (resolveAndPush resolver source detail st))
  = fileRelationships st.

(** A second pass of relationship extraction leaves the multiset of
    stored edges as the first pass left it. *)
Definition extractionIdempotent (w : World) (st : Analyzer) : Prop :=
  let once := snd (analyzeFileRelationships w st) in
  let twice := snd (analyzeFileRelationships w once) in
  Permutation (fileRelationships twice) (fileRelationships once).

(** With a readable root directory the run is never rejected. *)
Definition failureContained (w : World) (fuel : nat) (dir : string) : Prop :=
  (forall e, readdir w dir <> Throw e) ->
  forall e, fst (analyzeDirectory w fuel dir newAnalyzer) <> Throw e.

Unset Implicit Arguments.

(** ** The dependency diagram of the documentation generator
    ([MultiFileTransformer.generateDependencyDiagram]) *)

Definition relationTypeName (t : RelationType) : string :=
  match t with
  | rel_import => "import"
  | rel_extends => "extends"
  | rel_implements => "implements"
  | rel_calls => "calls"
  | rel_references => "references"
  | rel_config => "config"
  end.

(** [path.basename(p, path.extname(p))] *)
Definition stem (p : string) : string := Path.basename p (Path.extname p).

(** The first loop: the set [nodes] *)
Definition diagramNodes (c : ServiceContext) : list string :=
  fold_left (fun nodes module => setAdd nodes (stem (filePath module)))
            (controllers c ++ services c ++ models c ++ repositories c)%list
            [].

Definition diagramEdge (rel : FileRelationship) : string :=
  stem (sourceFile rel) ++ " --> " ++ stem (targetFile rel) ++ " : "
  ++ relationTypeName (relationType rel).

(** The second loop: the array [edges] *)
Definition diagramEdges (nodes : list string) (c : ServiceContext)
  : list string :=
  fold_left (fun edges rel =>
               if Str.mem (stem (sourceFile rel)) nodes
                  && Str.mem (stem (targetFile rel)) nodes
               then (edges ++ [diagramEdge rel])%list
               else edges)
            (relationships c) [].

(** [a.join(sep)] *)
Fixpoint joinWith (sep : string) (l : list string) : string :=
  match l with
  | [] => ""
  | [x] => x
  | x :: l' => x ++ sep ++ joinWith sep l'
  end.

Definition generateDependencyDiagram (c : ServiceContext) : string :=
  let nodes := diagramNodes c in
  let edges := diagramEdges nodes c in
  lf ++ "```mermaid" ++ lf ++ "graph TD" ++ lf
  ++ joinWith lf (map (fun node => "    " ++ node ++ "[" ++ node ++ "]") nodes)
  ++ lf ++ "    " ++ lf
  ++ joinWith (lf ++ "    ") edges ++ lf ++ "```".

(** ** Notions used by the further properties *)


(** Two runs of the analysis loop over the sample project *)
Definition sampleLoop : outcome (list ServiceContext) * Analyzer :=
  Eval vm_compute in
    analyzeSourceDirectories sampleWorld 4 ["/w/r"; "/w/r"] [] newAnalyzer.
(** The distinct elements of [l] that are not in [seen], in the order
    of their first occurrence *)
Fixpoint distinct (seen l : list string) : list string :=
  match l with
  | [] => []
  | x :: l' =>
      if Str.mem x seen then distinct seen l'
      else x :: distinct (x :: seen) l'
  end.

(** The bucket of a context by its label *)
Definition bucket (label : string) (c : ServiceContext) : list CodeModule :=
  if String.eqb label "controller" then controllers c
  else if String.eqb label "service" then services c
  else if String.eqb label "model" then models c
  else if String.eqb label "repository" then repositories c
  else if String.eqb label "config" then configurations c
  else if String.eqb label "utility" then utilities c
  else if String.eqb label "test" then tests c
  else [].

(** The label of the bucket that takes a file of the category
    [fileType] *)
Definition bucketLabel (fileType : string) : string :=
  if Str.mem fileType
       ["controller"; "service"; "model"; "repository"; "config"; "utility";
        "test"]
  then fileType else "utility".

(** The modules stored for the files [files], in their order *)
Definition modulesOf (st : Analyzer) (files : list string) : list CodeModule :=
  flat_map (fun f => match JsMap.get f (codeModules st) with
                     | Some m => [m]
                     | None => []
                     end) files.
(** The facts a context derives from its buckets *)
Definition derivedFromBuckets (c : ServiceContext) : Prop :=
  apiEndpoints c = flat_map endpoints (controllers c) /\
  businessLogic c = flat_map classes (services c) /\
  dataModels c = flat_map classes (models c).
(** The common shape of the two directory traversals, over the test
    [skip] for the directories to pass over and the extensions [exts] to
    collect.  [walkItems] is the loop over the entries of one directory,
    given the traversal [rec] of a subdirectory. *)
Section Walk.

Variable w : World.
Variable skip : string -> bool.
Variable exts : list string.

Fixpoint walkItems (rec : string -> list string -> outcome (list string))
         (dir : string) (items files : list string) : outcome (list string) :=
  match items with
  | [] => Ok files
  | item :: items' =>
      let itemPath := Path.join [dir; item] in
      let! stats := stat w itemPath in
      let! files' :=
        match kind stats with
        | IsDirectory =>
            if negb (skip item) then rec itemPath files else Ok files
        | IsFile =>
            if Str.mem (Path.extname item) exts
            then Ok (files ++ [itemPath])%list
            else Ok files
        | IsOther => Ok files
        end in
      walkItems rec dir items' files'
  end.

Fixpoint walk (fuel : nat) (dir : string) (files : list string)
  : outcome (list string) :=
  match fuel with
  | 0 => Hang
  | S fuel' =>
      let! items := readdir w dir in
      walkItems (walk fuel') dir items files
  end.

(** The directories a traversal from [root] enters: [root] itself,
    whatever its name, and every entry of an entered directory that is a
    directory and is not passed over *)
Inductive entered (root : string) : string -> Prop :=
| entered_root : entered root root
| entered_child dir items item stats :
    entered root dir ->
    readdir w dir = Ok items -> In item items ->
    stat w (Path.join [dir; item]) = Ok stats ->
    kind stats = IsDirectory -> skip item = false ->
    entered root (Path.join [dir; item]).

(** The files a traversal from [root] collects: the entries of an
    entered directory that are regular files with a collected extension *)
Definition collected (root file : string) : Prop :=
  exists dir items item stats,
    entered root dir /\
    readdir w dir = Ok items /\ In item items /\
    file = Path.join [dir; item] /\
    stat w file = Ok stats /\ kind stats = IsFile /\
    Str.mem (Path.extname item) exts = true.

End Walk.
(** The words one of which every pattern of a language starts with *)
Definition keywords (lang : Language) : list string :=
  match lang with
  | go => ["import"]
  | java => ["import"; "class"; "@"]
  | csharp => ["using"; "class"; "private"; "protected"; "public"]
  end.

(** Every match of [r] starts with one of the words [ls]. *)
Definition headed (r : Regex.regex) (ls : list string) : Prop :=
  forall (R : Type) s c (k : string -> Regex.captures -> option R) x,
    Regex.run r s c k = Some x ->
    exists l, In l ls /\ String.prefix l s = true.
(** The modules of the files [files] that the parser of [lang] could
    parse, in their order *)
Definition parsedModules (w : World) (lang : Language) (files : list string)
  : list CodeModule :=
  flat_map (fun f => match BaseParser_parseFile w lang f with
                     | Ok (Some m) => [m]
                     | _ => []
                     end) files.
(** A relationship both of whose files have the stem of a node *)
Definition drawn (nodes : list string) (rel : FileRelationship) : bool :=
  Str.mem (stem (sourceFile rel)) nodes && Str.mem (stem (targetFile rel)) nodes.

(** The longest prefix of [l] whose elements pass [p] *)
Fixpoint takeWhile {A : Type} (p : A -> bool) (l : list A) : list A :=
  match l with
  | [] => []
  | x :: l' => if p x then x :: takeWhile p l' else []
  end.

(** The comment block of the line [lineNumber] (counted from 1): of the
    lines above it, trimmed and read upwards with the blank ones left
    out, the comments met before the first line that is not a comment;
    the block is listed in the order of the text. *)
Definition commentBlock (isComment : string -> bool) (lines : list string)
           (lineNumber : nat) : list string :=
  rev (takeWhile isComment
         (filter Str.truthy
            (rev (firstn (lineNumber - 1) (map Str.trim lines))))).

(** The cleaned lines of a block, each followed by a line feed *)
Definition blockText (cleanComment : string -> string) (block : list string)
           (tail : string) : string :=
  fold_right (fun line text => cleanComment line ++ lf ++ text) tail block.

(** *** The references of a file and what a scan makes of them *)

(** The import resolver of a language *)
Definition importResolver (w : World) (lang : Language)
  : string -> string -> outcome (option string) :=
  match lang with
  | go => resolveGoImport w
  | java => resolveJavaImport w
  | csharp => resolveCSharpUsing w
  end.

(** A reference found in a source text: the answer of its resolution,
    and the type and the details of the edge it stands for *)
Record Reference : Type := {
  ref_answer : outcome (option string);
  ref_type : RelationType;
  ref_details : string
}.

(** An import of the text [text] in the file [path]: it is resolved by
    the import resolver of the language of the file. *)
Definition importReference (w : World) (lang : Language) (path text : string)
  : Reference :=
  {| ref_answer := importResolver w lang path text;
     ref_type := rel_import;
     ref_details := text |}.

(** A reference to the class [className]: it is resolved by the lookup
    in the module table. *)
Definition symbolReference (tbl : JsMap.t CodeModule) (className : string)
           (type : RelationType) (detail : string) : Reference :=
  {| ref_answer := Ok (classFile tbl className);
     ref_type := type;
     ref_details := detail |}.

(** The references of a Go text, in the order of the text: the lines of
    its import statements that are neither blank nor comments *)
Definition goReferences (w : World) (path content : string) : list Reference :=
  flat_map
    (fun m =>
       let imports := jsOr (Regex.group 1 m) (Regex.group 2 m) in
       if Str.truthy imports then
         flat_map
           (fun importLine =>
              let cleanImport :=
                Str.trim (Str.replace_all Patterns.quote "" importLine) in
              if Str.truthy cleanImport
                 && negb (Str.startsWith cleanImport "//")
              then [importReference w go path cleanImport]
              else [])
           (filter (fun line => Str.truthy (Str.trim line))
                   (Str.split Patterns.newline imports))
       else [])
    (Regex.exec_all Patterns.goImportRegex content).

(** The injected fields of a Java text *)
Definition fieldReferences (tbl : JsMap.t CodeModule) (content : string)
  : list Reference :=
  map (fun m =>
         let serviceType := Regex.group 1 m in
         let fieldName := Regex.group 2 m in
         symbolReference tbl serviceType rel_references
                         ("@Autowired " ++ serviceType ++ " " ++ fieldName))
      (Regex.exec_all Patterns.fieldRegex content).

(** The imports of a Java text *)
Definition javaImportReferences (w : World) (path content : string)
  : list Reference :=
  flat_map
    (fun m =>
       let importPath := Str.trim (Regex.group 1 m) in
       if Str.truthy importPath
       then [importReference w java path importPath]
       else [])
    (Regex.exec_all Patterns.javaImportRegex content).

(** The superclass and the interfaces of the classes of a Java text *)
Definition javaClassReferences (tbl : JsMap.t CodeModule) (content : string)
  : list Reference :=
  flat_map
    (fun m =>
       let className := Regex.group 1 m in
       let extendsClass := Regex.group 2 m in
       let implementsInterfaces := Regex.group 3 m in
       app (if Str.truthy extendsClass
            then [symbolReference tbl extendsClass rel_extends
                                  (className ++ " extends " ++ extendsClass)]
            else [])
           (if Str.truthy implementsInterfaces
            then map (fun interfaceName =>
                        symbolReference tbl interfaceName rel_implements
                          (className ++ " implements " ++ interfaceName))
                     (map Str.trim (Str.split "," implementsInterfaces))
            else []))
    (Regex.exec_all Patterns.javaClassRegex content).

(** The injected fields of a Java text, once for every injection
    annotation in the text *)
Definition javaInjectionReferences (tbl : JsMap.t CodeModule)
           (content : string) : list Reference :=
  flat_map
    (fun m =>
       if Str.mem (Regex.group 1 m) injectionAnnotations
       then fieldReferences tbl content
       else [])
    (Regex.exec_all Patterns.annotationRegex content).

(** The references of a Java text, in the order of the scan *)
Definition javaReferences (w : World) (tbl : JsMap.t CodeModule)
           (path content : string) : list Reference :=
  (javaImportReferences w path content
   ++ javaClassReferences tbl content
   ++ javaInjectionReferences tbl content)%list.

(** The usings of a C# text *)
Definition csharpUsingReferences (w : World) (path content : string)
  : list Reference :=
  flat_map
    (fun m =>
       let usingPath := Str.trim (Regex.group 1 m) in
       if Str.truthy usingPath
       then [importReference w csharp path usingPath]
       else [])
    (Regex.exec_all Patterns.usingRegex content).

(** The base types of the classes of a C# text, with their type
    arguments cut off *)
Definition csharpClassReferences (tbl : JsMap.t CodeModule) (content : string)
  : list Reference :=
  flat_map
    (fun m =>
       let className := Regex.group 1 m in
       let baseTypes := Regex.group 2 m in
       if Str.truthy baseTypes
       then map (fun baseType =>
                   symbolReference tbl
                     (Regex.remove_first Patterns.genericsRegex baseType)
                     rel_extends (className ++ " : " ++ baseType))
                (map Str.trim (Str.split "," baseTypes))
       else [])
    (Regex.exec_all Patterns.csharpClassRegex content).

(** The injected interfaces of a C# text *)
Definition csharpInjectionReferences (tbl : JsMap.t CodeModule)
           (content : string) : list Reference :=
  map (fun m =>
         let interfaceName := "I" ++ Regex.group 1 m in
         symbolReference tbl interfaceName rel_references
                         ("Dependency injection: " ++ interfaceName))
      (Regex.exec_all Patterns.diRegex content).

(** The references of a C# text, in the order of the scan *)
Definition csharpReferences (w : World) (tbl : JsMap.t CodeModule)
           (path content : string) : list Reference :=
  (csharpUsingReferences w path content
   ++ csharpClassReferences tbl content
   ++ csharpInjectionReferences tbl content)%list.

Definition references (w : World) (tbl : JsMap.t CodeModule) (lang : Language)
           (path content : string) : list Reference :=
  match lang with
  | go => goReferences w path
  | java => javaReferences w tbl path
  | csharp => csharpReferences w tbl path
  end content.

(** The entries a reference gives to the relationship collection: one
    edge to the path its resolution answers with, and none when the
    resolution answers with nothing or with the empty path. *)
Definition entriesOf (source : string) (ref : Reference)
  : list FileRelationship :=
  match ref_answer ref with
  | Ok (Some target) =>
      if Str.truthy target
      then [{| sourceFile := source; targetFile := target;
               relationType := ref_type ref; details := ref_details ref |}]
      else []
  | _ => []
  end.

(** The scan of a file that meets the references [refs] in this order:
    how it ends and what it appends.  Every reference whose resolution
    answers gives its entries; the scan ends with the failure of the
    first resolution that fails, and has appended the entries of the
    references before it. *)
Fixpoint scanOf (source : string) (refs : list Reference)
  : outcome unit * list FileRelationship :=
  match refs with
  | [] => (Ok tt, [])
  | ref :: refs' =>
      match ref_answer ref with
      | Ok _ =>
          (fst (scanOf source refs'),
           (entriesOf source ref ++ snd (scanOf source refs'))%list)
      | Throw e => (Throw e, [])
      | Hang => (Hang, [])
      end
  end.

(** A method that scans the references [refs] over the table [tbl] *)
Definition performs (tbl : JsMap.t CodeModule) (source : string)
           (c : M unit) (refs : list Reference) : Prop :=
  forall st, codeModules st = tbl ->
             c st = (fst (scanOf source refs),
                     addRels st (snd (scanOf source refs))).
(** An import edge that the import resolver of the language [lang]
    answers for: run on the source file and on the imported text that
    the edge records, it returns the target. *)
Definition justifiedImport (w : World) (lang : Language)
           (rel : FileRelationship) : Prop :=
  importResolver w lang (sourceFile rel) (details rel)
  = Ok (Some (targetFile rel)).

(** What holds of an edge appended while the file [path], of the
    language [lang], is scanned over the module table [tbl] *)
Definition scannedEdge (w : World) (tbl : JsMap.t CodeModule)
           (lang : Language) (path : string) (rel : FileRelationship) : Prop :=
  sourceFile rel = path /\
  targetFile rel <> "" /\
  match relationType rel with
  | rel_import => justifiedImport w lang rel
  | _ => In (targetFile rel) (JsMap.keys tbl)
  end.

(** Every stored import edge is answered for by the import resolver of
    the language of its source file, the language of the module that
    the parsers return for that file. *)
Definition importsJustified (w : World) (st : Analyzer) : Prop :=
  forall rel,
    In rel (fileRelationships st) -> relationType rel = rel_import ->
    exists m, parseFile w (sourceFile rel) = Ok (Some m) /\
              justifiedImport w (language m) rel.

(** The edge appended by an entry of the module table *)
Definition entryEdge (w : World) (tbl : JsMap.t CodeModule)
           (rel : FileRelationship) : Prop :=
  exists path module,
    In (path, module) tbl /\ scannedEdge w tbl (language module) path rel.


(** The Go file of the sample project: its module and its text *)
Definition sampleGoModule : CodeModule :=
  {| filePath := "/w/r/a.go"; language := go; endpoints := [];
     classes := []; functions := []; lastModified := 0 |}.

Definition sampleGoText : string :=
  Eval vm_compute in
    match readFile sampleWorld "/w/r/a.go" with
    | Ok content => content
    | _ => ""
    end.

Set Implicit Arguments.

(** * Properties *)

(** ** The monad *)

Lemma addRels_nil st : addRels st [] = st.
Proof. destruct st; unfold addRels; simpl. now rewrite app_nil_r. Qed.

Lemma addRels_app st E1 E2 :
  addRels (addRels st E1) E2 = addRels st (E1 ++ E2).
Proof. unfold addRels; simpl. now rewrite app_assoc. Qed.

Lemma codeModules_addRels st E : codeModules (addRels st E) = codeModules st.
Proof. reflexivity. Qed.

Section Emits.

Variable tbl : JsMap.t CodeModule.
Variable Q : FileRelationship -> Prop.

Lemma emits_ret {A : Type} (a : A) : emits tbl Q (ret a).
Proof.
  exists (Ok a), []. split; [constructor|].
  intros st _. unfold ret. now rewrite addRels_nil.
Qed.

Lemma emits_lift {A : Type} (c : outcome A) : emits tbl Q (lift c).
Proof.
  exists c, []. split; [constructor|].
  intros st _. unfold lift. now rewrite addRels_nil.
Qed.

Lemma emits_bind {A B : Type} (c : M A) (k : A -> M B) :
  emits tbl Q c -> (forall a, emits tbl Q (k a)) -> emits tbl Q (bind c k).
Proof.
  intros (r & E & HE & Hc) Hk.
  destruct r as [a | e | ].
  - destruct (Hk a) as (r2 & E2 & HE2 & Hk2).
    exists r2, (E ++ E2)%list. split; [now apply Forall_app|].
    intros st Hst. unfold bind. rewrite (Hc st Hst).
    rewrite Hk2 by (now rewrite codeModules_addRels).
    now rewrite addRels_app.
  - exists (Throw e), E. split; [assumption|].
    intros st Hst. unfold bind. now rewrite (Hc st Hst).
  - exists Hang, E. split; [assumption|].
    intros st Hst. unfold bind. now rewrite (Hc st Hst).
Qed.

Lemma emits_forEach {A : Type} (l : list A) (body : A -> M unit) :
  (forall x, In x l -> emits tbl Q (body x)) -> emits tbl Q (forEach l body).
Proof.
  induction l as [| x l IH]; intros Hbody; simpl.
  - apply emits_ret.
  - apply emits_bind.
    + apply Hbody. now left.
    + intros _. apply IH. intros y Hy. apply Hbody. now right.
Qed.

Lemma emits_when (b : bool) (c : M unit) :
  emits tbl Q c -> emits tbl Q (when b c).
Proof. destruct b; simpl; [trivial | intros _; apply emits_ret]. Qed.

Lemma emits_push rel : Q rel -> emits tbl Q (pushRelationship rel).
Proof.
  intros Hrel. exists (Ok tt), [rel]. split; [now constructor|].
  intros st _. reflexivity.
Qed.

Lemma emits_pushIfResolved source target type detail :
  (forall t, target = Some t -> t <> "" ->
             Q {| sourceFile := source; targetFile := t;
                  relationType := type; details := detail |}) ->
  emits tbl Q (pushIfResolved source target type detail).
Proof.
  intros H. unfold pushIfResolved. destruct target as [t|].
  - destruct t as [| a t'] eqn:Et; simpl.
    + apply emits_ret.
    + apply emits_push. apply H; [reflexivity | discriminate].
  - apply emits_ret.
Qed.

Lemma emits_ext {A : Type} (c c' : M A) :
  (forall st, codeModules st = tbl -> c st = c' st) ->
  emits tbl Q c' -> emits tbl Q c.
Proof.
  intros Heq (r & E & HE & Hc). exists r, E. split; [assumption|].
  intros st Hst. rewrite (Heq st Hst). now apply Hc.
Qed.

Lemma emits_resolveAndPush resolver source detail :
  (forall t, resolver = Ok (Some t) -> t <> "" ->
             Q {| sourceFile := source; targetFile := t;
                  relationType := rel_import; details := detail |}) ->
  emits tbl Q (resolveAndPush resolver source detail).
Proof.
  intros H. destruct resolver as [o | e | ] eqn:Er.
  - apply emits_ext with (c' := pushIfResolved source o rel_import detail).
    + reflexivity.
    + apply emits_pushIfResolved. intros t -> Hne. now apply H.
  - apply emits_ext with (c' := lift (Throw e)); [reflexivity|apply emits_lift].
  - apply emits_ext with (c' := lift Hang); [reflexivity|apply emits_lift].
Qed.

Lemma classFile_key className path :
  classFile tbl className = Some path -> In path (JsMap.keys tbl).
Proof.
  unfold classFile. destruct (find _ _) as [[k m]|] eqn:Hf; [|discriminate].
  intros [= <-]. apply find_some in Hf. destruct Hf as [Hin _].
  unfold JsMap.keys. change k with (fst (k, m)). now apply in_map.
Qed.

Lemma emits_lookupAndPush source className type detail :
  (forall t, In t (JsMap.keys tbl) -> t <> "" ->
             Q {| sourceFile := source; targetFile := t;
                  relationType := type; details := detail |}) ->
  emits tbl Q (lookupAndPush source className type detail).
Proof.
  intros H.
  apply emits_ext
    with (c' := pushIfResolved source (classFile tbl className) type detail).
  - intros st Hst. unfold lookupAndPush, bind, findClassDefinition, gets.
    unfold classFile. now rewrite Hst.
  - apply emits_pushIfResolved. intros t Ht Hne.
    apply H; [now apply classFile_key with className | assumption].
Qed.

End Emits.

Lemma emits_weaken {A : Type} tbl (Q Q' : FileRelationship -> Prop) (c : M A) :
  (forall rel, Q rel -> Q' rel) -> emits tbl Q c -> emits tbl Q' c.
Proof.
  intros HQ (r & E & HE & Hc). exists r, E. split; [|assumption].
  eapply Forall_impl; eassumption.
Qed.

(** ** Relationship extraction *)

Section Extraction.

Variable w : World.
Variable tbl : JsMap.t CodeModule.

Ltac edge_steps :=
  repeat first
    [ apply emits_bind; [|intros _]
    | apply emits_forEach; intros ? _
    | apply emits_when
    | apply emits_ret
    | apply emits_lift ].

Lemma symbol_edge path type detail t :
  type <> rel_import -> In t (JsMap.keys tbl) -> t <> "" ->
  edgeOf w tbl path {| sourceFile := path; targetFile := t;
                       relationType := type; details := detail |}.
Proof.
  intros Hty Hin Hne. repeat split; simpl; try assumption.
  destruct type; try assumption. now elim Hty.
Qed.

Lemma emits_symbol path className type detail :
  type <> rel_import ->
  emits tbl (edgeOf w tbl path) (lookupAndPush path className type detail).
Proof.
  intros Hty. apply emits_lookupAndPush. intros t Hin Hne.
  now apply symbol_edge.
Qed.

Lemma emits_import path detail resolver :
  (forall t, resolver = Ok (Some t) ->
             resolvedImport w {| sourceFile := path; targetFile := t;
                                 relationType := rel_import;
                                 details := detail |}) ->
  emits tbl (edgeOf w tbl path) (resolveAndPush resolver path detail).
Proof.
  intros H. apply emits_resolveAndPush. intros t Ht Hne.
  repeat split; simpl; try assumption. now apply H.
Qed.

Lemma emits_analyzeGoRelationships path content :
  emits tbl (edgeOf w tbl path) (analyzeGoRelationships w path content).
Proof.
  unfold analyzeGoRelationships. edge_steps.
  apply emits_import. intros t Ht. left. exact Ht.
Qed.

Lemma emits_findServiceDependencies path content annotation :
  emits tbl (edgeOf w tbl path) (findServiceDependencies path content annotation).
Proof.
  unfold findServiceDependencies. edge_steps.
  apply emits_symbol. discriminate.
Qed.

Lemma emits_analyzeJavaRelationships path content :
  emits tbl (edgeOf w tbl path) (analyzeJavaRelationships w path content).
Proof.
  unfold analyzeJavaRelationships. edge_steps.
  - apply emits_import. intros t Ht. right. left. exact Ht.
  - apply emits_symbol. discriminate.
  - apply emits_symbol. discriminate.
  - cbv zeta. apply emits_symbol. discriminate.
Qed.

Lemma emits_analyzeCSharpRelationships path content :
  emits tbl (edgeOf w tbl path) (analyzeCSharpRelationships w path content).
Proof.
  unfold analyzeCSharpRelationships. edge_steps.
  - apply emits_import. intros t Ht. right. right. exact Ht.
  - apply emits_symbol. discriminate.
  - apply emits_symbol. discriminate.
Qed.

Lemma emits_findRelationshipsForFile path module :
  emits tbl (edgeOf w tbl path) (findRelationshipsForFile w path module).
Proof.
  unfold findRelationshipsForFile.
  apply emits_bind; [apply emits_lift|]. intros content.
  destruct (language module).
  - apply emits_analyzeGoRelationships.
  - apply emits_analyzeJavaRelationships.
  - apply emits_analyzeCSharpRelationships.
Qed.

Lemma emits_analyzeFileRelationships :
  emits tbl (storedEdge w tbl) (analyzeFileRelationships w).
Proof.
  apply emits_ext
    with (c' := forEach (JsMap.entries tbl)
                        (fun e => findRelationshipsForFile w (fst e) (snd e))).
  - intros st Hst. unfold analyzeFileRelationships, bind, gets.
    now rewrite Hst.
  - apply emits_forEach. intros [k m] Hin.
    apply emits_weaken with (Q := edgeOf w tbl k).
    + intros rel Hrel. split.
      * destruct Hrel as [-> _]. unfold JsMap.keys.
        change k with (fst (k, m)). now apply in_map.
      * destruct Hrel as [Hs Hrest]. rewrite Hs. now split.
    + apply emits_findRelationshipsForFile.
Qed.

End Extraction.

(** ** Insertion-ordered maps *)

Section JsMapFacts.

Variable V : Type.
Implicit Types (m : JsMap.t V) (k : string) (v : V).

Lemma keys_set k v m :
  JsMap.keys (JsMap.set k v m) =
  if JsMap.has k m then JsMap.keys m else (JsMap.keys m ++ [k])%list.
Proof.
  unfold JsMap.has. induction m as [| [k' v'] m IH]; simpl; [reflexivity|].
  destruct (String.eqb_spec k k') as [-> | Hne]; simpl; [reflexivity|].
  rewrite IH. now destruct (JsMap.get k m).
Qed.

Lemma has_true_iff k m : JsMap.has k m = true <-> In k (JsMap.keys m).
Proof.
  unfold JsMap.has. induction m as [| [k' v'] m IH]; simpl.
  - split; [discriminate | contradiction].
  - destruct (String.eqb_spec k k') as [-> | Hne].
    + split; auto.
    + rewrite IH. split; [auto | intros [H | H]; [congruence | assumption]].
Qed.

Lemma has_false_iff k m : JsMap.has k m = false <-> ~ In k (JsMap.keys m).
Proof.
  rewrite <- has_true_iff. destruct (JsMap.has k m); split; congruence.
Qed.

Lemma in_keys_set k0 v0 m k :
  In k (JsMap.keys (JsMap.set k0 v0 m)) <-> k = k0 \/ In k (JsMap.keys m).
Proof.
  rewrite keys_set. destruct (JsMap.has k0 m) eqn:Hh.
  - apply has_true_iff in Hh. split; [auto | intros [-> | H]; assumption].
  - rewrite in_app_iff. simpl. split.
    + intros [H | [H | []]]; auto.
    + intros [-> | H]; auto.
Qed.

Lemma NoDup_keys_set k v m :
  NoDup (JsMap.keys m) -> NoDup (JsMap.keys (JsMap.set k v m)).
Proof.
  intros Hnd. rewrite keys_set. destruct (JsMap.has k m) eqn:Hh; [assumption|].
  apply has_false_iff in Hh.
  apply NoDup_app; [assumption | repeat constructor; intros [] | ].
  intros x Hx [<- | []]. contradiction.
Qed.

Lemma in_set k0 v0 m k v :
  In (k, v) (JsMap.set k0 v0 m) -> (k = k0 /\ v = v0) \/ In (k, v) m.
Proof.
  induction m as [| [k' v'] m IH]; simpl.
  - intros [[= <- <-] | []]. now left.
  - destruct (String.eqb_spec k0 k') as [-> | Hne]; simpl.
    + intros [[= <- <-] | H]; auto.
    + intros [H | H]; auto. destruct (IH H); auto.
Qed.

Lemma in_set_other k0 v0 m k v :
  k <> k0 -> In (k, v) m -> In (k, v) (JsMap.set k0 v0 m).
Proof.
  intros Hne. induction m as [| [k' v'] m IH]; simpl; [contradiction|].
  destruct (String.eqb_spec k0 k') as [-> | Hne']; simpl.
  - intros [[= -> ->] | H]; [congruence | auto].
  - intros [H | H]; auto.
Qed.

Lemma in_set_same k v m : In (k, v) (JsMap.set k v m).
Proof.
  induction m as [| [k' v'] m IH]; simpl; [now left|].
  destruct (String.eqb_spec k k'); simpl; auto.
Qed.

Lemma get_in k v m : JsMap.get k m = Some v -> In (k, v) m.
Proof.
  induction m as [| [k' v'] m IH]; simpl; [discriminate|].
  destruct (String.eqb_spec k k') as [-> | Hne].
  - intros [= ->]. now left.
  - auto.
Qed.

Lemma in_get k v m : NoDup (JsMap.keys m) -> In (k, v) m -> JsMap.get k m = Some v.
Proof.
  induction m as [| [k' v'] m IH]; simpl; [contradiction|].
  intros Hnd [[= -> ->] | Hin].
  - now rewrite String.eqb_refl.
  - inversion Hnd as [| ? ? Hnotin Hnd']; subst.
    destruct (String.eqb_spec k k') as [-> | Hne]; [|auto].
    exfalso. apply Hnotin. unfold JsMap.keys.
    change k' with (fst (k', v)). now apply in_map.
Qed.

Lemma get_none k m : JsMap.get k m = None <-> ~ In k (JsMap.keys m).
Proof.
  rewrite <- has_false_iff. unfold JsMap.has.
  destruct (JsMap.get k m); split; congruence.
Qed.

Lemma in_keys_entry k m : In k (JsMap.keys m) -> exists v, In (k, v) m.
Proof.
  unfold JsMap.keys. rewrite in_map_iff. intros ([k' v] & <- & H).
  now exists v.
Qed.

Lemma entry_in_keys k v m : In (k, v) m -> In k (JsMap.keys m).
Proof.
  intros H. unfold JsMap.keys. change k with (fst (k, v)). now apply in_map.
Qed.

End JsMapFacts.

(** ** The parsing phase *)

Lemma storedEdge_mono w (tbl tbl' : JsMap.t CodeModule) rel :
  (forall k, In k (JsMap.keys tbl) -> In k (JsMap.keys tbl')) ->
  storedEdge w tbl rel -> storedEdge w tbl' rel.
Proof.
  intros Hsub [Hsrc (Hs & Hne & Hty)]. split; [now apply Hsub|].
  split; [assumption|]. split; [assumption|].
  destruct (relationType rel); auto.
Qed.

Section Parsing.

Variable w : World.

Lemma parseFile_never_throws path e : parseFile w path <> Throw e.
Proof.
  unfold parseFile. destruct (getParserByFileExtension path); [|discriminate].
  unfold BaseParser_parseFile.
  destruct (obind _ _); discriminate.
Qed.

Lemma parseFile_filePath path m :
  parseFile w path = Ok (Some m) -> filePath m = path.
Proof.
  unfold parseFile. destruct (getParserByFileExtension path) as [lang|];
    [|discriminate].
  unfold BaseParser_parseFile, obind.
  destruct (readFile w path); try discriminate.
  destruct (stat w path); try discriminate.
  destruct (extractApiEndpoints w lang a path); try discriminate.
  destruct (extractClasses w lang a path); try discriminate.
  destruct (extractFunctions w lang a path); try discriminate.
  now intros [= <-].
Qed.


Lemma parseOne_state path st :
  let st' := snd ((parseOne w) path st) in
  fileRelationships st' = fileRelationships st /\
  crossReferences st' = crossReferences st /\
  (forall k, In k (JsMap.keys (codeModules st)) ->
             In k (JsMap.keys (codeModules st'))) /\
  (wellFormed w st -> wellFormed w st') /\
  (forall k m, In (k, m) (codeModules st') ->
               In (k, m) (codeModules st) \/
               (k = path /\ parseFile w path = Ok (Some m))) /\
  (forall m, parseFile w path = Ok (Some m) -> In (path, m) (codeModules st')).
Proof.
  unfold parseOne, bind, lift.
  destruct (parseFile w path) as [[m|] | e | ] eqn:Hp; simpl;
    try (split; [|split; [|split; [|split; [|split]]]]; auto; discriminate).
  split; [|split; [|split; [|split; [|split]]]]; auto.
  - intros k Hk. apply in_keys_set. now right.
  - intros [Hnd Htab Hsrc]. split; simpl.
    + now apply NoDup_keys_set.
    + intros k m' Hin. apply in_set in Hin.
      destruct Hin as [[-> ->] | Hin]; [assumption | now apply Htab].
    + intros rel Hrel. apply storedEdge_mono with (codeModules st).
      * intros k Hk. apply in_keys_set. now right.
      * now apply Hsrc.
  - intros k m' Hin. apply in_set in Hin.
    destruct Hin as [[-> ->] | Hin]; auto.
  - intros m' [= <-]. apply in_set_same.
Qed.

Lemma parseLoop_state files st :
  let r := forEach files (parseOne w) st in
  fileRelationships (snd r) = fileRelationships st /\
  crossReferences (snd r) = crossReferences st /\
  (forall k, In k (JsMap.keys (codeModules st)) ->
             In k (JsMap.keys (codeModules (snd r)))) /\
  (wellFormed w st -> wellFormed w (snd r)) /\
  (forall k m, In (k, m) (codeModules (snd r)) ->
               In (k, m) (codeModules st) \/
               (In k files /\ parseFile w k = Ok (Some m))) /\
  (fst r = Ok tt -> wellFormed w st ->
   forall path m, In path files -> parseFile w path = Ok (Some m) ->
                  In (path, m) (codeModules (snd r))) /\
  (forall e, fst r <> Throw e).
Proof.
  revert st. induction files as [| path files IH]; intros st; simpl.
  - split; [|split; [|split; [|split; [|split; [|split]]]]]; auto;
      try contradiction; discriminate.
  - pose proof (parseOne_state path st) as H1. cbv zeta in H1.
    destruct H1 as (Hr1 & Hc1 & Hk1 & Hwf1 & Hin1 & Hnew1).
    unfold bind.
    destruct ((parseOne w) path st) as [[[] | e | ] st1] eqn:Hone;
      cbn [fst snd] in *.
    + specialize (IH st1). cbv zeta in IH.
      destruct IH as (Hr2 & Hc2 & Hk2 & Hwf2 & Hin2 & Hnew2 & Hthrow2).
      split; [|split; [|split; [|split; [|split; [|split]]]]].
      * now rewrite Hr2.
      * now rewrite Hc2.
      * auto.
      * auto.
      * intros k m Hin. destruct (Hin2 k m Hin) as [H | [H H']]; auto.
        destruct (Hin1 k m H) as [H0 | [-> H0]]; auto.
      * intros Hok Hwf p m [<- | Hp] Hparse.
        -- specialize (Hnew1 m Hparse).
           pose proof (Hwf2 (Hwf1 Hwf)) as [Hnd Htab _].
           destruct (in_keys_entry _ _ (Hk2 path (entry_in_keys _ _ _ Hnew1)))
             as [m' Hm'].
           pose proof (Htab _ _ Hm') as Hp'. rewrite Hparse in Hp'.
           now injection Hp' as <-.
        -- apply Hnew2; auto.
      * assumption.
    + exfalso. unfold parseOne, bind, lift in Hone.
      destruct (parseFile w path) as [[m|] | e' | ] eqn:Hp;
        try discriminate.
      now apply parseFile_never_throws in Hp.
    + split; [|split; [|split; [|split; [|split; [|split]]]]]; auto;
        try discriminate.
      intros k m Hin. destruct (Hin1 k m Hin) as [H | [-> H]]; auto.
Qed.

End Parsing.

Section JsMapSet.

Variable V : Type.
Implicit Types (m : JsMap.t V) (k : string) (v : V).

Lemma get_set_same k v m : JsMap.get k (JsMap.set k v m) = Some v.
Proof.
  induction m as [| [k' v'] m IH]; simpl.
  - now rewrite String.eqb_refl.
  - destruct (String.eqb_spec k k') as [-> | Hne]; simpl.
    + now rewrite String.eqb_refl.
    + destruct (String.eqb_spec k k'); [contradiction | assumption].
Qed.

(** With distinct keys, [set] replaces the one entry of its key. *)
Lemma in_set_iff k0 v0 m k v :
  NoDup (JsMap.keys m) ->
  In (k, v) (JsMap.set k0 v0 m) <->
  (k = k0 /\ v = v0) \/ (k <> k0 /\ In (k, v) m).
Proof.
  intros Hnd. split.
  - intros Hin. destruct (string_dec k k0) as [-> | Hne].
    + left. split; [reflexivity|].
      pose proof (NoDup_keys_set k0 v0 m Hnd) as Hnd'.
      apply in_get in Hin; [|exact Hnd'].
      rewrite get_set_same in Hin. now injection Hin.
    + right. split; [assumption|].
      apply in_set in Hin.
      destruct Hin as [[-> _] | H]; [contradiction | assumption].
  - intros [[-> ->] | [Hne Hin]].
    + apply in_set_same.
    + now apply in_set_other.
Qed.

End JsMapSet.

(** ** Grouping *)

Section Grouping.

Lemma filter_snoc {A : Type} (f : A -> bool) (l : list A) (x : A) :
  filter f (l ++ [x]) = (filter f l ++ if f x then [x] else [])%list.
Proof. rewrite filter_app. simpl. now destruct (f x). Qed.

Lemma addToGroup_inv processed groups path :
  groupInv processed groups ->
  groupInv (processed ++ [path]) (addToGroup groups path).
Proof.
  intros [Hnd Hfiles Hcover]. unfold addToGroup.
  set (name := extractServiceName path).
  set (groups1 := if negb (JsMap.has name groups)
                  then JsMap.set name [] groups else groups).
  assert (Hnd1 : NoDup (JsMap.keys groups1)).
  { unfold groups1. destruct (negb _); [now apply NoDup_keys_set | assumption]. }
  assert (Hfiles1 : forall n fs, In (n, fs) groups1 ->
                                 fs = filter (inService n) processed
                                 \/ (n = name /\ fs = []
                                     /\ ~ In name (JsMap.keys groups))).
  { unfold groups1. intros n fs Hin.
    destruct (JsMap.has name groups) eqn:Hh; simpl in Hin.
    - left. now apply Hfiles.
    - apply in_set_iff in Hin; [|assumption].
      destruct Hin as [[-> ->] | [_ Hin]].
      + right. repeat split. now apply has_false_iff.
      + left. now apply Hfiles. }
  assert (Hkeys1 : forall n, In n (JsMap.keys groups) -> In n (JsMap.keys groups1)).
  { unfold groups1. intros n Hn. destruct (negb _); [|assumption].
    apply in_keys_set. now right. }
  assert (Hname1 : In name (JsMap.keys groups1)).
  { unfold groups1. destruct (JsMap.has name groups) eqn:Hh; simpl.
    - now apply has_true_iff.
    - apply in_keys_set. now left. }
  destruct (JsMap.get name groups1) as [files|] eqn:Hget.
  2:{ apply get_none in Hget. contradiction. }
  apply get_in in Hget.
  assert (Hold : files = filter (inService name) processed).
  { destruct (Hfiles1 _ _ Hget) as [H | (_ & -> & Hnot)]; [assumption|].
    symmetry. destruct (filter (inService name) processed) as [| k l] eqn:Hf;
      [reflexivity|].
    exfalso. apply Hnot.
    assert (Hk : In k (filter (inService name) processed))
      by (rewrite Hf; now left).
    apply filter_In in Hk. destruct Hk as [Hk Hs].
    unfold inService in Hs. apply String.eqb_eq in Hs. rewrite <- Hs.
    now apply Hcover. }
  split.
  - now apply NoDup_keys_set.
  - intros n fs Hin. apply in_set_iff in Hin; [|assumption].
    rewrite filter_snoc.
    destruct Hin as [[-> ->] | [Hne Hin]].
    + unfold inService at 2. fold name. rewrite String.eqb_refl.
      now rewrite Hold.
    + unfold inService at 2. fold name.
      destruct (String.eqb_spec name n) as [<- | _]; [contradiction|].
      rewrite app_nil_r.
      destruct (Hfiles1 _ _ Hin) as [H | (Hn & _)]; [assumption | contradiction].
  - intros k Hk. apply in_keys_set. apply in_app_iff in Hk.
    destruct Hk as [Hk | [<- | []]].
    + right. apply Hkeys1. now apply Hcover.
    + now left.
Qed.

Lemma fold_addToGroup_inv l processed groups :
  groupInv processed groups ->
  groupInv (processed ++ l) (fold_left addToGroup l groups).
Proof.
  revert processed groups. induction l as [| path l IH]; intros processed groups H.
  - now rewrite app_nil_r.
  - simpl. replace (processed ++ path :: l)%list
      with ((processed ++ [path]) ++ l)%list
      by (now rewrite <- app_assoc).
    apply IH. now apply addToGroup_inv.
Qed.

Lemma groupFilesByService_inv st :
  groupInv (JsMap.keys (codeModules st)) (groupFilesByService st).
Proof.
  unfold groupFilesByService.
  change (JsMap.keys (codeModules st))
    with ([] ++ JsMap.keys (codeModules st))%list at 1.
  apply fold_addToGroup_inv. split.
  - constructor.
  - intros ? ? [].
  - intros ? [].
Qed.

(** A known file is listed by the group of its service name and by no
    other group. *)
Lemma group_member st name files k :
  In (name, files) (groupFilesByService st) ->
  (In k files <->
   In k (JsMap.keys (codeModules st)) /\ extractServiceName k = name).
Proof.
  intros Hin. destruct (groupFilesByService_inv st) as [_ Hfiles _].
  rewrite (Hfiles _ _ Hin), filter_In. unfold inService.
  now rewrite String.eqb_eq.
Qed.

Lemma group_exists st k :
  In k (JsMap.keys (codeModules st)) ->
  exists files, In (extractServiceName k, files) (groupFilesByService st)
                /\ In k files.
Proof.
  intros Hk. destruct (groupFilesByService_inv st) as [_ _ Hcover].
  destruct (in_keys_entry _ _ (Hcover k Hk)) as [files Hfiles].
  exists files. split; [assumption|].
  apply (group_member st _ _ k Hfiles). now split.
Qed.

End Grouping.

(** ** Context assembly *)

Lemma mem_true_iff x l : Str.mem x l = true <-> In x l.
Proof.
  unfold Str.mem. rewrite existsb_exists. split.
  - intros (y & Hy & Heq). apply String.eqb_eq in Heq. now subst.
  - intros H. exists x. split; [assumption | apply String.eqb_refl].
Qed.

Lemma filter_none {A : Type} (f : A -> bool) (l : list A) :
  (forall x, In x l -> f x = false) -> filter f l = [].
Proof.
  induction l as [| x l IH]; intros H; simpl; [reflexivity|].
  rewrite (H x) by now left. apply IH. intros y Hy. apply H. now right.
Qed.

Lemma hits_app path l1 l2 : hits path (l1 ++ l2) = hits path l1 + hits path l2.
Proof. unfold hits. now rewrite filter_app, length_app. Qed.

Lemma bucketModules_placeModule_hits fileType m c path :
  hits path (bucketModules (placeModule fileType m c)) =
  hits path (bucketModules c) + hits path [m].
Proof.
  destruct c. unfold placeModule.
  repeat match goal with
         | |- context [if ?b then _ else _] => destruct b
         end;
    unfold bucketModules; cbn [controllers services models repositories
                                 configurations utilities tests];
    rewrite !hits_app; lia.
Qed.

Lemma bucketModules_placeModule_in fileType m c x :
  In x (bucketModules (placeModule fileType m c)) <->
  x = m \/ In x (bucketModules c).
Proof.
  destruct c. unfold placeModule.
  repeat match goal with
         | |- context [if ?b then _ else _] => destruct b
         end;
    unfold bucketModules; cbn [controllers services models repositories
                                 configurations utilities tests];
    rewrite !in_app_iff; simpl; intuition congruence.
Qed.

Lemma serviceName_placeModule fileType m c :
  serviceName (placeModule fileType m c) = serviceName c.
Proof.
  destruct c. unfold placeModule.
  repeat match goal with
         | |- context [if ?b then _ else _] => destruct b
         end; reflexivity.
Qed.

Lemma bucketModules_setRelationships rels c :
  bucketModules (setRelationships rels c) = bucketModules c.
Proof. now destruct c. Qed.

Lemma relationships_setRelationships rels c :
  relationships (setRelationships rels c) = rels.
Proof. now destruct c. Qed.

Lemma serviceName_setRelationships rels c :
  serviceName (setRelationships rels c) = serviceName c.
Proof. now destruct c. Qed.

Section Assembly.

Variable st : Analyzer.

Lemma hits_addFiles path files c :
  hits path (bucketModules (fold_left (addFile st) files c)) =
  hits path (bucketModules c) + List.length (filter (storedFor st path) files).
Proof.
  revert c. induction files as [| f files IH]; intros c; simpl; [lia|].
  rewrite IH. unfold addFile.
  assert (Hf : storedFor st path f =
               match JsMap.get f (codeModules st) with
               | Some m => String.eqb (filePath m) path
               | None => false
               end) by reflexivity.
  destruct (JsMap.get f (codeModules st)) as [m|]; rewrite Hf;
    [|reflexivity].
  rewrite bucketModules_placeModule_hits.
  assert (Hm : hits path [m] = if String.eqb (filePath m) path then 1 else 0).
  { unfold hits. simpl. now destruct (String.eqb (filePath m) path). }
  rewrite Hm. destruct (String.eqb (filePath m) path); simpl; lia.
Qed.

Lemma in_addFiles x files c :
  In x (bucketModules (fold_left (addFile st) files c)) <->
  In x (bucketModules c) \/
  exists f, In f files /\ JsMap.get f (codeModules st) = Some x.
Proof.
  revert c. induction files as [| f files IH]; intros c; simpl.
  - split; [auto | intros [H | (f & [] & _)]; assumption].
  - rewrite IH. unfold addFile.
    destruct (JsMap.get f (codeModules st)) as [m|] eqn:Hg.
    + rewrite bucketModules_placeModule_in. split.
      * intros [[-> | H] | (f' & Hf' & Hx)]; eauto.
      * intros [H | (f' & [<- | Hf'] & Hx)]; eauto.
        rewrite Hg in Hx. injection Hx as <-. auto.
    + split.
      * intros [H | (f' & Hf' & Hx)]; eauto.
      * intros [H | (f' & [<- | Hf'] & Hx)]; eauto. congruence.
Qed.

Lemma serviceName_addFiles files c :
  serviceName (fold_left (addFile st) files c) = serviceName c.
Proof.
  revert c. induction files as [| f files IH]; intros c; simpl; [reflexivity|].
  rewrite IH. unfold addFile.
  destruct (JsMap.get f (codeModules st)); [apply serviceName_placeModule | reflexivity].
Qed.

Lemma relationships_createServiceContext name root files :
  relationships (createServiceContext st name root files) =
  filter (touches files) (fileRelationships st).
Proof. apply relationships_setRelationships. Qed.

Lemma serviceName_createServiceContext name root files :
  serviceName (createServiceContext st name root files) = name.
Proof.
  unfold createServiceContext.
  now rewrite serviceName_setRelationships, serviceName_addFiles.
Qed.

Lemma hits_createServiceContext path name root files :
  hits path (bucketModules (createServiceContext st name root files)) =
  List.length (filter (storedFor st path) files).
Proof.
  unfold createServiceContext.
  rewrite bucketModules_setRelationships, hits_addFiles. reflexivity.
Qed.

Lemma in_createServiceContext x name root files :
  In x (bucketModules (createServiceContext st name root files)) <->
  exists f, In f files /\ JsMap.get f (codeModules st) = Some x.
Proof.
  unfold createServiceContext.
  rewrite bucketModules_setRelationships, in_addFiles. simpl.
  split; [intros [[] | H]; assumption | auto].
Qed.

Lemma in_fold_setAdd x l s :
  In x (fold_left setAdd l s) <-> In x l \/ In x s.
Proof.
  revert s. induction l as [| y l IH]; intros s; simpl.
  - split; [auto | intros [[] | H]; assumption].
  - rewrite IH. unfold setAdd. destruct (Str.mem y s) eqn:Hm.
    + apply mem_true_iff in Hm. split.
      * intros [H | H]; auto.
      * intros [[<- | H] | H]; auto.
    + rewrite in_app_iff. simpl. split.
      * intros [H | [H | [<- | []]]]; auto.
      * intros [[<- | H] | H]; auto.
Qed.

Lemma fold_addContext basePath groups acc :
  let r := fold_left (addContext st basePath) groups acc in
  fst r = (fst acc ++ map (contextOfGroup st basePath) groups)%list /\
  (forall x, In x (snd r) <->
             In x (snd acc) \/ exists g, In g groups /\ In x (snd g)).
Proof.
  revert acc. induction groups as [| g groups IH]; intros acc; simpl.
  - split; [now rewrite app_nil_r|].
    intros x. split; [auto | intros [H | (g & [] & _)]; assumption].
  - destruct (IH (addContext st basePath acc g)) as [Hfst Hsnd].
    split.
    + rewrite Hfst. simpl. now rewrite <- app_assoc.
    + intros x. rewrite Hsnd. simpl. rewrite in_fold_setAdd. split.
      * intros [[H | H] | (g' & Hg' & Hx)]; eauto.
      * intros [H | (g' & [<- | Hg'] & Hx)]; eauto.
Qed.

(** The catch-all context is never built: every key of the table is in
    the group of its service name. *)
Lemma contextsOf_groups basePath :
  contextsOf st basePath =
  map (contextOfGroup st basePath) (groupFilesByService st).
Proof.
  unfold contextsOf.
  pose proof (fold_addContext basePath (JsMap.entries (groupFilesByService st))
                              ([], [])) as H.
  cbv zeta in H. destruct H as [Hfst Hsnd].
  destruct (fold_left _ _ _) as [contexts processedFiles].
  simpl in Hfst, Hsnd. subst contexts.
  replace (filter _ (JsMap.keys (codeModules st))) with (@nil string);
    [reflexivity|].
  symmetry. apply filter_none. intros k Hk.
  destruct (group_exists st k Hk) as (files & Hg & Hin).
  apply negb_false_iff, mem_true_iff, Hsnd. right.
  exists (extractServiceName k, files). now split.
Qed.

End Assembly.

(** ** Counting *)

Lemma count_absent (x : string) (l : list string) :
  ~ In x l -> List.length (filter (fun y => String.eqb y x) l) = 0.
Proof.
  intros H. rewrite filter_none; [reflexivity|].
  intros y Hy. apply String.eqb_neq. intros ->. contradiction.
Qed.

Lemma count_NoDup (x : string) (l : list string) :
  NoDup l -> In x l -> List.length (filter (fun y => String.eqb y x) l) = 1.
Proof.
  induction 1 as [| y l Hnotin Hnd IH]; simpl; [contradiction|].
  intros [-> | Hin].
  - rewrite String.eqb_refl. simpl. now rewrite count_absent.
  - destruct (String.eqb_spec y x) as [-> | _]; [contradiction | auto].
Qed.

Lemma sum_zero {A : Type} (f : A -> nat) (l : list A) :
  (forall x, In x l -> f x = 0) -> list_sum (map f l) = 0.
Proof.
  induction l as [| x l IH]; intros H; simpl; [reflexivity|].
  rewrite (H x) by now left. apply IH. intros y Hy. apply H. now right.
Qed.

(** Among groups with distinct names exactly one has a given name. *)
Lemma sum_one_group {V : Type} (n : string) (gs : JsMap.t V) (f : string * V -> nat) :
  NoDup (JsMap.keys gs) -> In n (JsMap.keys gs) ->
  (forall g, In g gs -> f g = if String.eqb (fst g) n then 1 else 0) ->
  list_sum (map f gs) = 1.
Proof.
  induction gs as [| [k v] gs IH]; simpl; [contradiction|].
  intros Hnd Hin Hf. inversion Hnd as [| ? ? Hnotin Hnd']; subst.
  rewrite (Hf (k, v)) by now left. simpl.
  destruct (String.eqb_spec k n) as [-> | Hne].
  - rewrite sum_zero; [reflexivity|].
    intros [k' v'] Hg. rewrite (Hf (k', v')) by now right. simpl.
    destruct (String.eqb_spec k' n) as [-> | _]; [|reflexivity].
    exfalso. apply Hnotin. now apply entry_in_keys with v'.
  - destruct Hin as [-> | Hin]; [contradiction|].
    apply IH; auto.
Qed.

(** ** The partition of the known files *)

Section Partition.

Variable w : World.
Variable st : Analyzer.
Hypothesis Hwf : wellFormed w st.

Lemma stored_filePath k m : In (k, m) (codeModules st) -> filePath m = k.
Proof.
  intros Hin. apply parseFile_filePath with w. now apply (wf_table Hwf).
Qed.

Lemma storedFor_key path f :
  In f (JsMap.keys (codeModules st)) -> storedFor st path f = String.eqb f path.
Proof.
  intros Hf. unfold storedFor.
  destruct (JsMap.get f (codeModules st)) as [m|] eqn:Hg.
  - apply get_in in Hg. now rewrite (stored_filePath _ _ Hg).
  - apply get_none in Hg. contradiction.
Qed.

Lemma hits_group basePath path name files :
  In (name, files) (groupFilesByService st) ->
  hits path (bucketModules (contextOfGroup st basePath (name, files))) =
  if JsMap.has path (codeModules st)
  then (if String.eqb name (extractServiceName path) then 1 else 0)
  else 0.
Proof.
  intros Hg. unfold contextOfGroup. simpl.
  rewrite hits_createServiceContext.
  rewrite (filter_ext_in (storedFor st path) (fun f => String.eqb f path)).
  2:{ intros f Hf. apply storedFor_key.
      now apply (group_member st _ _ f Hg). }
  destruct (JsMap.has path (codeModules st)) eqn:Hh.
  - apply has_true_iff in Hh.
    destruct (String.eqb_spec name (extractServiceName path)) as [-> | Hne].
    + apply count_NoDup.
      * destruct (groupFilesByService_inv st) as [_ Hfiles _].
        rewrite (Hfiles _ _ Hg). apply NoDup_filter. apply (wf_keys Hwf).
      * apply (group_member st _ _ path Hg). now split.
    + apply count_absent. intros Hin.
      apply (group_member st _ _ path Hg) in Hin. destruct Hin as [_ Hn].
      congruence.
  - apply has_false_iff in Hh. apply count_absent. intros Hin.
    apply (group_member st _ _ path Hg) in Hin. now destruct Hin.
Qed.

Lemma occurrences_contextsOf basePath path :
  occurrences path (contextsOf st basePath) =
  if JsMap.has path (codeModules st) then 1 else 0.
Proof.
  unfold occurrences. rewrite contextsOf_groups, map_map.
  destruct (JsMap.has path (codeModules st)) eqn:Hh.
  - apply has_true_iff in Hh.
    destruct (groupFilesByService_inv st) as [Hnd _ Hcover].
    apply sum_one_group with (n := extractServiceName path).
    + assumption.
    + now apply Hcover.
    + intros [name files] Hg. rewrite (hits_group _ _ _ _ Hg).
      apply has_true_iff in Hh. now rewrite Hh.
  - apply sum_zero. intros [name files] Hg.
    rewrite (hits_group _ _ _ _ Hg). now rewrite Hh.
Qed.

Lemma stored_module_placed basePath path m :
  In (path, m) (codeModules st) ->
  exists c, In c (contextsOf st basePath) /\ In m (bucketModules c).
Proof.
  intros Hin. pose proof (entry_in_keys _ _ _ Hin) as Hk.
  destruct (group_exists st path Hk) as (files & Hg & Hf).
  exists (contextOfGroup st basePath (extractServiceName path, files)). split.
  - rewrite contextsOf_groups. now apply in_map.
  - apply in_createServiceContext. exists path. split; [assumption|].
    apply in_get; [apply (wf_keys Hwf) | assumption].
Qed.

(** The member files of the context of a group are the files of the
    group. *)
Lemma memberFiles_group basePath name files f :
  In (name, files) (groupFilesByService st) ->
  (In f (memberFiles (contextOfGroup st basePath (name, files))) <->
   In f files).
Proof.
  intros Hg. unfold memberFiles. rewrite in_map_iff. split.
  - intros (m & <- & Hm). apply in_createServiceContext in Hm.
    destruct Hm as (f' & Hf' & Hget). apply get_in in Hget.
    now rewrite (stored_filePath _ _ Hget).
  - intros Hf. pose proof (proj1 (group_member st _ _ f Hg) Hf) as [Hk _].
    destruct (in_keys_entry _ _ Hk) as [m Hm].
    exists m. split; [now apply stored_filePath|].
    apply in_createServiceContext. exists f. split; [assumption|].
    apply in_get; [apply (wf_keys Hwf) | assumption].
Qed.

End Partition.

(** ** A run of [analyzeDirectory] *)

Lemma wellFormed_new w : wellFormed w newAnalyzer.
Proof.
  split; simpl.
  - constructor.
  - intros ? ? [].
  - intros ? [].
Qed.

Section Run.

Variable w : World.

Lemma parseAllFiles_eq fuel dir st :
  parseAllFiles w fuel dir st =
  match findAllSupportedFiles w fuel dir with
  | Ok files => forEach files (parseOne w) st
  | Throw e => (Throw e, st)
  | Hang => (Hang, st)
  end.
Proof.
  unfold parseAllFiles, bind, lift.
  now destruct (findAllSupportedFiles w fuel dir).
Qed.

(** A pass of relationship extraction pushes edges and changes nothing
    else; the edges and the outcome are determined by the module table. *)
Lemma analyzeFileRelationships_emits st :
  exists r E,
    Forall (storedEdge w (codeModules st)) E /\
    forall st', codeModules st' = codeModules st ->
                analyzeFileRelationships w st' = (r, addRels st' E).
Proof. apply emits_analyzeFileRelationships. Qed.

Lemma wellFormed_addRels st E :
  wellFormed w st -> Forall (storedEdge w (codeModules st)) E ->
  wellFormed w (addRels st E).
Proof.
  intros [Hnd Htab Hedges] HE. split; simpl; try assumption.
  intros rel Hrel. apply in_app_iff in Hrel. destruct Hrel as [H | H].
  - now apply Hedges.
  - rewrite Forall_forall in HE. now apply HE.
Qed.

Lemma analyzeFileRelationships_wf st :
  wellFormed w st -> wellFormed w (snd (analyzeFileRelationships w st)).
Proof.
  intros Hwf. destruct (analyzeFileRelationships_emits st) as (r & E & HE & Hrun).
  rewrite (Hrun st eq_refl). simpl. now apply wellFormed_addRels.
Qed.

Lemma parseAllFiles_wf fuel dir st :
  wellFormed w st -> wellFormed w (snd (parseAllFiles w fuel dir st)).
Proof.
  intros Hwf. rewrite parseAllFiles_eq.
  destruct (findAllSupportedFiles w fuel dir) as [files | e | ]; try assumption.
  now apply parseLoop_state.
Qed.

(** The phases of a run, from its definition *)
Lemma analyzeDirectory_eq fuel dir st :
  analyzeDirectory w fuel dir st =
  match parseAllFiles w fuel dir st with
  | (Ok _, st1) =>
      match analyzeFileRelationships w st1 with
      | (Ok _, st2) => (Ok (contextsOf st2 dir), st2)
      | (Throw e, st2) => (Throw e, st2)
      | (Hang, st2) => (Hang, st2)
      end
  | (Throw e, st1) => (Throw e, st1)
  | (Hang, st1) => (Hang, st1)
  end.
Proof.
  unfold analyzeDirectory, bind.
  destruct (parseAllFiles w fuel dir st) as [[[] | e | ] st1]; reflexivity.
Qed.

(** Whatever its outcome, a run keeps the invariants. *)
Lemma analyzeDirectory_wf fuel dir st :
  wellFormed w st -> wellFormed w (snd (analyzeDirectory w fuel dir st)).
Proof.
  intros Hwf. rewrite analyzeDirectory_eq.
  pose proof (parseAllFiles_wf fuel dir Hwf) as H1.
  destruct (parseAllFiles w fuel dir st) as [[[] | e | ] st1]; simpl in *;
    try assumption.
  pose proof (analyzeFileRelationships_wf H1) as H2.
  destruct (analyzeFileRelationships w st1) as [[[] | e | ] st2]; assumption.
Qed.

(** A run that returns went through its three phases. *)
Lemma analyzeDirectory_returns fuel dir st ctxs st' :
  analyzeDirectory w fuel dir st = (Ok ctxs, st') ->
  exists files st1,
    findAllSupportedFiles w fuel dir = Ok files /\
    forEach files (parseOne w) st = (Ok tt, st1) /\
    analyzeFileRelationships w st1 = (Ok tt, st') /\
    codeModules st' = codeModules st1 /\
    ctxs = contextsOf st' dir.
Proof.
  rewrite analyzeDirectory_eq, parseAllFiles_eq.
  destruct (findAllSupportedFiles w fuel dir) as [files | e | ]; try discriminate.
  destruct (forEach files (parseOne w) st) as [[[] | e | ] st1] eqn:Hparse;
    try discriminate.
  destruct (analyzeFileRelationships_emits st1) as (r & E & HE & Hrun).
  rewrite (Hrun st1 eq_refl).
  destruct r as [[] | e | ]; try discriminate.
  intros [= <- <-]. exists files, st1.
  split; [reflexivity|]. split; [exact Hparse|].
  split; [now apply Hrun|]. split; reflexivity.
Qed.


End Run.

(** ** The contexts of a run *)

Unset Implicit Arguments.

Section Contexts.

Variable w : World.
Variable st : Analyzer.
Hypothesis Hwf : wellFormed w st.

(** A context is determined by any one of its member files. *)
Lemma context_of_member basePath c f :
  In c (contextsOf st basePath) -> In f (memberFiles c) ->
  In f (JsMap.keys (codeModules st)) /\
  c = contextOfGroup st basePath
        (extractServiceName f,
         filter (inService (extractServiceName f)) (JsMap.keys (codeModules st))).
Proof.
  rewrite contextsOf_groups, in_map_iff. intros ([name files] & <- & Hg) Hf.
  apply (memberFiles_group Hwf basePath _ _ f Hg) in Hf.
  pose proof (proj1 (group_member st _ _ f Hg) Hf) as [Hk Hn].
  split; [assumption|].
  destruct (groupFilesByService_inv st) as [_ Hfiles _].
  rewrite (Hfiles _ _ Hg), Hn. reflexivity.
Qed.

Lemma context_unique basePath c1 c2 f :
  In c1 (contextsOf st basePath) -> In c2 (contextsOf st basePath) ->
  In f (memberFiles c1) -> In f (memberFiles c2) -> c1 = c2.
Proof.
  intros H1 H2 Hf1 Hf2.
  destruct (context_of_member basePath c1 f H1 Hf1) as [_ ->].
  destruct (context_of_member basePath c2 f H2 Hf2) as [_ ->].
  reflexivity.
Qed.

Lemma relationships_of_context basePath c rel :
  In c (contextsOf st basePath) ->
  (In rel (relationships c) <->
   In rel (fileRelationships st) /\
   (In (sourceFile rel) (memberFiles c) \/ In (targetFile rel) (memberFiles c))).
Proof.
  rewrite contextsOf_groups, in_map_iff. intros ([name files] & <- & Hg).
  unfold contextOfGroup at 1. cbn [fst snd].
  rewrite relationships_createServiceContext, filter_In.
  unfold touches. rewrite orb_true_iff, !mem_true_iff.
  now rewrite !(memberFiles_group Hwf basePath _ _ _ Hg).
Qed.

Lemma source_context basePath rel :
  In rel (fileRelationships st) ->
  exists c, In c (contextsOf st basePath) /\
            In (sourceFile rel) (memberFiles c) /\ In rel (relationships c).
Proof.
  intros Hrel. destruct (wf_edges Hwf rel Hrel) as [Hsrc _].
  destruct (group_exists st _ Hsrc) as (files & Hg & Hf).
  exists (contextOfGroup st basePath (extractServiceName (sourceFile rel), files)).
  split; [|split].
  - rewrite contextsOf_groups. now apply in_map.
  - now apply (memberFiles_group Hwf basePath _ _ _ Hg).
  - unfold contextOfGroup. cbn [fst snd].
    rewrite relationships_createServiceContext, filter_In.
    split; [assumption|]. unfold touches.
    apply orb_true_iff. left. now apply mem_true_iff.
Qed.

End Contexts.

(** ** The run over the sample project *)

Lemma sample_run :
  findAllSupportedFiles sampleWorld 4 "/w/r" = Ok sampleFound /\
  analyzeDirectory sampleWorld 4 "/w/r" newAnalyzer
  = (Ok sampleContexts, sampleFinal).
Proof. split; vm_compute; reflexivity. Qed.

Lemma sample_keys :
  JsMap.keys (codeModules sampleFinal)
  = ["/w/r/a.go"; "/w/r/UserService.java"; "/w/r/User.java"; "/w/r/IFoo.cs";
     "/w/r/Foo.cs"].
Proof. reflexivity. Qed.

Lemma sample_edges :
  fileRelationships sampleFinal
  = [sampleImportEdge; sampleExtendsEdge;
     {| sourceFile := "/w/r/UserService.java"; targetFile := "/w/r/User.java";
        relationType := rel_references; details := "@Autowired User owner" |};
     {| sourceFile := "/w/r/Foo.cs"; targetFile := "/w/r/IFoo.cs";
        relationType := rel_extends; details := "Foo : IFoo" |};
     {| sourceFile := "/w/r/Foo.cs"; targetFile := "/w/r/IFoo.cs";
        relationType := rel_references;
        details := "Dependency injection: IFoo" |}].
Proof. reflexivity. Qed.

Lemma sample_contexts :
  map (fun c => (serviceName c, memberFiles c, List.length (relationships c)))
      sampleContexts
  = [("r", ["/w/r/a.go"; "/w/r/User.java"; "/w/r/IFoo.cs"; "/w/r/Foo.cs"], 5);
     ("User", ["/w/r/UserService.java"], 2)].
Proof. reflexivity. Qed.

(** ** The claims about a run *)

(** C1. Partition: after a run that returned, a file of the scanned set
    for which the fact provider returned a module occurs exactly once in
    the buckets of the returned contexts, all buckets of all contexts
    taken together, and the module sits in a bucket; a file for which the
    provider returned nothing occurs in no bucket of any context. *)
Theorem partition_of_parsed_files w fuel dir st ctxs st' files path :
  wellFormed w st ->
  findAllSupportedFiles w fuel dir = Ok files ->
  analyzeDirectory w fuel dir st = (Ok ctxs, st') ->
  (forall m, In path files -> parseFile w path = Ok (Some m) ->
             occurrences path ctxs = 1 /\
             exists c, In c ctxs /\ In m (bucketModules c)) /\
  (parseFile w path = Ok None ->
   occurrences path ctxs = 0 /\
   forall c, In c ctxs -> ~ In path (memberFiles c)).
Proof.
  intros Hwf Hfound Hrun.
  pose proof (analyzeDirectory_wf fuel dir Hwf) as Hwf'.
  rewrite Hrun in Hwf'. simpl in Hwf'.
  apply analyzeDirectory_returns in Hrun.
  destruct Hrun as (files' & st1 & Hfound' & Hparse & _ & Htbl & ->).
  rewrite Hfound in Hfound'. injection Hfound' as <-.
  pose proof (parseLoop_state w files st) as Hloop. cbv zeta in Hloop.
  rewrite Hparse in Hloop. cbn [fst snd] in Hloop.
  destruct Hloop as (_ & _ & _ & _ & _ & Hnew & _).
  split.
  - intros m Hin Hm.
    assert (Hstored : In (path, m) (codeModules st')).
    { rewrite Htbl. now apply Hnew. }
    split.
    + rewrite (occurrences_contextsOf Hwf').
      apply entry_in_keys, has_true_iff in Hstored. now rewrite Hstored.
    + now apply stored_module_placed with w path.
  - intros Hnone.
    assert (Hnot : ~ In path (JsMap.keys (codeModules st'))).
    { intros Hk. destruct (in_keys_entry _ _ Hk) as [m Hm].
      apply (wf_table Hwf') in Hm. congruence. }
    split.
    + rewrite (occurrences_contextsOf Hwf').
      apply has_false_iff in Hnot. now rewrite Hnot.
    + intros c Hc Hmem.
      now destruct (context_of_member w st' Hwf' dir c path Hc Hmem).
Qed.

Lemma partition_of_parsed_files_witness :
  occurrences "/w/r/User.java" sampleContexts = 1 /\
  occurrences "/w/r/missing.go" sampleContexts = 0.
Proof.
  pose proof (partition_of_parsed_files
                sampleWorld 4 "/w/r" newAnalyzer sampleContexts sampleFinal
                sampleFound) as H.
  split.
  - refine (proj1 (proj1 (H "/w/r/User.java" (wellFormed_new _) _ _) _ _ _)).
    + vm_compute; reflexivity.
    + vm_compute; reflexivity.
    + vm_compute; tauto.
    + vm_compute; reflexivity.
  - refine (proj1 (proj2 (H "/w/r/missing.go" (wellFormed_new _) _ _) _)).
    + vm_compute; reflexivity.
    + vm_compute; reflexivity.
    + vm_compute; reflexivity.
Defined.

(** C2. Relationship filter: a stored relationship is among the
    relationships of a returned context exactly when its source file or
    its target file is a member file of that context; hence a
    relationship from a member of one context to a member of another is
    held by these two contexts and by no third one, and the two differ
    when their service names differ. *)
Theorem relationship_filter w fuel dir st ctxs st' :
  wellFormed w st ->
  analyzeDirectory w fuel dir st = (Ok ctxs, st') ->
  (forall c rel, In c ctxs ->
     (In rel (relationships c) <->
      In rel (fileRelationships st') /\
      (In (sourceFile rel) (memberFiles c)
       \/ In (targetFile rel) (memberFiles c)))) /\
  (forall rel cA cB,
     In rel (fileRelationships st') -> In cA ctxs -> In cB ctxs ->
     In (sourceFile rel) (memberFiles cA) ->
     In (targetFile rel) (memberFiles cB) ->
     serviceName cA <> serviceName cB ->
     cA <> cB /\
     forall c, In c ctxs -> (In rel (relationships c) <-> c = cA \/ c = cB)).
Proof.
  intros Hwf Hrun.
  pose proof (analyzeDirectory_wf fuel dir Hwf) as Hwf'.
  rewrite Hrun in Hwf'. simpl in Hwf'.
  apply analyzeDirectory_returns in Hrun.
  destruct Hrun as (_ & _ & _ & _ & _ & _ & ->).
  split.
  - intros c rel Hc. now apply (relationships_of_context w st' Hwf' dir).
  - intros rel cA cB Hrel HA HB HsA HtB Hne. split; [congruence|].
    intros c Hc. rewrite (relationships_of_context w st' Hwf' dir c rel Hc). split.
    + intros [_ [Hs | Ht]].
      * left. now apply (context_unique w st' Hwf' dir c cA (sourceFile rel)).
      * right. now apply (context_unique w st' Hwf' dir c cB (targetFile rel)).
    + intros [-> | ->]; auto.
Qed.

Lemma relationship_filter_witness :
  sampleUserContext <> sampleDirContext /\
  In sampleExtendsEdge (relationships sampleUserContext) /\
  In sampleExtendsEdge (relationships sampleDirContext).
Proof.
  pose proof (relationship_filter sampleWorld 4 "/w/r" newAnalyzer
                                  sampleContexts sampleFinal
                                  (wellFormed_new _)) as H.
  assert (Hrun : analyzeDirectory sampleWorld 4 "/w/r" newAnalyzer
                 = (Ok sampleContexts, sampleFinal))
    by (vm_compute; reflexivity).
  destruct (H Hrun) as [_ Hpair].
  assert (HA : In sampleUserContext sampleContexts) by (vm_compute; tauto).
  assert (HB : In sampleDirContext sampleContexts) by (vm_compute; tauto).
  destruct (Hpair sampleExtendsEdge sampleUserContext sampleDirContext)
    as [Hne Hiff].
  - vm_compute; tauto.
  - exact HA.
  - exact HB.
  - vm_compute; tauto.
  - vm_compute; tauto.
  - vm_compute; discriminate.
  - split; [exact Hne|]. split.
    + apply (Hiff sampleUserContext HA). now left.
    + apply (Hiff sampleDirContext HB). now right.
Defined.

(** C10. Coverage: after a run that returned, the source file of every
    stored relationship is a key of the module table, so the relationship
    is among the relationships of a returned context, one that has the
    source file as a member. *)
Theorem stored_relationship_covered w fuel dir st ctxs st' rel :
  wellFormed w st ->
  analyzeDirectory w fuel dir st = (Ok ctxs, st') ->
  In rel (fileRelationships st') ->
  In (sourceFile rel) (JsMap.keys (codeModules st')) /\
  exists c, In c ctxs /\ In (sourceFile rel) (memberFiles c)
            /\ In rel (relationships c).
Proof.
  intros Hwf Hrun Hrel.
  pose proof (analyzeDirectory_wf fuel dir Hwf) as Hwf'.
  rewrite Hrun in Hwf'. simpl in Hwf'.
  apply analyzeDirectory_returns in Hrun.
  destruct Hrun as (_ & _ & _ & _ & _ & _ & ->).
  split.
  - now destruct (wf_edges Hwf' rel Hrel).
  - now apply (source_context w st' Hwf').
Qed.

Lemma stored_relationship_covered_witness :
  In "/w/r/a.go" (JsMap.keys (codeModules sampleFinal)) /\
  exists c, In c sampleContexts /\ In "/w/r/a.go" (memberFiles c)
            /\ In sampleImportEdge (relationships c).
Proof.
  apply (stored_relationship_covered sampleWorld 4 "/w/r" newAnalyzer
                                     sampleContexts sampleFinal
                                     sampleImportEdge).
  - apply wellFormed_new.
  - vm_compute; reflexivity.
  - vm_compute; tauto.
Defined.

(** ** The claims about the stored edges *)

Lemma classFile_none tbl className :
  (forall k m, In (k, m) tbl -> hasClass className m = false) ->
  classFile tbl className = None.
Proof.
  intros H. unfold classFile.
  destruct (find _ _) as [[k m]|] eqn:Hf; [|reflexivity].
  apply find_some in Hf. destruct Hf as [Hin Hc]. simpl in Hc.
  rewrite (H k m Hin) in Hc. discriminate.
Qed.

Lemma lookupAndPush_eq st source className type detail :
  lookupAndPush source className type detail st =
  pushIfResolved source (classFile (codeModules st) className) type detail st.
Proof. reflexivity. Qed.

Lemma edgeOf_target w tbl path rel : edgeOf w tbl path rel -> targetFile rel <> "".
Proof. now intros (_ & H & _). Qed.

(** C5 as the specification states it fails: the sample Go file imports
    a package outside the project; the import resolves to a file that is
    not in the module table, and an edge is pushed all the same. *)
Lemma unknown_import_pushed :
  ~ unknownReferenceDropped
      sampleParsed "/w/r/a.go" "../shared"
      (resolveGoImport sampleWorld "/w/r/a.go" "../shared").
Proof.
  intros H.
  assert (Hgrow :
            fileRelationships
              (snd (resolveAndPush
                      (resolveGoImport sampleWorld "/w/r/a.go" "../shared")
                      "/w/r/a.go" "../shared" sampleParsed))
            = fileRelationships sampleParsed).
  { apply H. intros t Ht Hin. vm_compute in Ht. injection Ht as <-.
    vm_compute in Hin.
    repeat (destruct Hin as [Hin | Hin]; [discriminate Hin|]). exact Hin. }
  vm_compute in Hgrow. discriminate Hgrow.
Qed.

(** C6 as the specification states it fails: the import of the sample Go
    file ends at a file that is not in the module table. *)
Lemma import_target_unknown : ~ targetsKnown sampleFinal.
Proof.
  intros H.
  assert (Hin : In sampleImportEdge (fileRelationships sampleFinal))
    by (vm_compute; tauto).
  apply H in Hin. vm_compute in Hin.
  repeat (destruct Hin as [Hin | Hin]; [discriminate Hin|]).
  exact Hin.
Qed.

(** What an import resolver returns lies on the disk: the Java and C#
    candidates exist, a Go target is a [.go] entry of an existing
    directory. *)
Lemma Ok_inj {A : Type} (a b : A) : Ok a = Ok b -> a = b.
Proof. now intros [= ->]. Qed.

Lemma firstExisting_exists w possiblePaths t :
  firstExisting w possiblePaths = Some t -> pathExists w t = true.
Proof.
  unfold firstExisting. intros H. now apply find_some in H.
Qed.

Lemma resolveJavaImport_exists w path importPath t :
  resolveJavaImport w path importPath = Ok (Some t) -> pathExists w t = true.
Proof.
  unfold resolveJavaImport, obind.
  destruct (findProjectRoot w path) as [[root|] | e | ]; try discriminate.
  destruct (Str.truthy root); [|discriminate].
  intros H. apply Ok_inj in H. now apply firstExisting_exists in H.
Qed.

Lemma resolveCSharpUsing_exists w path usingPath t :
  resolveCSharpUsing w path usingPath = Ok (Some t) -> pathExists w t = true.
Proof.
  unfold resolveCSharpUsing, obind.
  destruct (findProjectRoot w path) as [[root|] | e | ]; try discriminate.
  destruct (Str.truthy root); [|discriminate].
  intros H. apply Ok_inj in H. now apply firstExisting_exists in H.
Qed.

Lemma resolveGoImport_listed w path importPath t :
  resolveGoImport w path importPath = Ok (Some t) ->
  exists dir entries goFile,
    pathExists w dir = true /\ readdir w dir = Ok entries /\
    In goFile entries /\ Str.endsWith goFile ".go" = true /\
    t = Path.join [dir; goFile].
Proof.
  unfold resolveGoImport, obind.
  destruct (_ || _); [|discriminate].
  set (dir := Path.resolve _ _).
  destruct (pathExists w dir) eqn:Hex; [|discriminate].
  destruct (readdir w dir) as [entries | e | ] eqn:Hrd; try discriminate.
  destruct (find _ entries) as [goFile|] eqn:Hf; [|discriminate].
  intros [= <-]. apply find_some in Hf. destruct Hf as [Hin Hgo].
  now exists dir, entries, goFile.
Qed.

(** C8 as the specification states it fails: a second pass over the
    parsed sample project doubles the five edges of the first pass. *)
Lemma second_pass_duplicates : ~ extractionIdempotent sampleWorld sampleParsed.
Proof.
  unfold extractionIdempotent. intros H.
  apply Permutation_length in H. vm_compute in H. discriminate.
Qed.

(** C8, amended.  Over an unchanged world and module table a pass of
    relationship extraction has one outcome and one list of edges, which
    it appends to whatever the collection holds: two analyzers with the
    same table get the same edges, and a second pass on the same analyzer
    appends the edges of the first pass once more. *)
Theorem extraction_appends_same_edges w st :
  exists r E,
    (forall st', codeModules st' = codeModules st ->
                 analyzeFileRelationships w st' = (r, addRels st' E)) /\
    fileRelationships (snd (analyzeFileRelationships w st))
    = (fileRelationships st ++ E)%list /\
    fileRelationships
      (snd (analyzeFileRelationships w (snd (analyzeFileRelationships w st))))
    = (fileRelationships st ++ E ++ E)%list.
Proof.
  destruct (analyzeFileRelationships_emits w st) as (r & E & _ & Hrun).
  exists r, E. split; [exact Hrun|].
  rewrite (Hrun st eq_refl). cbn [snd].
  rewrite (Hrun (addRels st E) eq_refl). cbn [snd]. simpl.
  split; [reflexivity | now rewrite app_assoc].
Qed.

(** ** Failures *)


(** So does an entry of the root directory that cannot be stat'ed. *)
Lemma dangling_entry_rejects_run : ~ failureContained danglingWorld 4 "/w/r".
Proof.
  intros H. apply (H (fun e => ltac:(vm_compute; discriminate))
                     "ENOENT: /w/r/ghost.go").
  vm_compute. reflexivity.
Qed.




(** ** The dependency graph query *)

Lemma setAdd_in s x y : In y (setAdd s x) <-> y = x \/ In y s.
Proof.
  unfold setAdd. destruct (Str.mem x s) eqn:Hm.
  - apply mem_true_iff in Hm. split; [auto | intros [-> | H]; assumption].
  - rewrite in_app_iff. simpl. split.
    + intros [H | [<- | []]]; auto.
    + intros [-> | H]; auto.
Qed.

Lemma setAdd_NoDup s x : NoDup s -> NoDup (setAdd s x).
Proof.
  intros Hnd. unfold setAdd. destruct (Str.mem x s) eqn:Hm; [assumption|].
  apply NoDup_app; [assumption | repeat constructor; intros [] |].
  intros y Hy [<- | []].
  apply mem_true_iff in Hy. congruence.
Qed.

Lemma addEdge_eq name acc rel :
  addEdge name acc rel =
  if touchesService name rel
  then (setAdd (setAdd (fst acc) (Path.basename1 (sourceFile rel)))
               (Path.basename1 (targetFile rel)),
        (snd acc ++ [graphEdge rel])%list)
  else acc.
Proof. reflexivity. Qed.

Lemma fold_addEdge name rels acc :
  let r := fold_left (addEdge name) rels acc in
  snd r = (snd acc ++ map graphEdge (filter (touchesService name) rels))%list /\
  (NoDup (fst acc) -> NoDup (fst r)) /\
  (forall n, In n (fst r) <->
             In n (fst acc) \/
             exists rel, In rel (filter (touchesService name) rels) /\
                         (n = Path.basename1 (sourceFile rel)
                          \/ n = Path.basename1 (targetFile rel))).
Proof.
  revert acc. induction rels as [| rel rels IH]; intros acc.
  - simpl. split; [now rewrite app_nil_r|]. split; [auto|].
    intros n. split; [auto | intros [H | (rel & [] & _)]; assumption].
  - cbn [fold_left filter]. specialize (IH (addEdge name acc rel)).
    cbv zeta in IH |- *. rewrite addEdge_eq in IH |- *.
    destruct (touchesService name rel) eqn:Ht;
      destruct IH as (Hedges & Hnd & Hnodes); cbn [fst snd map] in *.
    + split; [|split].
      * rewrite Hedges. simpl. now rewrite <- app_assoc.
      * intros H. now apply Hnd, setAdd_NoDup, setAdd_NoDup.
      * intros n. rewrite Hnodes, !setAdd_in. simpl. split.
        -- intros [[-> | [-> | H]] | (r' & Hr' & Hn)]; eauto 6.
        -- intros [H | (r' & [<- | Hr'] & [Hn | Hn])]; eauto 6.
    + split; [|split]; try assumption.
Qed.


(** ** Categories *)






(** ** Strings *)

Lemma append_nil_r s : s ++ "" = s.
Proof. induction s as [| a s IH]; simpl; [reflexivity | now rewrite IH]. Qed.

Lemma append_assoc s1 s2 s3 : (s1 ++ s2) ++ s3 = s1 ++ (s2 ++ s3).
Proof. induction s1 as [| a s1 IH]; simpl; [reflexivity | now rewrite IH]. Qed.

Lemma length_append s1 s2 :
  String.length (s1 ++ s2) = String.length s1 + String.length s2.
Proof. induction s1 as [| a s1 IH]; simpl; [reflexivity | now rewrite IH]. Qed.

Lemma substring_prefix n v : substring 0 (String.length n) (n ++ v) = n.
Proof.
  induction n as [| a n IH]; simpl.
  - now destruct v.
  - now rewrite IH.
Qed.

Lemma consumed_append n v : Regex.consumed (n ++ v) v = n.
Proof.
  unfold Regex.consumed. rewrite length_append.
  replace (String.length n + String.length v - String.length v)
    with (String.length n) by lia.
  apply substring_prefix.
Qed.

Lemma append_inv_tail u v u' v' :
  u ++ v = u' ++ v' -> String.length v = String.length v' ->
  u = u' /\ v = v'.
Proof.
  revert u'. induction u as [| a u IH]; intros [| a' u'] Heq Hlen; simpl in *.
  - now split.
  - exfalso. apply (f_equal String.length) in Heq. simpl in Heq.
    rewrite length_append in Heq. lia.
  - exfalso. apply (f_equal String.length) in Heq. simpl in Heq.
    rewrite length_append in Heq. lia.
  - injection Heq as -> Heq. destruct (IH u' Heq Hlen) as [-> ->]. now split.
Qed.

Lemma allChars_append p s1 s2 :
  allChars p (s1 ++ s2) = allChars p s1 && allChars p s2.
Proof.
  induction s1 as [| a s1 IH]; simpl; [reflexivity|].
  now rewrite IH, andb_assoc.
Qed.

(** ** The suffix patterns *)

Section SuffixPattern.

Variable suffix : string.

Lemma run_lit_ci (R : Type) lit s c (k : string -> Regex.captures -> option R) :
  Regex.run (Regex.lit_ci lit) s c k =
  match ciStrip lit s with
  | Some rest => k rest c
  | None => None
  end.
Proof.
  revert s. induction lit as [| a lit IH]; intros s; simpl; [reflexivity|].
  destruct s as [| b s]; [reflexivity|].
  destruct (Str.ci_eqb a b); [apply IH | reflexivity].
Qed.

Lemma run_tail (R : Type) s c (k : string -> Regex.captures -> option R) :
  Regex.run (Regex.Seq (Regex.lit_ci suffix) Regex.Eol) s c k =
  if ciEqual s suffix then k "" c else None.
Proof.
  cbn [Regex.run]. rewrite run_lit_ci. unfold ciEqual.
  destruct (ciStrip suffix s) as [[| a rest]|]; reflexivity.
Qed.

Lemma star_any_loop (R : Type) (k : string -> Regex.captures -> option R) n :
  forall s c, String.length s <= n ->
    Regex.star_loop (@Regex.run R Regex.any) k n s c =
    greedy (fun v => k v c) s.
Proof.
  induction n as [| n IH]; intros s c Hlen.
  - destruct s; simpl in Hlen; [reflexivity | lia].
  - destruct s as [| a s']; [reflexivity|].
    cbn [Regex.star_loop Regex.run Regex.any greedy]. unfold notLineTerminator.
    destruct (negb (Str.is_line_terminator a)); [|reflexivity].
    replace (String.length s' <? String.length (String a s')) with true
      by (symmetry; apply Nat.ltb_lt; simpl; lia).
    rewrite IH by (simpl in Hlen; lia). reflexivity.
Qed.

Lemma greedy_ext (R : Type) (k k' : string -> option R) s :
  (forall v, k v = k' v) -> greedy k s = greedy k' s.
Proof.
  intros H. induction s as [| a s IH]; simpl; [apply H|].
  rewrite IH, H. reflexivity.
Qed.

Lemma greedy_map (R R' : Type) (f : R -> R') (k : string -> option R) s :
  greedy (fun v => option_map f (k v)) s = option_map f (greedy k s).
Proof.
  induction s as [| a s IH]; simpl; [reflexivity|].
  rewrite IH. destruct (notLineTerminator a); [|reflexivity].
  now destruct (greedy k s).
Qed.

Lemma run_suffixPattern s :
  Regex.run (suffixPattern suffix) s [] (fun s' c => Some (s', c)) =
  option_map (fun name => ("", [(1, name)])) (hereCapture suffix s).
Proof.
  unfold suffixPattern, Regex.plus, hereCapture.
  cbn [Regex.run]. destruct s as [| a s']; [reflexivity|].
  cbn [Regex.any Regex.run]. unfold notLineTerminator.
  destruct (negb (Str.is_line_terminator a)); [|reflexivity].
  rewrite star_any_loop by lia.
  rewrite <- greedy_map. apply greedy_ext. intros v.
  rewrite run_lit_ci. unfold ciEqual.
  destruct (ciStrip suffix v) as [[| b rest]|]; reflexivity.
Qed.

Lemma search_suffixPattern s : forall pos,
  option_map (Regex.group 1) (Regex.search (suffixPattern suffix) pos s) =
  firstCapture suffix s.
Proof.
  induction s as [| a s IH]; intros pos.
  - cbn [Regex.search firstCapture]. rewrite run_suffixPattern. reflexivity.
  - cbn [Regex.search firstCapture]. rewrite run_suffixPattern.
    destruct (hereCapture suffix (String a s)) as [name|]; [reflexivity|].
    apply IH.
Qed.

Lemma match_suffixPattern s :
  option_map (Regex.group 1) (Regex.match_ (suffixPattern suffix) s) =
  firstCapture suffix s.
Proof. apply search_suffixPattern. Qed.

End SuffixPattern.

(** ** What a suffix pattern captures *)

Lemma ciStrip_length suffix : forall s rest,
  ciStrip suffix s = Some rest ->
  String.length s = String.length suffix + String.length rest.
Proof.
  induction suffix as [| a suffix IH]; intros s rest; simpl.
  - now intros [= ->].
  - destruct s as [| b s]; [discriminate|].
    destruct (Str.ci_eqb a b); [|discriminate].
    intros H. simpl. now rewrite (IH _ _ H).
Qed.

Lemma ciEqual_length t suffix :
  ciEqual t suffix = true -> String.length t = String.length suffix.
Proof.
  unfold ciEqual. destruct (ciStrip suffix t) as [[| a rest]|] eqn:H;
    try discriminate.
  intros _. apply ciStrip_length in H. simpl in H. lia.
Qed.

Lemma greedy_sound (R : Type) (k : string -> option R) s x :
  greedy k s = Some x ->
  exists u v, s = u ++ v /\ allChars notLineTerminator u = true /\ k v = Some x.
Proof.
  induction s as [| a s IH]; simpl.
  - intros H. now exists "", "".
  - destruct (notLineTerminator a) eqn:Ha.
    + destruct (greedy k s) as [y|] eqn:Hg.
      * intros [= ->]. destruct (IH eq_refl) as (u & v & -> & Hu & Hk).
        exists (String a u), v. simpl. now rewrite Ha, Hu.
      * intros Hk. now exists "", (String a s).
    + intros Hk. now exists "", (String a s).
Qed.

Lemma greedy_at_least (R : Type) (k : string -> option R) v x :
  k v = Some x -> exists x', greedy k v = Some x'.
Proof.
  intros Hk. destruct v as [| a v]; simpl; [eauto|].
  destruct (notLineTerminator a); [|eauto].
  destruct (greedy k v); eauto.
Qed.

Lemma greedy_complete (R : Type) (k : string -> option R) u v x :
  allChars notLineTerminator u = true -> k v = Some x ->
  exists x', greedy k (u ++ v) = Some x'.
Proof.
  intros Hu Hk. induction u as [| a u IH]; simpl.
  - now apply greedy_at_least with x.
  - simpl in Hu. apply andb_true_iff in Hu. destruct Hu as [Ha Hu].
    rewrite Ha. destruct (IH Hu) as [x' ->]. eauto.
Qed.

Lemma hereCapture_spec suffix s n :
  hereCapture suffix s = Some n <->
  n <> "" /\ allChars notLineTerminator n = true /\
  exists t, s = n ++ t /\ ciEqual t suffix = true.
Proof.
  split.
  - destruct s as [| a s']; [discriminate|]. unfold hereCapture.
    destruct (notLineTerminator a) eqn:Ha; [|discriminate].
    intros H. apply greedy_sound in H. destruct H as (u & v & -> & Hu & Hk).
    destruct (ciEqual v suffix) eqn:Hv; [|discriminate].
    injection Hk as <-.
    change (String a (u ++ v)) with (String a u ++ v).
    rewrite consumed_append. split; [discriminate|].
    split; [simpl; now rewrite Ha, Hu|]. now exists v.
  - intros (Hne & Hn & t & -> & Ht).
    destruct n as [| a u]; [now elim Hne|].
    simpl in Hn. apply andb_true_iff in Hn. destruct Hn as [Ha Hu].
    unfold hereCapture. cbn [append]. rewrite Ha.
    set (k := fun v => if ciEqual v suffix
                       then Some (Regex.consumed (String a (u ++ t)) v)
                       else None).
    assert (Hk : k t = Some (String a u)).
    { unfold k. rewrite Ht.
      change (String a (u ++ t)) with (String a u ++ t).
      now rewrite consumed_append. }
    destruct (greedy_complete _ k u t _ Hu Hk) as [x' Hx'].
    rewrite Hx'. f_equal.
    apply greedy_sound in Hx'. destruct Hx' as (u' & v' & Heq & _ & Hk').
    unfold k in Hk'. destruct (ciEqual v' suffix) eqn:Hv'; [|discriminate].
    injection Hk' as <-.
    apply append_inv_tail in Heq.
    + destruct Heq as [_ <-].
      change (String a (u ++ t)) with (String a u ++ t).
      now rewrite consumed_append.
    + apply ciEqual_length in Ht. apply ciEqual_length in Hv'. congruence.
Qed.

Lemma firstCapture_eq suffix s :
  firstCapture suffix s =
  match hereCapture suffix s with
  | Some name => Some name
  | None =>
      match s with
      | String _ s' => firstCapture suffix s'
      | EmptyString => None
      end
  end.
Proof. now destruct s. Qed.

Lemma last_char_tail c pre' p' c0 :
  String c pre' = p' ++ String c0 "" ->
  pre' = "" \/ exists p'', pre' = p'' ++ String c0 "".
Proof.
  destruct p' as [| c1 p'']; simpl.
  - intros [= _ ->]. now left.
  - intros [= _ ->]. right. now exists p''.
Qed.

Lemma firstCapture_spec suffix s name :
  firstCapture suffix s = Some name <-> captured suffix s name.
Proof.
  split.
  - revert name. induction s as [| a s IH]; intros name.
    + discriminate.
    + rewrite firstCapture_eq.
      destruct (hereCapture suffix (String a s)) as [n|] eqn:Hhere.
      * intros [= ->]. apply hereCapture_spec in Hhere.
        destruct Hhere as (Hne & Hn & t & Hs & Ht).
        exists "", t. repeat split; auto.
      * intros H. destruct (IH _ H) as (pre & tail & -> & Ht & Hne & Hn & Hpre).
        exists (String a pre), tail. split; [reflexivity|].
        repeat split; auto. right.
        destruct Hpre as [-> | (pre' & c & -> & Hc)].
        -- exists "", a. split; [reflexivity|].
           destruct (Str.is_line_terminator a) eqn:Ha; [reflexivity|].
           exfalso.
           assert (Hext : hereCapture suffix (String a (name ++ tail))
                          = Some (String a name)).
           { apply hereCapture_spec. split; [discriminate|].
             split; [simpl; unfold notLineTerminator at 1; now rewrite Ha, Hn|].
             now exists tail. }
           change ("" ++ name ++ tail) with (name ++ tail) in Hhere.
           congruence.
        -- exists (String a pre'), c. now split.
  - intros (pre & tail & -> & Ht & Hne & Hn & Hpre).
    induction pre as [| c pre IH].
    + rewrite firstCapture_eq. simpl.
      assert (Hhere : hereCapture suffix (name ++ tail) = Some name).
      { apply hereCapture_spec. split; [assumption|]. split; [assumption|].
        now exists tail. }
      now rewrite Hhere.
    + destruct Hpre as [Hnil | (p' & c0 & Hp' & Hc0)]; [discriminate|].
      rewrite firstCapture_eq.
      destruct (hereCapture suffix (String c pre ++ name ++ tail)) as [n|] eqn:Hhere.
      * exfalso. apply hereCapture_spec in Hhere.
        destruct Hhere as (_ & Hall & t & Heq & Ht').
        rewrite <- append_assoc in Heq.
        apply append_inv_tail in Heq.
        2:{ apply ciEqual_length in Ht. apply ciEqual_length in Ht'. congruence. }
        destruct Heq as [<- _]. rewrite Hp' in Hall.
        rewrite !allChars_append in Hall. simpl in Hall.
        unfold notLineTerminator in Hall at 2. rewrite Hc0 in Hall.
        simpl in Hall. rewrite andb_false_r in Hall. discriminate.
      * simpl. apply IH.
        destruct (last_char_tail _ _ _ _ Hp') as [-> | (p'' & ->)].
        -- now left.
        -- right. now exists p'', c0.
Qed.

Lemma firstCapture_none suffix s :
  firstCapture suffix s = None <-> forall name, ~ captured suffix s name.
Proof.
  split.
  - intros Hnone name Hc. apply firstCapture_spec in Hc. congruence.
  - intros H. destruct (firstCapture suffix s) as [name|] eqn:Hf; [|reflexivity].
    apply firstCapture_spec in Hf. now elim (H name).
Qed.

(** ** Reversal, prefixes and the last component of a path *)

Lemma list_of_append a b :
  list_ascii_of_string (a ++ b) =
  (list_ascii_of_string a ++ list_ascii_of_string b)%list.
Proof. induction a as [| c a IH]; simpl; [reflexivity | now rewrite IH]. Qed.

Lemma string_of_app l1 l2 :
  string_of_list_ascii (l1 ++ l2) =
  string_of_list_ascii l1 ++ string_of_list_ascii l2.
Proof. induction l1 as [| c l1 IH]; simpl; [reflexivity | now rewrite IH]. Qed.

Lemma rev_append a b : Str.rev (a ++ b) = Str.rev b ++ Str.rev a.
Proof.
  unfold Str.rev. now rewrite list_of_append, rev_app_distr, string_of_app.
Qed.

Lemma rev_involutive s : Str.rev (Str.rev s) = s.
Proof.
  unfold Str.rev.
  now rewrite list_ascii_of_string_of_list_ascii, List.rev_involutive,
    string_of_list_ascii_of_string.
Qed.

Lemma rev_cons c s : Str.rev (String c s) = Str.rev s ++ String c "".
Proof. change (String c s) with (String c "" ++ s). apply rev_append. Qed.

Lemma length_string_of_list l :
  String.length (string_of_list_ascii l) = List.length l.
Proof. induction l as [| c l IH]; simpl; [reflexivity | now rewrite IH]. Qed.

Lemma length_list_of_string s :
  List.length (list_ascii_of_string s) = String.length s.
Proof. induction s as [| c s IH]; simpl; [reflexivity | now rewrite IH]. Qed.

Lemma length_rev s : String.length (Str.rev s) = String.length s.
Proof.
  unfold Str.rev.
  now rewrite length_string_of_list, length_rev, length_list_of_string.
Qed.

Lemma take_drop_while p s : Str.take_while p s ++ Str.drop_while p s = s.
Proof.
  induction s as [| c s IH]; simpl; [reflexivity|].
  destruct (p c); simpl; [now rewrite IH | reflexivity].
Qed.

Lemma drop_while_head p s c rest :
  Str.drop_while p s = String c rest -> p c = false.
Proof.
  induction s as [| d s IH]; simpl; [discriminate|].
  destruct (p d) eqn:Hd; [assumption|]. now intros [= <- _].
Qed.

Lemma length_take_while p s :
  String.length (Str.take_while p s) <= String.length s.
Proof.
  induction s as [| c s IH]; simpl; [lia|]. destruct (p c); simpl; lia.
Qed.

Lemma length_drop_while p s :
  String.length (Str.drop_while p s) <= String.length s.
Proof.
  induction s as [| c s IH]; simpl; [lia|]. destruct (p c); simpl; lia.
Qed.

Lemma prefix_append a b : String.prefix a (a ++ b) = true.
Proof.
  induction a as [| c a IH]; simpl.
  - now destruct b.
  - destruct (ascii_dec c c); [assumption | contradiction].
Qed.

Lemma length_last_component p :
  String.length (Path.last_component p) <= String.length p.
Proof.
  unfold Path.last_component. rewrite length_rev.
  etransitivity; [apply length_take_while|].
  etransitivity; [apply length_drop_while|].
  now rewrite length_rev.
Qed.

Lemma eqb_length_neq a b :
  String.length a <> String.length b -> String.eqb a b = false.
Proof. intros H. apply String.eqb_neq. intros ->. now elim H. Qed.

(** The extension is cut off the end of the base name. *)
Lemma basename_extname p :
  Path.basename p (Path.extname p) ++ Path.extname p = Path.basename1 p.
Proof.
  unfold Path.basename1, Path.extname.
  set (b := Path.last_component p).
  pose proof (take_drop_while Path.not_dot (Str.rev b)) as Hsplit.
  destruct (Str.drop_while Path.not_dot (Str.rev b)) as [| d before] eqn:Hdrop.
  { unfold Path.basename. simpl. apply append_nil_r. }
  destruct (Str.is_empty before) eqn:Hbefore.
  { unfold Path.basename. simpl. apply append_nil_r. }
  destruct (String.eqb b "..") eqn:Hdots.
  { unfold Path.basename. simpl. apply append_nil_r. }
  assert (Hd : d = Path.dot).
  { apply drop_while_head in Hdrop. unfold Path.not_dot in Hdrop.
    apply negb_false_iff, Ascii.eqb_eq in Hdrop. exact Hdrop. }
  subst d.
  set (after := Str.take_while Path.not_dot (Str.rev b)) in *.
  set (ext := String Path.dot (Str.rev after)).
  assert (Hb : b = Str.rev before ++ ext).
  { rewrite <- (rev_involutive b), <- Hsplit, rev_append, rev_cons.
    unfold ext. now rewrite append_assoc. }
  assert (Hlen : String.length before > 0).
  { destruct before; [discriminate | simpl; lia]. }
  assert (Hlb : String.length b = String.length before + String.length ext).
  { rewrite Hb, length_append, length_rev. reflexivity. }
  pose proof (length_last_component p) as Hlp. fold b in Hlp.
  unfold Path.basename. fold b.
  change (Str.is_empty ext) with false. cbn [orb].
  replace (String.length p <? String.length ext) with false
    by (symmetry; apply Nat.ltb_ge; lia).
  rewrite (eqb_length_neq ext p) by lia.
  assert (Hends : Str.endsWith b ext = true).
  { unfold Str.endsWith. rewrite Hb, rev_append. apply prefix_append. }
  rewrite Hends. rewrite (eqb_length_neq b ext) by lia.
  unfold Str.drop_end. rewrite Hlb.
  replace (String.length before + String.length ext - String.length ext)
    with (String.length (Str.rev before)) by (rewrite length_rev; lia).
  rewrite Hb at 1. rewrite substring_prefix. now rewrite <- Hb.
Qed.

(** The extension depends on the last component only. *)
Lemma extname_of_basename p q :
  Path.basename1 p = Path.basename1 q -> Path.extname p = Path.extname q.
Proof. unfold Path.basename1, Path.extname. now intros ->. Qed.

Lemma append_inv_head u u' v : u ++ v = u' ++ v -> u = u'.
Proof. intros H. now apply append_inv_tail in H. Qed.

(** The name of a file without its extension, from its base name *)
Lemma stem_of_basename p stem ext :
  Path.basename1 p = stem ++ ext ->
  Path.extname (stem ++ ext) = ext ->
  Path.basename1 (stem ++ ext) = stem ++ ext ->
  Path.basename p (Path.extname p) = stem.
Proof.
  intros Hbase Hext Hself.
  assert (He : Path.extname p = ext).
  { rewrite <- Hext. apply extname_of_basename. now rewrite Hself. }
  pose proof (basename_extname p) as H. rewrite He, Hbase in H.
  rewrite He. now apply append_inv_head in H.
Qed.

(** ** Service names *)

Lemma firstMatch_cons suffix sfx fileName :
  firstMatch (map suffixPattern (suffix :: sfx)) fileName =
  match firstCapture suffix fileName with
  | Some name => Some name
  | None => firstMatch (map suffixPattern sfx) fileName
  end.
Proof.
  cbn [map firstMatch]. rewrite <- match_suffixPattern.
  now destruct (Regex.match_ (suffixPattern suffix) fileName).
Qed.

Lemma firstMatch_at sfx fileName : forall i suffix name,
  nth_error sfx i = Some suffix ->
  captured suffix fileName name ->
  (forall j suffix' name', j < i -> nth_error sfx j = Some suffix' ->
                           ~ captured suffix' fileName name') ->
  firstMatch (map suffixPattern sfx) fileName = Some name.
Proof.
  induction sfx as [| s0 sfx IH]; intros i suffix name Hnth Hcap Hbefore.
  - now destruct i.
  - rewrite firstMatch_cons. destruct i as [| i]; simpl in Hnth.
    + injection Hnth as ->. apply firstCapture_spec in Hcap. now rewrite Hcap.
    + assert (Hnone : firstCapture s0 fileName = None).
      { apply firstCapture_none. intros name'.
        apply (Hbefore 0 s0 name'); [lia | reflexivity]. }
      rewrite Hnone. apply (IH i suffix name Hnth Hcap).
      intros j suffix' name' Hj Hnth'.
      apply (Hbefore (S j) suffix' name'); [lia | exact Hnth'].
Qed.

Lemma firstMatch_none sfx fileName :
  (forall suffix name, In suffix sfx -> ~ captured suffix fileName name) ->
  firstMatch (map suffixPattern sfx) fileName = None.
Proof.
  induction sfx as [| s0 sfx IH]; intros H; [reflexivity|].
  rewrite firstMatch_cons.
  assert (Hnone : firstCapture s0 fileName = None).
  { apply firstCapture_none. intros name. apply H. now left. }
  rewrite Hnone. apply IH. intros suffix name Hin. apply H. now right.
Qed.

(** The comparison of the matcher under the [i] flag is the comparison
    up to the case of letters of the specification. *)
Lemma smallLetter_canon c : smallLetter (Str.canon_char c) = smallLetter c.
Proof. destruct c as [[] [] [] [] [] [] [] []]; reflexivity. Qed.

Lemma canon_smallLetter c : Str.canon_char (smallLetter c) = Str.canon_char c.
Proof. destruct c as [[] [] [] [] [] [] [] []]; reflexivity. Qed.

Lemma ci_eqb_sameLetter a b : Str.ci_eqb a b = sameLetter b a.
Proof.
  unfold Str.ci_eqb, sameLetter.
  destruct (Ascii.eqb_spec (Str.canon_char a) (Str.canon_char b)) as [H | H];
    destruct (Ascii.eqb_spec (smallLetter b) (smallLetter a)) as [H' | H'];
    try reflexivity; exfalso.
  - apply H'. now rewrite <- (smallLetter_canon b), <- H, smallLetter_canon.
  - apply H. now rewrite <- (canon_smallLetter a), <- H', canon_smallLetter.
Qed.

Lemma ciEqual_equalIgnoringCase suffix : forall t,
  ciEqual t suffix = equalIgnoringCase t suffix.
Proof.
  induction suffix as [|a suffix IH]; intros t; unfold ciEqual in *.
  - now destruct t.
  - destruct t as [|b t]; [reflexivity|].
    cbn [ciStrip equalIgnoringCase]. rewrite ci_eqb_sameLetter.
    destruct (sameLetter b a); [apply IH | reflexivity].
Qed.

Lemma captured_ignoring_case suffix s name :
  captured suffix s name <-> capturedIgnoringCase suffix s name.
Proof.
  unfold captured, capturedIgnoringCase.
  split; intros (pre & tail & H); exists pre, tail;
    [rewrite <- ciEqual_equalIgnoringCase | rewrite ciEqual_equalIgnoringCase];
    exact H.
Qed.

(** C3. The service name of a path.  The file name is the base name with
    its extension cut off.  The suffix patterns (Controller, Service,
    Handler, Repository, Manager, Provider, Component, whatever the case
    of the letters) are tried in their order:
    when one captures a name in the file name and none before it does,
    that name is returned; when none captures anything, the name of the
    parent directory is returned, or [Root] when that name is the
    current-directory marker.  So [UserController.go] gives [User],
    [OrderService.java] gives [Order], [helpers.go] in a directory
    [utils] gives [utils], and [main.go] whose parent directory is the
    current-directory marker gives [Root]; the case of the suffix does
    not matter and the name keeps its own: [usercontroller.go] gives
    [user], [ORDERSERVICE.java] gives [ORDER] and [paymentHANDLER.go]
    gives [payment]. *)
Theorem service_name_extraction filePath :
  let fileName := Path.basename filePath (Path.extname filePath) in
  let dirName := Path.basename1 (Path.dirname filePath) in
  suffixes = ["Controller"; "Service"; "Handler"; "Repository"; "Manager";
              "Provider"; "Component"] /\
  fileName ++ Path.extname filePath = Path.basename1 filePath /\
  (forall i suffix name,
     nth_error suffixes i = Some suffix ->
     capturedIgnoringCase suffix fileName name ->
     (forall j suffix' name', j < i -> nth_error suffixes j = Some suffix' ->
                              ~ capturedIgnoringCase suffix' fileName name') ->
     extractServiceName filePath = name) /\
  ((forall suffix name, In suffix suffixes ->
                        ~ capturedIgnoringCase suffix fileName name) ->
   extractServiceName filePath
   = if String.eqb dirName "." then "Root" else dirName) /\
  (Path.basename1 filePath = "UserController.go" ->
   extractServiceName filePath = "User") /\
  (Path.basename1 filePath = "OrderService.java" ->
   extractServiceName filePath = "Order") /\
  (Path.basename1 filePath = "helpers.go" -> dirName = "utils" ->
   extractServiceName filePath = "utils") /\
  (Path.basename1 filePath = "main.go" -> dirName = "." ->
   extractServiceName filePath = "Root") /\
  (Path.basename1 filePath = "usercontroller.go" ->
   extractServiceName filePath = "user") /\
  (Path.basename1 filePath = "ORDERSERVICE.java" ->
   extractServiceName filePath = "ORDER") /\
  (Path.basename1 filePath = "paymentHANDLER.go" ->
   extractServiceName filePath = "payment").
Proof.
  cbv zeta.
  split; [reflexivity|].
  split; [apply basename_extname|].
  split; [|split; [|split; [|split; [|split; [|split; [|split; [|split]]]]]]].
  - intros i suffix name Hnth Hcap Hbefore. unfold extractServiceName, patterns.
    apply captured_ignoring_case in Hcap.
    assert (Hbefore' : forall j suffix' name',
              j < i -> nth_error suffixes j = Some suffix' ->
              ~ captured suffix' (Path.basename filePath (Path.extname filePath))
                         name').
    { intros j suffix' name' Hj Hn Hc. apply (Hbefore j suffix' name' Hj Hn).
      now apply captured_ignoring_case. }
    now rewrite (firstMatch_at _ _ i suffix name Hnth Hcap Hbefore').
  - intros Hnone. unfold extractServiceName, patterns.
    assert (Hnone' : forall suffix name,
              In suffix suffixes ->
              ~ captured suffix (Path.basename filePath (Path.extname filePath))
                         name).
    { intros suffix name Hin Hc. apply (Hnone suffix name Hin).
      now apply captured_ignoring_case. }
    now rewrite (firstMatch_none _ _ Hnone').
  - intros Hbase. unfold extractServiceName.
    rewrite (stem_of_basename filePath "UserController" ".go" Hbase);
      reflexivity.
  - intros Hbase. unfold extractServiceName.
    rewrite (stem_of_basename filePath "OrderService" ".java" Hbase);
      reflexivity.
  - intros Hbase Hdir. unfold extractServiceName.
    rewrite (stem_of_basename filePath "helpers" ".go" Hbase) by reflexivity.
    rewrite Hdir. reflexivity.
  - intros Hbase Hdir. unfold extractServiceName.
    rewrite (stem_of_basename filePath "main" ".go" Hbase) by reflexivity.
    rewrite Hdir. reflexivity.
  - intros Hbase. unfold extractServiceName.
    rewrite (stem_of_basename filePath "usercontroller" ".go" Hbase);
      reflexivity.
  - intros Hbase. unfold extractServiceName.
    rewrite (stem_of_basename filePath "ORDERSERVICE" ".java" Hbase);
      reflexivity.
  - intros Hbase. unfold extractServiceName.
    rewrite (stem_of_basename filePath "paymentHANDLER" ".go" Hbase);
      reflexivity.
Qed.

Lemma service_name_extraction_witness :
  extractServiceName "src/api/UserController.go" = "User" /\
  extractServiceName "OrderService.java" = "Order" /\
  extractServiceName "utils/helpers.go" = "utils" /\
  extractServiceName "main.go" = "Root" /\
  extractServiceName "src/api/usercontroller.go" = "user" /\
  extractServiceName "src/api/ORDERSERVICE.java" = "ORDER".
Proof.
  split; [|split; [|split; [|split; [|split]]]].
  - apply (proj1 (proj2 (proj2 (service_name_extraction
                                  "src/api/UserController.go")))
             0 "Controller" "User").
    + reflexivity.
    + exists "", "Controller". repeat split; try reflexivity.
      * discriminate.
      * now left.
    + intros j suffix' name' Hj. inversion Hj.
  - apply (service_name_extraction "OrderService.java"). reflexivity.
  - apply (proj1 (proj2 (proj2 (proj2 (service_name_extraction
                                         "utils/helpers.go"))))).
    intros suffix name Hin Hcap. apply captured_ignoring_case in Hcap.
    revert name Hcap. apply firstCapture_none.
    repeat (destruct Hin as [<- | Hin]; [reflexivity|]). destruct Hin.
  - apply (service_name_extraction "main.go"); reflexivity.
  - apply (proj1 (proj2 (proj2 (service_name_extraction
                                  "src/api/usercontroller.go")))
             0 "Controller" "user").
    + reflexivity.
    + exists "", "controller". repeat split; try reflexivity.
      * discriminate.
      * now left.
    + intros j suffix' name' Hj. inversion Hj.
  - apply (proj1 (proj2 (proj2 (service_name_extraction
                                  "src/api/ORDERSERVICE.java")))
             1 "Service" "ORDER").
    + reflexivity.
    + exists "", "SERVICE". repeat split; try reflexivity.
      * discriminate.
      * now left.
    + intros j suffix' name' Hj Hnth Hcap.
      assert (j = 0) by lia. subst j. cbn in Hnth. injection Hnth as <-.
      apply captured_ignoring_case in Hcap. revert name' Hcap.
      apply firstCapture_none. reflexivity.
Defined.

(** ** The loop of [findProjectRoot] is not cut by its bound *)

Lemma pathMeasure_le p : pathMeasure p <= String.length p + 1.
Proof.
  unfold pathMeasure.
  destruct (String.eqb p "." || String.eqb p "/"); [lia|].
  destruct (String.eqb p "//"); lia.
Qed.

Lemma pathMeasure_long p :
  p <> "." -> p <> "/" -> p <> "//" -> pathMeasure p = String.length p + 1.
Proof.
  intros H1 H2 H3. unfold pathMeasure.
  apply String.eqb_neq in H1, H2, H3. now rewrite H1, H2, H3.
Qed.

Lemma dirname_measure p :
  Path.dirname p <> p -> pathMeasure (Path.dirname p) < pathMeasure p.
Proof.
  destruct p as [| c0 rest]; [intros _; vm_compute; lia|].
  unfold Path.dirname.
  set (r1 := Str.drop_while Path.is_slash (Str.rev rest)).
  destruct (Str.drop_while Path.not_slash r1) as [| d r3] eqn:Hdrop.
  - intros Hne.
    assert (H0 : pathMeasure (if Path.is_slash c0 then "/" else ".") = 0)
      by (now destruct (Path.is_slash c0)).
    rewrite H0. unfold pathMeasure.
    destruct (String.eqb_spec (String c0 rest) ".") as [E | _].
    { exfalso. injection E as -> ->. now apply Hne. }
    destruct (String.eqb_spec (String c0 rest) "/") as [E | _].
    { exfalso. injection E as -> ->. now apply Hne. }
    cbn [orb]. destruct (String.eqb (String c0 rest) "//"); lia.
  - intros _.
    assert (Hlen : S (String.length r3) <= String.length rest).
    { change (S (String.length r3)) with (String.length (String d r3)).
      rewrite <- Hdrop.
      etransitivity; [apply length_drop_while|]. unfold r1.
      etransitivity; [apply length_drop_while|]. now rewrite length_rev. }
    assert (Hp : pathMeasure (String c0 rest) = String.length rest + 2).
    { rewrite pathMeasure_long; [simpl; lia | | |];
        intros E; injection E as -> ->; subst r1;
        vm_compute in Hdrop; discriminate. }
    rewrite Hp.
    destruct (Path.is_slash c0 && Str.is_empty r3).
    + change (pathMeasure "//") with 1. lia.
    + pose proof (pathMeasure_le (String c0 (Str.rev r3))) as Hle.
      cbn [String.length] in Hle. rewrite length_rev in Hle. lia.
Qed.

Lemma length_dirname p :
  String.length (Path.dirname p) <= String.length p + 1.
Proof.
  destruct p as [| c0 rest]; [simpl; lia|]. unfold Path.dirname.
  set (r1 := Str.drop_while Path.is_slash (Str.rev rest)).
  destruct (Str.drop_while Path.not_slash r1) as [| d r3] eqn:Hdrop.
  - destruct (Path.is_slash c0); simpl; lia.
  - assert (Hlen : S (String.length r3) <= String.length rest).
    { change (S (String.length r3)) with (String.length (String d r3)).
      rewrite <- Hdrop.
      etransitivity; [apply length_drop_while|]. unfold r1.
      etransitivity; [apply length_drop_while|]. now rewrite length_rev. }
    destruct (Path.is_slash c0 && Str.is_empty r3); simpl;
      [lia | rewrite length_rev; lia].
Qed.

(** More fuel than the measure of the path changes nothing. *)
Lemma findProjectRoot_loop_stable w fuel : forall currentPath,
  pathMeasure currentPath < fuel ->
  findProjectRoot_loop w (S fuel) currentPath
  = findProjectRoot_loop w fuel currentPath.
Proof.
  induction fuel as [| fuel IH]; intros currentPath Hm; [lia|].
  cbn [findProjectRoot_loop].
  destruct (String.eqb_spec currentPath (Path.dirname currentPath))
    as [_ | Hne]; [reflexivity|].
  destruct (anyMarker w currentPath possibleMarkers) as [[|] | e | ];
    try reflexivity.
  cbn [obind]. apply IH.
  assert (Hd : pathMeasure (Path.dirname currentPath) < pathMeasure currentPath)
    by (apply dirname_measure; congruence).
  lia.
Qed.

Lemma findProjectRoot_fuel w path extra :
  findProjectRoot_loop w (String.length path + 3 + extra) (Path.dirname path)
  = findProjectRoot w path.
Proof.
  unfold findProjectRoot. induction extra as [| extra IH].
  - now rewrite Nat.add_0_r.
  - rewrite Nat.add_succ_r, findProjectRoot_loop_stable; [exact IH|].
    pose proof (pathMeasure_le (Path.dirname path)).
    pose proof (length_dirname path). lia.
Qed.

(** ** The [exec] loops are not cut by their bound *)

Section RunFacts.

Variable R : Type.

Lemma star_loop_ext
      (step : string -> Regex.captures ->
              (string -> Regex.captures -> option R) -> option R)
      (k k' : string -> Regex.captures -> option R) n :
  (forall s c K K', (forall s1 c1, K s1 c1 = K' s1 c1) ->
                    step s c K = step s c K') ->
  (forall s c, k s c = k' s c) ->
  forall s c, Regex.star_loop step k n s c = Regex.star_loop step k' n s c.
Proof.
  intros Hstep Hk. induction n as [| n IH]; intros s c; cbn [Regex.star_loop].
  - apply Hk.
  - rewrite (Hstep s c _
               (fun s1 c1 => if String.length s1 <? String.length s
                             then Regex.star_loop step k' n s1 c1 else None)).
    + rewrite Hk. reflexivity.
    + intros s1 c1. destruct (String.length s1 <? String.length s);
        [apply IH | reflexivity].
Qed.

Lemma run_ext r : forall s c (k k' : string -> Regex.captures -> option R),
  (forall s1 c1, k s1 c1 = k' s1 c1) ->
  Regex.run r s c k = Regex.run r s c k'.
Proof.
  induction r as [p | | r1 IH1 r2 IH2 | r1 IH1 r2 IH2 | r1 IH1 | n r1 IH1 | ];
    intros s c k k' H; cbn [Regex.run].
  - destruct s as [| a s']; [reflexivity|]. destruct (p a); [apply H | reflexivity].
  - apply H.
  - apply IH1. intros s1 c1. now apply IH2.
  - rewrite (IH1 s c k k' H), (IH2 s c k k' H). reflexivity.
  - apply star_loop_ext; [|exact H]. intros s0 c0 K K' HK. now apply IH1.
  - apply IH1. intros s1 c1. apply H.
  - destruct (Str.is_empty s); [apply H | reflexivity].
Qed.

Lemma guard_weaker r s c (k : string -> Regex.captures -> option R) m :
  (forall k0 : string -> Regex.captures -> option R,
     Regex.run r s c k0 = Regex.run r s c (guard (minLength r) s k0)) ->
  m <= minLength r ->
  Regex.run r s c k = Regex.run r s c (guard m s k).
Proof.
  intros H Hm. rewrite (H k), (H (guard m s k)). apply run_ext.
  intros s1 c1. unfold guard.
  destruct (String.length s1 + minLength r <=? String.length s) eqn:E;
    [|reflexivity].
  apply Nat.leb_le in E.
  replace (String.length s1 + m <=? String.length s) with true
    by (symmetry; apply Nat.leb_le; lia).
  reflexivity.
Qed.

Lemma star_loop_shrinks
      (step : string -> Regex.captures ->
              (string -> Regex.captures -> option R) -> option R)
      (k : string -> Regex.captures -> option R) s0 n :
  (forall s c K K', (forall s1 c1, K s1 c1 = K' s1 c1) ->
                    step s c K = step s c K') ->
  forall s c, String.length s <= String.length s0 ->
    Regex.star_loop step k n s c = Regex.star_loop step (guard 0 s0 k) n s c.
Proof.
  intros Hstep. induction n as [| n IH]; intros s c Hlen;
    cbn [Regex.star_loop];
    assert (Hg : guard 0 s0 k s c = k s c)
      by (unfold guard;
          replace (String.length s + 0 <=? String.length s0) with true
            by (symmetry; apply Nat.leb_le; lia);
          reflexivity).
  - now rewrite Hg.
  - rewrite (Hstep s c _
               (fun s1 c1 => if String.length s1 <? String.length s
                             then Regex.star_loop step (guard 0 s0 k) n s1 c1
                             else None)).
    + now rewrite Hg.
    + intros s1 c1. destruct (String.length s1 <? String.length s) eqn:E;
        [|reflexivity].
      apply Nat.ltb_lt in E. apply IH. lia.
Qed.

(** A match of [r] consumes at least [minLength r] characters. *)
Lemma run_shrinks r : forall s c (k : string -> Regex.captures -> option R),
  Regex.run r s c k = Regex.run r s c (guard (minLength r) s k).
Proof.
  induction r as [p | | r1 IH1 r2 IH2 | r1 IH1 r2 IH2 | r1 IH1 | n r1 IH1 | ];
    intros s c k.
  - cbn [Regex.run minLength]. destruct s as [| a s']; [reflexivity|].
    destruct (p a); [|reflexivity]. unfold guard.
    replace (String.length s' + 1 <=? String.length (String a s')) with true
      by (symmetry; apply Nat.leb_le; simpl; lia).
    reflexivity.
  - cbn [Regex.run minLength]. unfold guard.
    replace (String.length s + 0 <=? String.length s) with true
      by (symmetry; apply Nat.leb_le; lia).
    reflexivity.
  - cbn [Regex.run minLength].
    rewrite (IH1 s c (fun s1 c1 => Regex.run r2 s1 c1 k)).
    rewrite (IH1 s c (fun s1 c1 => Regex.run r2 s1 c1 (guard _ s k))).
    apply run_ext. intros s1 c1. unfold guard at 1 2.
    destruct (String.length s1 + minLength r1 <=? String.length s) eqn:E1;
      [|reflexivity].
    apply Nat.leb_le in E1.
    rewrite (IH2 s1 c1 k), (IH2 s1 c1 (guard _ s k)).
    apply run_ext. intros s2 c2. unfold guard.
    destruct (String.length s2 + minLength r2 <=? String.length s1) eqn:E2;
      [|reflexivity].
    apply Nat.leb_le in E2.
    replace (String.length s2 + (minLength r1 + minLength r2)
             <=? String.length s) with true
      by (symmetry; apply Nat.leb_le; lia).
    reflexivity.
  - cbn [Regex.run minLength].
    rewrite <- (guard_weaker r1 s c k (Nat.min (minLength r1) (minLength r2)))
      by (auto; lia).
    rewrite <- (guard_weaker r2 s c k (Nat.min (minLength r1) (minLength r2)))
      by (auto; lia).
    reflexivity.
  - cbn [Regex.run minLength]. apply star_loop_shrinks; [|lia].
    intros s0 c0 K K' HK. now apply run_ext.
  - cbn [Regex.run minLength].
    rewrite (IH1 s c (fun s1 c1 => k s1 _)).
    rewrite (IH1 s c (fun s1 c1 => guard _ s k s1 _)).
    apply run_ext. intros s1 c1. unfold guard.
    now destruct (String.length s1 + minLength r1 <=? String.length s).
  - cbn [Regex.run minLength]. unfold guard.
    replace (String.length s + 0 <=? String.length s) with true
      by (symmetry; apply Nat.leb_le; lia).
    reflexivity.
Qed.

Lemma star_loop_from_k
      (step : string -> Regex.captures ->
              (string -> Regex.captures -> option R) -> option R)
      (k : string -> Regex.captures -> option R) n x :
  (forall s c K, step s c K = Some x -> exists s' c', K s' c' = Some x) ->
  forall s c, Regex.star_loop step k n s c = Some x ->
              exists s' c', k s' c' = Some x.
Proof.
  intros Hstep. induction n as [| n IH]; intros s c; cbn [Regex.star_loop].
  - eauto.
  - destruct (step s c _) as [y|] eqn:Hs.
    + intros [= ->]. apply Hstep in Hs. destruct Hs as (s1 & c1 & H1).
      destruct (String.length s1 <? String.length s); [eauto | discriminate].
    + eauto.
Qed.

(** A result of the matcher is a result of its continuation. *)
Lemma run_from_k r : forall s c (k : string -> Regex.captures -> option R) x,
  Regex.run r s c k = Some x -> exists s' c', k s' c' = Some x.
Proof.
  induction r as [p | | r1 IH1 r2 IH2 | r1 IH1 r2 IH2 | r1 IH1 | n r1 IH1 | ];
    intros s c k x; cbn [Regex.run].
  - destruct s as [| a s']; [discriminate|].
    destruct (p a); [eauto | discriminate].
  - eauto.
  - intros H. apply IH1 in H. destruct H as (s1 & c1 & H). now apply IH2 in H.
  - destruct (Regex.run r1 s c k) as [y|] eqn:H1.
    + intros [= ->]. now apply IH1 in H1.
    + apply IH2.
  - apply star_loop_from_k. intros s0 c0 K. apply IH1.
  - intros H. apply IH1 in H. destruct H as (s1 & c1 & H). eauto.
  - destruct (Str.is_empty s); [eauto | discriminate].
Qed.

End RunFacts.

Lemma search_shrinks r : forall s pos m,
  Regex.search r pos s = Some m ->
  String.length (Regex.after m) + minLength r <= String.length s.
Proof.
  induction s as [| a s IH]; intros pos m; cbn [Regex.search];
    rewrite run_shrinks;
    destruct (Regex.run r _ [] _) as [[s' c]|] eqn:Hrun.
  - intros [= <-]. apply run_from_k in Hrun. destruct Hrun as (s1 & c1 & H).
    unfold guard in H.
    destruct (String.length s1 + minLength r <=? String.length "") eqn:E;
      [|discriminate].
    injection H as <- _. now apply Nat.leb_le in E.
  - discriminate.
  - intros [= <-]. apply run_from_k in Hrun. destruct Hrun as (s1 & c1 & H).
    unfold guard in H.
    destruct (String.length s1 + minLength r <=? String.length (String a s))
             eqn:E; [|discriminate].
    injection H as <- _. now apply Nat.leb_le in E.
  - intros H. apply IH in H. simpl. lia.
Qed.

(** For a pattern that cannot match the empty string, every turn of the
    loop moves on, and more fuel than the length of the input changes
    nothing. *)
Lemma exec_loop_stable r :
  1 <= minLength r ->
  forall fuel s, String.length s < fuel ->
    Regex.exec_loop (S fuel) r s = Regex.exec_loop fuel r s.
Proof.
  intros Hmin. induction fuel as [| fuel IH]; intros s Hlen; [lia|].
  cbn [Regex.exec_loop].
  destruct (Regex.search r 0 s) as [m|] eqn:Hs; [|reflexivity].
  apply search_shrinks in Hs. f_equal.
  destruct (String.length (Regex.after m) <? String.length s); [|reflexivity].
  apply IH. lia.
Qed.

Lemma exec_loop_moves_on r s m fuel :
  1 <= minLength r -> Regex.search r 0 s = Some m ->
  Regex.exec_loop (S fuel) r s = m :: Regex.exec_loop fuel r (Regex.after m).
Proof.
  intros Hmin Hs. cbn [Regex.exec_loop]. rewrite Hs.
  apply search_shrinks in Hs.
  replace (String.length (Regex.after m) <? String.length s) with true
    by (symmetry; apply Nat.ltb_lt; lia).
  reflexivity.
Qed.

Lemma exec_all_fuel r s extra :
  1 <= minLength r ->
  Regex.exec_loop (S (String.length s) + extra) r s = Regex.exec_all r s.
Proof.
  intros Hmin. unfold Regex.exec_all. induction extra as [| extra IH].
  - now rewrite Nat.add_0_r.
  - rewrite Nat.add_succ_r, exec_loop_stable; [exact IH | exact Hmin | lia].
Qed.

Lemma loopPatterns_consume : Forall (fun r => 1 <= minLength r) loopPatterns.
Proof. repeat constructor; vm_compute; lia. Qed.

(** * Further properties of the analyzer, of the parsers and of their callers *)

(** ** The analyzer across runs *)

Lemma parseOne_keys w path st :
  exists added,
    JsMap.keys (codeModules (snd (parseOne w path st)))
    = (JsMap.keys (codeModules st) ++ added)%list.
Proof.
  unfold parseOne, bind, lift.
  destruct (parseFile w path) as [[m|]|e|]; unfold setModule, ret; cbn [snd codeModules].
  - rewrite keys_set. destruct (JsMap.has path (codeModules st)).
    + exists []. now rewrite app_nil_r.
    + now exists [path].
  - exists []. now rewrite app_nil_r.
  - exists []. now rewrite app_nil_r.
  - exists []. now rewrite app_nil_r.
Qed.

Lemma parseLoop_keys w files : forall st,
  exists added,
    JsMap.keys (codeModules (snd (forEach files (parseOne w) st)))
    = (JsMap.keys (codeModules st) ++ added)%list.
Proof.
  induction files as [|f files IH]; intros st.
  - exists []. cbn. now rewrite app_nil_r.
  - cbn [forEach]. unfold bind at 1.
    destruct (parseOne_keys w f st) as [a1 H1].
    destruct (parseOne w f st) as [[[]|e|] st1]; cbn [snd] in *.
    + destruct (IH st1) as [a2 H2]. exists (a1 ++ a2)%list.
      now rewrite H2, H1, app_assoc.
    + now exists a1.
    + now exists a1.
Qed.

Lemma analyzeDirectory_state w fuel dir st :
  (exists added,
     JsMap.keys (codeModules (snd (analyzeDirectory w fuel dir st)))
     = (JsMap.keys (codeModules st) ++ added)%list) /\
  (exists E,
     fileRelationships (snd (analyzeDirectory w fuel dir st))
     = (fileRelationships st ++ E)%list) /\
  crossReferences (snd (analyzeDirectory w fuel dir st)) = crossReferences st.
Proof.
  rewrite analyzeDirectory_eq, parseAllFiles_eq.
  assert (Hnil : forall l : list FileRelationship, exists E, l = (l ++ E)%list)
    by (intros l; exists []; now rewrite app_nil_r).
  assert (Hk : forall l : list string, exists E, l = (l ++ E)%list)
    by (intros l; exists []; now rewrite app_nil_r).
  destruct (findAllSupportedFiles w fuel dir) as [files|e|]; cbn [snd]; auto.
  destruct (parseLoop_keys w files st) as [added Hadded].
  destruct (parseLoop_state w files st) as (Hr & Hc & _).
  destruct (forEach files (parseOne w) st) as [r1 st1]; cbn [snd fst] in *.
  destruct (analyzeFileRelationships_emits w st1) as (r & E & _ & HE).
  specialize (HE st1 eq_refl).
  assert (Hst2 : forall st2, st2 = addRels st1 E ->
            (exists added0, JsMap.keys (codeModules st2)
                            = (JsMap.keys (codeModules st) ++ added0)%list) /\
            (exists E0, fileRelationships st2 = (fileRelationships st ++ E0)%list) /\
            crossReferences st2 = crossReferences st).
  { intros st2 ->. cbn. rewrite Hr, Hc. repeat split; eauto. }
  destruct r1 as [[]|e|]; cbn [snd].
  - rewrite HE. destruct r as [[]|e|]; cbn [snd]; now apply Hst2.
  - rewrite Hr, Hc. repeat split; eauto.
  - rewrite Hr, Hc. repeat split; eauto.
Qed.

Lemma occurrences_app path l1 l2 :
  occurrences path (l1 ++ l2) = occurrences path l1 + occurrences path l2.
Proof.
  unfold occurrences. rewrite map_app, list_sum_app. reflexivity.
Qed.

Lemma analyzeSourceDirectories_state w fuel dirs : forall acc st,
  crossReferences (snd (analyzeSourceDirectories w fuel dirs acc st))
  = crossReferences st /\
  (wellFormed w st ->
   wellFormed w (snd (analyzeSourceDirectories w fuel dirs acc st))).
Proof.
  induction dirs as [|d dirs IH]; intros acc st; [now split|].
  cbn [analyzeSourceDirectories]. unfold bind at 1. unfold bind at 1.
  destruct (analyzeDirectory_state w fuel d st) as (_ & _ & Hc).
  pose proof (@analyzeDirectory_wf w fuel d st) as Hwf.
  destruct (analyzeDirectory w fuel d st) as [[ctxs|e|] st1]; cbn [snd] in *;
    try (split; [exact Hc | exact Hwf]).
  destruct (IH (acc ++ ctxs)%list st1) as [IHc IHw].
  split; [now rewrite IHc | auto].
Qed.

Lemma analyzeSourceDirectories_occurrences w fuel path dirs :
  forall acc st all st',
    wellFormed w st -> In path (JsMap.keys (codeModules st)) ->
    analyzeSourceDirectories w fuel dirs acc st = (Ok all, st') ->
    occurrences path all = occurrences path acc + List.length dirs.
Proof.
  induction dirs as [|d dirs IH]; intros acc st all st' Hwf Hin Hrun.
  - cbn in Hrun. injection Hrun as <- _. cbn. lia.
  - cbn [analyzeSourceDirectories] in Hrun. unfold bind at 1 in Hrun.
    destruct (analyzeDirectory_state w fuel d st) as ([added Hk] & _ & _).
    pose proof (@analyzeDirectory_wf w fuel d st Hwf) as Hwf1.
    destruct (analyzeDirectory w fuel d st) as [[ctxs|e|] st1] eqn:Hd;
      cbn [snd] in *; try discriminate.
    apply analyzeDirectory_returns in Hd.
    destruct Hd as (files & st0 & _ & _ & _ & _ & ->).
    assert (Hin1 : In path (JsMap.keys (codeModules st1)))
      by (rewrite Hk; apply in_or_app; now left).
    rewrite (IH _ _ _ _ Hwf1 Hin1 Hrun), occurrences_app.
    rewrite (@occurrences_contextsOf w st1 Hwf1 d path).
    apply has_true_iff in Hin1. rewrite Hin1. cbn [List.length]. lia.
Qed.

(** X1. A run of [analyzeDirectory] only adds to the analyzer, whatever
    its outcome: the keys the module table had keep their places and new
    keys follow them, the relationships stored before are a prefix of
    the ones stored after, and the cross references are untouched. *)
Theorem run_only_appends w fuel dir st :
  (exists added,
     JsMap.keys (codeModules (snd (analyzeDirectory w fuel dir st)))
     = (JsMap.keys (codeModules st) ++ added)%list) /\
  (exists E,
     fileRelationships (snd (analyzeDirectory w fuel dir st))
     = (fileRelationships st ++ E)%list) /\
  crossReferences (snd (analyzeDirectory w fuel dir st)) = crossReferences st.
Proof. exact (analyzeDirectory_state w fuel dir st). Qed.

(** X2. The cross references are never populated: after the analysis
    loop of the pipeline over any source directories, started on a new
    analyzer, [getCrossReferences] returns the empty list. *)
Theorem cross_references_stay_empty w fuel dirs :
  fst (getCrossReferences
         (snd (analyzeSourceDirectories w fuel dirs [] newAnalyzer)))
  = Ok [].
Proof.
  unfold getCrossReferences, gets. cbn [fst]. f_equal.
  now rewrite (proj1 (analyzeSourceDirectories_state w fuel dirs [] newAnalyzer)).
Qed.

(** X3. The analysis loop of the pipeline reuses one analyzer, so a file
    parsed from the first source directory is placed again by the run of
    every later directory: in the contexts the loop collects it occurs
    once per source directory. *)
Theorem contexts_repeat_per_directory w fuel dir dirs st all st' files path m :
  wellFormed w st ->
  analyzeSourceDirectories w fuel (dir :: dirs) [] st = (Ok all, st') ->
  findAllSupportedFiles w fuel dir = Ok files ->
  In path files ->
  parseFile w path = Ok (Some m) ->
  occurrences path all = S (List.length dirs).
Proof.
  intros Hwf Hrun Hfiles Hin Hparse.
  cbn [analyzeSourceDirectories] in Hrun. unfold bind at 1 in Hrun.
  pose proof (@analyzeDirectory_wf w fuel dir st Hwf) as Hwf1.
  destruct (analyzeDirectory w fuel dir st) as [[ctxs|e|] st1] eqn:Hd;
    cbn [snd] in *; try discriminate.
  apply analyzeDirectory_returns in Hd.
  destruct Hd as (files' & st0 & Hf' & Hloop & _ & Htbl & ->).
  rewrite Hfiles in Hf'. apply Ok_inj in Hf'. subst files'.
  destruct (parseLoop_state w files st) as (_ & _ & _ & _ & _ & Hall & _).
  rewrite Hloop in Hall. cbn [fst snd] in Hall.
  specialize (Hall eq_refl Hwf path m Hin Hparse).
  assert (Hin1 : In path (JsMap.keys (codeModules st1))).
  { rewrite Htbl. now apply entry_in_keys with m. }
  rewrite (analyzeSourceDirectories_occurrences w fuel path dirs _ _ _ _
             Hwf1 Hin1 Hrun).
  cbn [app]. rewrite (@occurrences_contextsOf w st1 Hwf1 dir path).
  apply has_true_iff in Hin1. rewrite Hin1. lia.
Qed.

Lemma contexts_repeat_per_directory_witness :
  occurrences "/w/r/User.java"
    (match fst sampleLoop with Ok all => all | _ => [] end) = 2.
Proof.
  refine (contexts_repeat_per_directory
            sampleWorld 4 "/w/r" ["/w/r"] newAnalyzer _ (snd sampleLoop)
            sampleFound "/w/r/User.java"
            (match parseFile sampleWorld "/w/r/User.java" with
             | Ok (Some m) => m
             | _ => {| filePath := ""; language := go; endpoints := [];
                       classes := []; functions := []; lastModified := 0 |}
             end)
            (wellFormed_new _) _ _ _ _).
  - vm_compute; reflexivity.
  - vm_compute; reflexivity.
  - vm_compute; tauto.
  - vm_compute; reflexivity.
Defined.

(** ** The contexts of a run, by name *)

Lemma distinct_ext l : forall s1 s2,
  (forall y, In y s1 <-> In y s2) -> distinct s1 l = distinct s2 l.
Proof.
  induction l as [|x l IH]; intros s1 s2 H; [reflexivity|]. cbn [distinct].
  assert (Hm : Str.mem x s1 = Str.mem x s2).
  { destruct (Str.mem x s1) eqn:E1, (Str.mem x s2) eqn:E2; try reflexivity.
    - apply mem_true_iff, H, mem_true_iff in E1. congruence.
    - apply mem_true_iff, H, mem_true_iff in E2. congruence. }
  rewrite Hm. destruct (Str.mem x s2); [now apply IH|].
  f_equal. apply IH. intros y. cbn [In]. now rewrite H.
Qed.

Lemma distinct_in l : forall seen x, In x (distinct seen l) -> In x l.
Proof.
  induction l as [|y l IH]; intros seen x H; [destruct H|]. cbn [distinct] in H.
  destruct (Str.mem y seen).
  - right. now apply IH with seen.
  - destruct H as [<- | H]; [now left | right; now apply IH with (y :: seen)].
Qed.

Lemma keys_addToGroup groups path :
  JsMap.keys (addToGroup groups path) =
  (JsMap.keys groups
   ++ distinct (JsMap.keys groups) [extractServiceName path])%list.
Proof.
  unfold addToGroup. cbn [distinct].
  destruct (JsMap.has (extractServiceName path) groups) eqn:Hhas; cbn [negb].
  - assert (Hm : Str.mem (extractServiceName path) (JsMap.keys groups) = true)
      by (apply mem_true_iff, has_true_iff; exact Hhas).
    rewrite Hm, app_nil_r.
    destruct (JsMap.get (extractServiceName path) groups); [|reflexivity].
    now rewrite keys_set, Hhas.
  - assert (Hm : Str.mem (extractServiceName path) (JsMap.keys groups) = false).
    { destruct (Str.mem _ _) eqn:E; [|reflexivity].
      apply mem_true_iff, has_true_iff in E. congruence. }
    rewrite Hm, get_set_same, keys_set.
    assert (Hh : JsMap.has (extractServiceName path)
                   (JsMap.set (extractServiceName path) [] groups) = true).
    { unfold JsMap.has. now rewrite get_set_same. }
    now rewrite Hh, keys_set, Hhas.
Qed.

Lemma keys_fold_addToGroup l : forall groups,
  JsMap.keys (fold_left addToGroup l groups) =
  (JsMap.keys groups
   ++ distinct (JsMap.keys groups) (map extractServiceName l))%list.
Proof.
  induction l as [|p l IH]; intros groups; cbn [fold_left map distinct].
  - now rewrite app_nil_r.
  - rewrite IH, keys_addToGroup. cbn [distinct].
    destruct (Str.mem (extractServiceName p) (JsMap.keys groups)) eqn:Hm.
    + now rewrite app_nil_r.
    + rewrite <- app_assoc. cbn [app]. do 2 f_equal. apply distinct_ext.
      intros y. rewrite in_app_iff. cbn [In]. tauto.
Qed.

Lemma rootPath_placeModule fileType m c :
  rootPath (placeModule fileType m c) = rootPath c.
Proof.
  destruct c. unfold placeModule.
  repeat match goal with
         | |- context [String.eqb fileType ?k] =>
             destruct (String.eqb fileType k)
         end; reflexivity.
Qed.

Lemma rootPath_createServiceContext st name root files :
  rootPath (createServiceContext st name root files) = root.
Proof.
  unfold createServiceContext.
  assert (H : forall c, rootPath (fold_left (addFile st) files c) = rootPath c).
  { induction files as [|f files IH]; intros c; [reflexivity|].
    cbn [fold_left]. rewrite IH. unfold addFile.
    destruct (JsMap.get f (codeModules st)); [apply rootPath_placeModule|reflexivity]. }
  specialize (H (emptyContext name root)).
  destruct (fold_left (addFile st) files (emptyContext name root)).
  exact H.
Qed.

(** X4. The contexts of a run are the groups of the module table by
    service name: their names are the distinct service names of the
    stored files in the order of first occurrence, every context has the
    analyzed directory as root path and at least one member file, and
    its member files are exactly the stored files with its name.  So no
    catch-all context is ever built. *)
Theorem contexts_by_service_name w fuel dir st ctxs st' :
  wellFormed w st ->
  analyzeDirectory w fuel dir st = (Ok ctxs, st') ->
  map serviceName ctxs
  = distinct [] (map extractServiceName (JsMap.keys (codeModules st'))) /\
  NoDup (map serviceName ctxs) /\
  forall c, In c ctxs ->
    rootPath c = dir /\
    memberFiles c <> [] /\
    forall f, In f (memberFiles c) <->
              In f (JsMap.keys (codeModules st')) /\
              extractServiceName f = serviceName c.
Proof.
  intros Hwf Hrun.
  pose proof (@analyzeDirectory_wf w fuel dir st Hwf) as Hwf'.
  rewrite Hrun in Hwf'. cbn [snd] in Hwf'.
  apply analyzeDirectory_returns in Hrun.
  destruct Hrun as (files & st1 & _ & _ & _ & _ & ->).
  rewrite contextsOf_groups.
  assert (Hnames : map serviceName
                     (map (contextOfGroup st' dir) (groupFilesByService st'))
                   = JsMap.keys (groupFilesByService st')).
  { unfold JsMap.keys. rewrite map_map. apply map_ext. intros g.
    apply serviceName_createServiceContext. }
  assert (Hkeys : JsMap.keys (groupFilesByService st')
                  = distinct [] (map extractServiceName
                                     (JsMap.keys (codeModules st'))))
    by (unfold groupFilesByService; now rewrite keys_fold_addToGroup).
  destruct (groupFilesByService_inv st') as [Hnd Hfiles _].
  split; [now rewrite Hnames|].
  split; [now rewrite Hnames|].
  intros c Hc. apply in_map_iff in Hc. destruct Hc as ([name fs] & <- & Hg).
  split; [apply rootPath_createServiceContext|].
  assert (Hmem : forall f,
            In f (memberFiles (contextOfGroup st' dir (name, fs))) <->
            In f (JsMap.keys (codeModules st')) /\ extractServiceName f = name).
  { intros f. rewrite (@memberFiles_group w st' Hwf' dir name fs f Hg).
    apply group_member. exact Hg. }
  split.
  - assert (Hn : In name (map extractServiceName (JsMap.keys (codeModules st')))).
    { apply distinct_in with []. rewrite <- Hkeys.
      now apply entry_in_keys with fs. }
    apply in_map_iff in Hn. destruct Hn as (f & Hf & Hin).
    intros Hnil. assert (Hx := proj2 (Hmem f) (conj Hin Hf)).
    rewrite Hnil in Hx. destruct Hx.
  - intros f. rewrite Hmem. unfold contextOfGroup. cbn [fst snd].
    now rewrite serviceName_createServiceContext.
Qed.

Lemma sampleFinal_wf : wellFormed sampleWorld sampleFinal.
Proof.
  pose proof (@analyzeDirectory_wf sampleWorld 4 "/w/r" newAnalyzer
                (wellFormed_new _)) as H.
  rewrite (proj2 sample_run) in H. exact H.
Qed.

Lemma contexts_by_service_name_witness :
  map serviceName sampleContexts = ["r"; "User"].
Proof.
  refine (eq_trans
            (proj1 (contexts_by_service_name
                      sampleWorld 4 "/w/r" newAnalyzer sampleContexts
                      sampleFinal (wellFormed_new _) _)) _).
  - vm_compute; reflexivity.
  - vm_compute; reflexivity.
Defined.

(** ** The buckets of a context *)

Lemma flat_map_snoc {A B : Type} (f : A -> list B) l x :
  flat_map f (l ++ [x]) = (flat_map f l ++ f x)%list.
Proof. rewrite flat_map_app. cbn. now rewrite app_nil_r. Qed.

Lemma derived_placeModule fileType m c :
  derivedFromBuckets c -> derivedFromBuckets (placeModule fileType m c).
Proof.
  destruct c. unfold derivedFromBuckets, placeModule. cbn.
  intros (H1 & H2 & H3).
  repeat match goal with
         | |- context [String.eqb fileType ?k] =>
             destruct (String.eqb fileType k)
         end; cbn; rewrite ?flat_map_snoc; repeat split; congruence.
Qed.

Lemma derived_setRelationships rels c :
  derivedFromBuckets c -> derivedFromBuckets (setRelationships rels c).
Proof. destruct c. exact (fun H => H). Qed.

(** X5. In a context that [createServiceContext] builds, the endpoint
    list is the concatenation of the endpoints of its controllers, the
    business logic that of the classes of its services, and the data
    models that of the classes of its models, each in bucket order. *)
Theorem derived_lists_follow_buckets st name root files :
  apiEndpoints (createServiceContext st name root files)
  = flat_map endpoints (controllers (createServiceContext st name root files)) /\
  businessLogic (createServiceContext st name root files)
  = flat_map classes (services (createServiceContext st name root files)) /\
  dataModels (createServiceContext st name root files)
  = flat_map classes (models (createServiceContext st name root files)).
Proof.
  change (derivedFromBuckets (createServiceContext st name root files)).
  unfold createServiceContext. apply derived_setRelationships.
  assert (H : forall c, derivedFromBuckets c ->
                        derivedFromBuckets (fold_left (addFile st) files c)).
  { induction files as [|f files IH]; intros c Hc; [exact Hc|].
    cbn [fold_left]. apply IH. unfold addFile.
    destruct (JsMap.get f (codeModules st)); [now apply derived_placeModule|exact Hc]. }
  apply H. repeat split.
Qed.

Lemma bucket_placeModule label fileType m c :
  bucket label (placeModule fileType m c) =
  (bucket label c
   ++ if String.eqb label (bucketLabel fileType) then [m] else [])%list.
Proof.
  destruct c. unfold placeModule, bucketLabel, Str.mem. cbn [existsb].
  repeat match goal with
         | |- context [String.eqb fileType ?k] =>
             let E := fresh "E" in
             destruct (String.eqb fileType k) eqn:E;
             [apply String.eqb_eq in E; subst fileType|]
         end; cbn [orb]; unfold bucket; cbn;
  repeat match goal with
         | |- context [String.eqb label ?k] =>
             let E := fresh "E" in
             destruct (String.eqb label k) eqn:E;
             [apply String.eqb_eq in E; subst label|]
         end; cbn; rewrite ?app_nil_r; try reflexivity; try discriminate.
Qed.

Lemma categorizeFile_range p :
  In (categorizeFile p)
     ["controller"; "service"; "model"; "repository"; "config"; "utility";
      "test"; "unknown"].
Proof.
  unfold categorizeFile.
  repeat match goal with
         | |- context [if ?b then _ else _] => destruct b
         end; cbn [In]; tauto.
Qed.

Lemma bucket_addFiles label st files : forall c,
  bucket label (fold_left (addFile st) files c) =
  (bucket label c
   ++ modulesOf st
        (filter (fun f => String.eqb label (bucketLabel (categorizeFile f)))
                files))%list.
Proof.
  induction files as [|f files IH]; intros c; cbn [fold_left filter].
  - unfold modulesOf. cbn. now rewrite app_nil_r.
  - rewrite IH. unfold addFile.
    destruct (JsMap.get f (codeModules st)) as [m|] eqn:Hget.
    + rewrite bucket_placeModule, <- app_assoc. f_equal.
      destruct (String.eqb label (bucketLabel (categorizeFile f))).
      * unfold modulesOf. cbn [flat_map]. now rewrite Hget.
      * reflexivity.
    + f_equal.
      destruct (String.eqb label (bucketLabel (categorizeFile f)));
        [|reflexivity].
      unfold modulesOf. cbn [flat_map]. now rewrite Hget.
Qed.

(** X6. The buckets of a context that [createServiceContext] builds:
    a bucket lists, in the order of the files of the group, the modules
    stored for the files whose category selects it.  The category of a
    file is one of eight labels, and [unknown] selects the utilities;
    the seven buckets are the fields of the context. *)
Theorem buckets_by_category st name root files :
  (forall label,
     bucket label (createServiceContext st name root files)
     = modulesOf st
         (filter (fun f => String.eqb label (bucketLabel (categorizeFile f)))
                 files)) /\
  (forall f,
     bucketLabel (categorizeFile f)
     = if String.eqb (categorizeFile f) "unknown" then "utility"
       else categorizeFile f) /\
  (forall c,
     bucketModules c
     = flat_map (fun label => bucket label c)
         ["controller"; "service"; "model"; "repository"; "config"; "utility";
          "test"]).
Proof.
  split; [|split].
  - intros label. unfold createServiceContext.
    transitivity (bucket label (fold_left (addFile st) files
                                          (emptyContext name root))).
    + destruct (fold_left (addFile st) files (emptyContext name root)).
      reflexivity.
    + rewrite bucket_addFiles.
      assert (He : bucket label (emptyContext name root) = []).
      { unfold bucket, emptyContext. cbn.
        repeat match goal with
               | |- context [String.eqb label ?k] =>
                   destruct (String.eqb label k)
               end; reflexivity. }
      now rewrite He.
  - intros f. pose proof (categorizeFile_range f) as H. cbn [In] in H.
    repeat (destruct H as [<- | H]; [reflexivity|]). destruct H.
  - intros c. unfold bucketModules. cbn. now rewrite app_nil_r.
Qed.

(** ** The contexts and the dependency graph *)

(** X7. The dependency graph of a service holds every relationship of
    the context of that service: a relationship of a context touches the
    service the context is named after, so the query for that name
    returns its edge and the base names of its two files. *)
Theorem context_relationships_in_graph w st basePath c rel :
  wellFormed w st ->
  In c (contextsOf st basePath) ->
  In rel (relationships c) ->
  touchesService (serviceName c) rel = true /\
  exists g,
    fst (getServiceDependencyGraph (serviceName c) st) = Ok g /\
    In (graphEdge rel) (edges g) /\
    In (Path.basename1 (sourceFile rel)) (nodes g) /\
    In (Path.basename1 (targetFile rel)) (nodes g).
Proof.
  intros Hwf Hc Hrel.
  assert (Hname : forall f, In f (memberFiles c) ->
                            extractServiceName f = serviceName c).
  { intros f Hf.
    destruct (context_of_member w st Hwf basePath c f Hc Hf) as [_ ->].
    unfold contextOfGroup. cbn [fst snd].
    now rewrite serviceName_createServiceContext. }
  assert (Htouch : touchesService (serviceName c) rel = true).
  { apply (relationships_of_context w st Hwf basePath c rel Hc) in Hrel.
    destruct Hrel as [_ [Hs | Ht]]; unfold touchesService.
    - rewrite (Hname _ Hs), String.eqb_refl. reflexivity.
    - rewrite (Hname _ Ht), String.eqb_refl. apply orb_true_r. }
  split; [exact Htouch|].
  assert (Hin : In rel (filter (touchesService (serviceName c))
                               (fileRelationships st))).
  { apply filter_In. split; [|exact Htouch].
    now apply (relationships_of_context w st Hwf basePath c rel Hc). }
  unfold getServiceDependencyGraph, bind, gets, ret.
  destruct (fold_addEdge (serviceName c) (fileRelationships st) ([], []))
    as (Hedges & _ & Hnodes).
  destruct (fold_left (addEdge (serviceName c)) (fileRelationships st) ([], []))
    as [nodeSet edgeList].
  cbn [fst snd app] in *.
  eexists. split; [reflexivity|]. cbn [nodes edges].
  split; [|split].
  - rewrite Hedges. now apply in_map.
  - apply Hnodes. right. exists rel. auto.
  - apply Hnodes. right. exists rel. auto.
Qed.

Lemma context_relationships_in_graph_witness :
  touchesService "User" sampleExtendsEdge = true.
Proof.
  refine (proj1 (context_relationships_in_graph
                   sampleWorld sampleFinal "/w/r" sampleUserContext
                   sampleExtendsEdge sampleFinal_wf _ _)).
  - vm_compute; tauto.
  - vm_compute; tauto.
Defined.

(** ** The statistic of the pipeline *)

Lemma fold_left_sum {A : Type} (f : A -> nat) l : forall a,
  fold_left (fun sum x => sum + f x) l a = a + list_sum (map f l).
Proof.
  unfold list_sum.
  induction l as [|x l IH]; intros a; cbn; [lia|].
  rewrite IH. lia.
Qed.

Lemma sum_filter_lengths {A B : Type} (p : A -> B -> bool) (gs : list A) (l : list B) :
  list_sum (map (fun g => List.length (filter (p g) l)) gs)
  = list_sum (map (fun x => List.length (filter (fun g => p g x) gs)) l).
Proof.
  unfold list_sum.
  induction l as [|x l IH]; cbn.
  - induction gs; cbn; auto.
  - rewrite <- IH. clear IH.
    induction gs as [|g gs IHg]; cbn; [reflexivity|].
    cbn in IHg. destruct (p g x); cbn; lia.
Qed.

Lemma sum_bounds {A : Type} (f : A -> nat) (l : list A) lo hi :
  (forall x, In x l -> lo <= f x <= hi) ->
  lo * List.length l <= list_sum (map f l) <= hi * List.length l.
Proof.
  unfold list_sum.
  induction l as [|x l IH]; intros H; cbn; [lia|].
  assert (Hx := H x (or_introl eq_refl)).
  assert (Hl := IH (fun y Hy => H y (or_intror Hy))). lia.
Qed.

Lemma filter_orb_length {A : Type} (a b : A -> bool) l :
  List.length (filter (fun x => a x || b x) l)
  <= List.length (filter a l) + List.length (filter b l).
Proof.
  induction l as [|x l IH]; cbn [filter List.length]; [lia|].
  destruct (a x), (b x); cbn [orb List.length]; lia.
Qed.

Lemma at_most_one_named {V : Type} (q : string * V -> bool) (n : string)
      (l : JsMap.t V) :
  NoDup (JsMap.keys l) ->
  (forall g, In g l -> q g = true -> fst g = n) ->
  List.length (filter q l) <= 1.
Proof.
  induction l as [|g l IH]; intros Hnd Hq; cbn [filter List.length]; [lia|].
  cbn in Hnd. inversion Hnd as [|? ? Hnotin Hnd']; subst.
  destruct (q g) eqn:Hg.
  - rewrite filter_none; [cbn; lia|].
    intros g' Hin'. destruct (q g') eqn:Hg'; [|reflexivity].
    exfalso. apply Hnotin.
    rewrite (Hq g (or_introl eq_refl) Hg),
      <- (Hq g' (or_intror Hin') Hg').
    now apply in_map.
  - apply IH; [exact Hnd'|]. intros g' Hin'. apply Hq. now right.
Qed.

(** X8. The statistic [crossReferencesFound] of the pipeline counts a
    relationship once for every context that lists it.  Over the
    contexts of one run that is at least once and at most twice: the sum
    lies between the number of stored relationships and its double. *)
Theorem cross_reference_count_bounds w fuel dir st ctxs st' :
  wellFormed w st ->
  analyzeDirectory w fuel dir st = (Ok ctxs, st') ->
  List.length (fileRelationships st') <= crossReferencesFound ctxs
  /\ crossReferencesFound ctxs <= 2 * List.length (fileRelationships st').
Proof.
  intros Hwf Hrun.
  pose proof (@analyzeDirectory_wf w fuel dir st Hwf) as Hwf'.
  rewrite Hrun in Hwf'. cbn [snd] in Hwf'.
  apply analyzeDirectory_returns in Hrun.
  destruct Hrun as (files & st1 & _ & _ & _ & _ & ->).
  unfold crossReferencesFound. rewrite fold_left_sum, contextsOf_groups, map_map.
  cbn [plus].
  rewrite (map_ext _ (fun g => List.length
                                 (filter (fun rel => touches (snd g) rel)
                                         (fileRelationships st'))))
    by (intros g; unfold contextOfGroup;
        now rewrite relationships_createServiceContext).
  rewrite (sum_filter_lengths (fun g rel => touches (snd g) rel)).
  assert (H : 1 * List.length (fileRelationships st')
              <= list_sum
                   (map (fun x => List.length
                                    (filter (fun g => touches (snd g) x)
                                            (groupFilesByService st')))
                        (fileRelationships st'))
              <= 2 * List.length (fileRelationships st')); [|lia].
  apply sum_bounds. intros rel Hrel.
  destruct (groupFilesByService_inv st') as [Hnd _ _].
  split.
  - destruct (wf_edges Hwf' rel Hrel) as [Hsrc _].
    destruct (group_exists st' _ Hsrc) as (fs & Hg & Hin).
    assert (Hf : In (extractServiceName (sourceFile rel), fs)
                    (filter (fun g => touches (snd g) rel)
                            (groupFilesByService st'))).
    { apply filter_In. split; [exact Hg|]. unfold touches. cbn [snd].
      apply orb_true_iff. left. now apply mem_true_iff. }
    destruct (filter _ (groupFilesByService st')); [destruct Hf | cbn; lia].
  - unfold touches.
    etransitivity; [apply filter_orb_length|].
    assert (Hone : forall f,
              List.length (filter (fun g : string * list string =>
                                     Str.mem f (snd g))
                                  (groupFilesByService st')) <= 1).
    { intros f. apply at_most_one_named with (extractServiceName f);
        [exact Hnd|].
      intros [name fs] Hg Hm. cbn [fst snd] in *.
      apply mem_true_iff in Hm.
      apply (group_member st' name fs f Hg) in Hm. symmetry. apply Hm. }
    pose proof (Hone (sourceFile rel)). pose proof (Hone (targetFile rel)). lia.
Qed.

Lemma cross_reference_count_bounds_witness :
  5 <= crossReferencesFound sampleContexts /\
  crossReferencesFound sampleContexts <= 10.
Proof.
  refine (cross_reference_count_bounds
            sampleWorld 4 "/w/r" newAnalyzer sampleContexts sampleFinal
            (wellFormed_new _) _).
  vm_compute; reflexivity.
Defined.

(** ** The two traversals *)

Section WalkFacts.

Variable w : World.
Variable skip : string -> bool.
Variable exts : list string.

Lemma entered_trans root dir d :
  entered w skip root dir -> entered w skip dir d -> entered w skip root d.
Proof.
  intros Hroot Hd. induction Hd as [|dir' items item stats _ IH Hr Hin Hs Hk Hskip].
  - exact Hroot.
  - now apply entered_child with items stats.
Qed.

Lemma entered_inv root d :
  entered w skip root d ->
  d = root \/
  exists items item stats,
    readdir w root = Ok items /\ In item items /\
    stat w (Path.join [root; item]) = Ok stats /\
    kind stats = IsDirectory /\ skip item = false /\
    entered w skip (Path.join [root; item]) d.
Proof.
  intros Hd. induction Hd as [|dir items item stats Hdir IH Hr Hin Hs Hk Hskip].
  - now left.
  - right. destruct IH as [-> | (items0 & item0 & stats0 & H1 & H2 & H3 & H4 & H5 & H6)].
    + exists items, item, stats. repeat split; auto. apply entered_root.
    + exists items0, item0, stats0. repeat split; auto.
      now apply entered_child with items stats.
Qed.

Lemma collected_under root dir f :
  entered w skip root dir -> collected w skip exts dir f ->
  collected w skip exts root f.
Proof.
  intros Hroot (d & items & item & stats & Hd & H).
  exists d, items, item, stats. split; [|exact H].
  now apply entered_trans with dir.
Qed.

(** What the loop over the entries of an entered directory returns, when
    the traversal of a subdirectory is sound *)
Lemma walkItems_sound root rec dir allItems :
  entered w skip root dir -> readdir w dir = Ok allItems ->
  (forall d files r, entered w skip root d -> rec d files = Ok r ->
                     exists new, r = (files ++ new)%list /\
                                 Forall (collected w skip exts root) new) ->
  forall items files r,
    incl items allItems ->
    walkItems w skip exts rec dir items files = Ok r ->
    exists new, r = (files ++ new)%list /\
                Forall (collected w skip exts root) new.
Proof.
  intros Hdir Hread Hrec.
  induction items as [|item items IH]; intros files r Hincl Hrun.
  - cbn in Hrun. apply Ok_inj in Hrun. subst r. exists [].
    now rewrite app_nil_r.
  - cbn [walkItems] in Hrun. cbv zeta in Hrun. unfold obind at 1 in Hrun.
    destruct (stat w (Path.join [dir; item])) as [stats|e|] eqn:Hstat;
      try discriminate.
    assert (Hin : In item allItems) by (apply Hincl; now left).
    assert (Hincl' : incl items allItems)
      by (intros x Hx; apply Hincl; now right).
    assert (Hstep : forall files', 
              match kind stats with
              | IsDirectory =>
                  if negb (skip item) then rec (Path.join [dir; item]) files
                  else Ok files
              | IsFile =>
                  if Str.mem (Path.extname item) exts
                  then Ok (files ++ [Path.join [dir; item]])%list
                  else Ok files
              | IsOther => Ok files
              end = Ok files' ->
              exists new, files' = (files ++ new)%list /\
                          Forall (collected w skip exts root) new).
    { intros files' Hf. destruct (kind stats) eqn:Hkind.
      - destruct (skip item) eqn:Hskip; cbn [negb] in Hf.
        + apply Ok_inj in Hf. subst. exists []. now rewrite app_nil_r.
        + apply Hrec in Hf; [exact Hf|].
          now apply entered_child with allItems stats.
      - destruct (Str.mem (Path.extname item) exts) eqn:Hext.
        + apply Ok_inj in Hf. subst. exists [Path.join [dir; item]].
          split; [reflexivity|]. constructor; [|constructor].
          exists dir, allItems, item, stats. repeat split; auto.
        + apply Ok_inj in Hf. subst. exists []. now rewrite app_nil_r.
      - apply Ok_inj in Hf. subst. exists []. now rewrite app_nil_r. }
    unfold obind at 1 in Hrun.
    destruct (match kind stats with
              | IsDirectory => _ | IsFile => _ | IsOther => _ end)
      as [files'|e|]; try discriminate.
    destruct (Hstep files' eq_refl) as (new1 & -> & Hnew1).
    destruct (IH _ _ Hincl' Hrun) as (new2 & -> & Hnew2).
    exists (new1 ++ new2)%list. split; [now rewrite app_assoc|].
    apply Forall_app. now split.
Qed.

Lemma walk_sound root fuel : forall dir files r,
  entered w skip root dir ->
  walk w skip exts fuel dir files = Ok r ->
  exists new, r = (files ++ new)%list /\
              Forall (collected w skip exts root) new.
Proof.
  induction fuel as [|fuel IH]; intros dir files r Hdir Hrun; [discriminate|].
  cbn [walk] in Hrun. unfold obind at 1 in Hrun.
  destruct (readdir w dir) as [items|e|] eqn:Hread; try discriminate.
  apply (walkItems_sound root (walk w skip exts fuel) dir items Hdir Hread IH
                         items files r); [apply incl_refl | exact Hrun].
Qed.

(** Completeness of the loop: what each entry contributes is in the
    result. *)
Lemma walkItems_complete rec dir :
  (forall d files r, rec d files = Ok r -> exists new, r = (files ++ new)%list) ->
  forall items files r,
    walkItems w skip exts rec dir items files = Ok r ->
    (exists new, r = (files ++ new)%list) /\
    forall item stats,
      In item items -> stat w (Path.join [dir; item]) = Ok stats ->
      (kind stats = IsFile -> Str.mem (Path.extname item) exts = true ->
       In (Path.join [dir; item]) r) /\
      (kind stats = IsDirectory -> skip item = false ->
       exists files0 r0,
         rec (Path.join [dir; item]) files0 = Ok r0 /\ incl r0 r).
Proof.
  intros Hrec.
  induction items as [|item items IH]; intros files r Hrun.
  - cbn in Hrun. apply Ok_inj in Hrun. subst r. split.
    + exists []. now rewrite app_nil_r.
    + intros item stats [].
  - cbn [walkItems] in Hrun. cbv zeta in Hrun. unfold obind at 1 in Hrun.
    destruct (stat w (Path.join [dir; item])) as [stats|e|] eqn:Hstat;
      try discriminate.
    unfold obind at 1 in Hrun.
    destruct (match kind stats with
              | IsDirectory => _ | IsFile => _ | IsOther => _ end)
      as [files'|e|] eqn:Hstep; try discriminate.
    destruct (IH _ _ Hrun) as ((new2 & ->) & Hrest).
    assert (Hext : exists new1, files' = (files ++ new1)%list).
    { destruct (kind stats).
      - destruct (skip item); cbn [negb] in Hstep.
        + apply Ok_inj in Hstep. subst. exists []. now rewrite app_nil_r.
        + now apply Hrec in Hstep.
      - destruct (Str.mem (Path.extname item) exts);
          apply Ok_inj in Hstep; subst; eexists;
          [reflexivity | now rewrite app_nil_r].
      - apply Ok_inj in Hstep. subst. exists []. now rewrite app_nil_r. }
    destruct Hext as (new1 & ->).
    split; [exists (new1 ++ new2)%list; now rewrite app_assoc|].
    intros item0 stats0 [<- | Hin] Hstat0.
    + rewrite Hstat in Hstat0. apply Ok_inj in Hstat0. subst stats0. split.
      * intros Hk Hm. rewrite Hk, Hm in Hstep. apply Ok_inj in Hstep.
        apply app_inv_head in Hstep. subst new1.
        apply in_or_app. left. apply in_or_app. right. now left.
      * intros Hk Hs. rewrite Hk, Hs in Hstep. cbn [negb] in Hstep.
        exists files, (files ++ new1)%list. split; [exact Hstep|].
        intros x Hx. apply in_or_app. now left.
    + exact (Hrest item0 stats0 Hin Hstat0).
Qed.

Lemma walk_extends fuel dir files r :
  walk w skip exts fuel dir files = Ok r -> exists new, r = (files ++ new)%list.
Proof.
  intros H. destruct (walk_sound dir fuel dir files r (entered_root _ _ _) H)
    as (new & -> & _). now exists new.
Qed.

Lemma walk_complete fuel : forall dir files r f,
  walk w skip exts fuel dir files = Ok r ->
  collected w skip exts dir f -> In f r.
Proof.
  induction fuel as [|fuel IH]; intros dir files r f Hrun Hf; [discriminate|].
  cbn [walk] in Hrun. unfold obind at 1 in Hrun.
  destruct (readdir w dir) as [items|e|] eqn:Hread; try discriminate.
  destruct (walkItems_complete (walk w skip exts fuel) dir
              (walk_extends fuel) items files r Hrun) as [_ Hitems].
  destruct Hf as (d & items0 & item0 & stats0 & Hd & Hr0 & Hin0 & -> & Hs0 & Hk0 & He0).
  apply entered_inv in Hd.
  destruct Hd as [-> | (items1 & item1 & stats1 & Hr1 & Hin1 & Hs1 & Hk1 & Hskip1 & Hd1)].
  - rewrite Hread in Hr0. apply Ok_inj in Hr0. subst items0.
    now apply (Hitems item0 stats0 Hin0 Hs0).
  - rewrite Hread in Hr1. apply Ok_inj in Hr1. subst items1.
    destruct (proj2 (Hitems item1 stats1 Hin1 Hs1) Hk1 Hskip1)
      as (files0 & r0 & Hrec & Hincl).
    apply Hincl. apply (IH _ _ _ _ Hrec).
    now exists d, items0, item0, stats0.
Qed.

Lemma walk_characterized fuel dir files f :
  walk w skip exts fuel dir [] = Ok files ->
  (In f files <-> collected w skip exts dir f).
Proof.
  intros Hrun. split.
  - intros Hin.
    destruct (walk_sound dir fuel dir [] files (entered_root _ _ _) Hrun)
      as (new & -> & Hall).
    cbn [app] in Hin. rewrite Forall_forall in Hall. now apply Hall.
  - now apply walk_complete with fuel [].
Qed.

End WalkFacts.

Lemma traverse_walk w fuel : forall dir files,
  traverse w fuel dir files
  = walk w shouldSkipDirectory getSupportedExtensions fuel dir files.
Proof.
  induction fuel as [|fuel IH]; intros dir files; [reflexivity|].
  cbn [traverse walk]. destruct (readdir w dir) as [items|e|]; cbn [obind];
    try reflexivity.
  revert files. induction items as [|item items IHi]; intros files;
    [reflexivity|].
  cbn [walkItems]. cbv zeta.
  destruct (stat w (Path.join [dir; item])) as [stats|e|]; cbn [obind];
    try reflexivity.
  rewrite <- IH.
  destruct (match kind stats with
            | IsDirectory => _ | IsFile => _ | IsOther => _ end);
    cbn [obind]; try reflexivity.
  apply IHi.
Qed.

Lemma BaseParser_traverse_walk w lang fuel : forall dir files,
  BaseParser_traverse w lang fuel dir files
  = walk w BaseParser_shouldSkipDirectory (getFileExtensions lang) fuel dir files.
Proof.
  induction fuel as [|fuel IH]; intros dir files; [reflexivity|].
  cbn [BaseParser_traverse walk].
  destruct (readdir w dir) as [items|e|]; cbn [obind]; try reflexivity.
  revert files. induction items as [|item items IHi]; intros files;
    [reflexivity|].
  cbn [walkItems]. cbv zeta.
  destruct (stat w (Path.join [dir; item])) as [stats|e|]; cbn [obind];
    try reflexivity.
  rewrite <- IH.
  destruct (match kind stats with
            | IsDirectory => _ | IsFile => _ | IsOther => _ end);
    cbn [obind]; try reflexivity.
  apply IHi.
Qed.

(** X9. What a discovery that returns has found: exactly the entries of
    the directories it entered that are regular files with one of the
    supported extensions, the extension compared as written.  It enters
    the directory it is given, whatever its name, and below it the
    directories that [shouldSkipDirectory] does not refuse. *)
Theorem discovery_finds_collected_files w fuel dir files f :
  findAllSupportedFiles w fuel dir = Ok files ->
  (In f files <->
   collected w shouldSkipDirectory getSupportedExtensions dir f).
Proof.
  unfold findAllSupportedFiles. rewrite traverse_walk.
  apply walk_characterized.
Qed.

Lemma discovery_finds_collected_files_witness :
  collected sampleWorld shouldSkipDirectory getSupportedExtensions "/w/r"
            "/w/r/a.go".
Proof.
  refine (proj1 (discovery_finds_collected_files
                   sampleWorld 4 "/w/r" sampleFound "/w/r/a.go" _) _).
  - vm_compute; reflexivity.
  - vm_compute; tauto.
Defined.

(** ** Project roots and the resolution of references *)

Lemma find_first {A : Type} (p : A -> bool) (l : list A) x :
  find p l = Some x ->
  exists pre post,
    l = (pre ++ x :: post)%list /\ p x = true /\
    forall y, In y pre -> p y = false.
Proof.
  induction l as [|a l IH]; intros H; [discriminate|].
  cbn [find] in H. destruct (p a) eqn:Ha.
  - injection H as <-. exists [], l. repeat split; auto. intros y [].
  - destruct (IH H) as (pre & post & -> & Hx & Hpre).
    exists (a :: pre), post. repeat split; auto.
    intros y [<- | Hy]; auto.
Qed.

Lemma find_none_all {A : Type} (p : A -> bool) (l : list A) :
  find p l = None -> forall y, In y l -> p y = false.
Proof.
  induction l as [|a l IH]; intros H y Hy; [destruct Hy|].
  cbn [find] in H. destruct (p a) eqn:Ha; [discriminate|].
  destruct Hy as [<- | Hy]; auto.
Qed.

Lemma findProjectRoot_loop_found w fuel : forall currentPath root,
  findProjectRoot_loop w fuel currentPath = Ok (Some root) ->
  exists k,
    root = Nat.iter k Path.dirname currentPath /\
    anyMarker w root possibleMarkers = Ok true /\
    Path.dirname root <> root /\
    forall j, j < k ->
      anyMarker w (Nat.iter j Path.dirname currentPath) possibleMarkers
      = Ok false.
Proof.
  induction fuel as [|fuel IH]; intros cur root H; [discriminate|].
  cbn [findProjectRoot_loop] in H.
  destruct (String.eqb cur (Path.dirname cur)) eqn:Hfix; [discriminate|].
  unfold obind in H.
  destruct (anyMarker w cur possibleMarkers) as [[|]|e|] eqn:Hm;
    try discriminate.
  - apply Ok_inj in H. injection H as <-. exists 0. cbn [Nat.iter].
    repeat split; auto.
    + intros Heq. rewrite Heq, String.eqb_refl in Hfix. discriminate.
    + intros j Hj. inversion Hj.
  - destruct (IH _ _ H) as (k & -> & Hk & Hne & Hbefore).
    exists (S k). rewrite Nat.iter_succ_r. repeat split; auto.
    intros [|j] Hj; [exact Hm|].
    rewrite Nat.iter_succ_r. apply Hbefore. lia.
Qed.

(** X10. The project root of a file is its nearest marked ancestor:
    when [findProjectRoot] returns a directory, that directory is
    reached from the file by one or more steps to the parent, one of the
    markers is present in it, none is present in the ancestors passed on
    the way, and it is not the top of the path (the directory that is
    its own parent), where the loop stops without looking for markers. *)
Theorem project_root_is_nearest_marked_ancestor w path root :
  findProjectRoot w path = Ok (Some root) ->
  exists k,
    root = Nat.iter (S k) Path.dirname path /\
    anyMarker w root possibleMarkers = Ok true /\
    Path.dirname root <> root /\
    forall j, j < k ->
      anyMarker w (Nat.iter (S j) Path.dirname path) possibleMarkers
      = Ok false.
Proof.
  intros H. unfold findProjectRoot in H.
  apply findProjectRoot_loop_found in H.
  destruct H as (k & Hroot & Hm & Hne & Hbefore).
  exists k. rewrite Nat.iter_succ_r. repeat split; auto.
  intros j Hj. rewrite Nat.iter_succ_r. now apply Hbefore.
Qed.

Lemma project_root_is_nearest_marked_ancestor_witness :
  exists k,
    "/w" = Nat.iter (S k) Path.dirname "/w/r/UserService.java" /\
    anyMarker sampleWorld "/w" possibleMarkers = Ok true /\
    Path.dirname "/w" <> "/w" /\
    forall j, j < k ->
      anyMarker sampleWorld (Nat.iter (S j) Path.dirname "/w/r/UserService.java")
                possibleMarkers
      = Ok false.
Proof.
  apply (project_root_is_nearest_marked_ancestor
           sampleWorld "/w/r/UserService.java" "/w").
  vm_compute; reflexivity.
Defined.

(** X11. A Java import resolves to the first of three candidate files
    that exists: under [src/main/java] of the project root, under [src]
    of the project root, next to the importing file.  Nothing but its
    existence is asked of the target. *)
Theorem java_import_candidates w path importPath target :
  resolveJavaImport w path importPath = Ok (Some target) ->
  exists root,
    findProjectRoot w path = Ok (Some root) /\
    pathExists w target = true /\
    let relativePath := Str.replace_all "." "/" importPath ++ ".java" in
    let underMain := Path.join [root; "src"; "main"; "java"; relativePath] in
    let underSrc := Path.join [root; "src"; relativePath] in
    let sibling := Path.join [Path.dirname path; relativePath] in
    target = underMain \/
    (pathExists w underMain = false /\ target = underSrc) \/
    (pathExists w underMain = false /\ pathExists w underSrc = false /\
     target = sibling).
Proof.
  intros H. unfold resolveJavaImport in H. cbv zeta in H. unfold obind in H.
  destruct (findProjectRoot w path) as [[root|]|e|]; try discriminate.
  exists root. split; [reflexivity|].
  destruct (Str.truthy root); [|discriminate].
  apply Ok_inj in H. split; [now apply firstExisting_exists in H|].
  cbv zeta. unfold firstExisting in H. cbn [find] in H.
  destruct (pathExists w (Path.join [root; "src"; "main"; "java"; _])).
  - left. now injection H as <-.
  - destruct (pathExists w (Path.join [root; "src"; _])).
    + right. left. split; [reflexivity|]. now injection H as <-.
    + destruct (pathExists w (Path.join [Path.dirname path; _]));
        [|discriminate].
      right. right. repeat split. now injection H as <-.
Qed.

Lemma java_import_candidates_witness :
  exists root,
    findProjectRoot sampleWorld "/w/r/UserService.java" = Ok (Some root) /\
    pathExists sampleWorld "/w/r/User.java" = true /\
    let relativePath := Str.replace_all "." "/" "User" ++ ".java" in
    let underMain := Path.join [root; "src"; "main"; "java"; relativePath] in
    let underSrc := Path.join [root; "src"; relativePath] in
    let sibling := Path.join [Path.dirname "/w/r/UserService.java"; relativePath] in
    "/w/r/User.java" = underMain \/
    (pathExists sampleWorld underMain = false /\ "/w/r/User.java" = underSrc) \/
    (pathExists sampleWorld underMain = false /\
     pathExists sampleWorld underSrc = false /\
     "/w/r/User.java" = sibling).
Proof.
  apply (java_import_candidates sampleWorld "/w/r/UserService.java" "User"
                                "/w/r/User.java").
  vm_compute; reflexivity.
Defined.

(** X12. A C# using resolves to the first of two candidate files that
    exists: under the project root, next to the file with the using. *)
Theorem csharp_using_candidates w path usingPath target :
  resolveCSharpUsing w path usingPath = Ok (Some target) ->
  exists root,
    findProjectRoot w path = Ok (Some root) /\
    pathExists w target = true /\
    let relativePath := Str.replace_all "." "/" usingPath ++ ".cs" in
    let underRoot := Path.join [root; relativePath] in
    let sibling := Path.join [Path.dirname path; relativePath] in
    target = underRoot \/
    (pathExists w underRoot = false /\ target = sibling).
Proof.
  intros H. unfold resolveCSharpUsing in H. cbv zeta in H. unfold obind in H.
  destruct (findProjectRoot w path) as [[root|]|e|]; try discriminate.
  exists root. split; [reflexivity|].
  destruct (Str.truthy root); [|discriminate].
  apply Ok_inj in H. split; [now apply firstExisting_exists in H|].
  cbv zeta. unfold firstExisting in H. cbn [find] in H.
  destruct (pathExists w (Path.join [root; _])).
  - left. now injection H as <-.
  - destruct (pathExists w (Path.join [Path.dirname path; _]));
      [|discriminate].
    right. split; [reflexivity|]. now injection H as <-.
Qed.

Lemma csharp_using_candidates_witness :
  exists root,
    findProjectRoot sampleWorld "/w/r/Foo.cs" = Ok (Some root) /\
    pathExists sampleWorld "/w/r/IFoo.cs" = true /\
    let relativePath := Str.replace_all "." "/" "r.IFoo" ++ ".cs" in
    let underRoot := Path.join [root; relativePath] in
    let sibling := Path.join [Path.dirname "/w/r/Foo.cs"; relativePath] in
    "/w/r/IFoo.cs" = underRoot \/
    (pathExists sampleWorld underRoot = false /\ "/w/r/IFoo.cs" = sibling).
Proof.
  apply (csharp_using_candidates sampleWorld "/w/r/Foo.cs" "r.IFoo"
                                 "/w/r/IFoo.cs").
  vm_compute; reflexivity.
Defined.

(** X13. A file that lies directly in the top directory of its path
    (the directory that is its own parent, as for a bare file name) has
    no project root, whatever the markers in that directory: the loop
    stops there before it looks for markers.  So none of its Java
    imports and C# usings resolves, even to a file next to it. *)
Theorem top_level_file_resolves_nothing w path reference :
  Path.dirname (Path.dirname path) = Path.dirname path ->
  findProjectRoot w path = Ok None /\
  resolveJavaImport w path reference = Ok None /\
  resolveCSharpUsing w path reference = Ok None.
Proof.
  intros H.
  assert (Hroot : findProjectRoot w path = Ok None).
  { unfold findProjectRoot. rewrite Nat.add_comm. cbn [plus findProjectRoot_loop].
    now rewrite H, String.eqb_refl. }
  unfold resolveJavaImport, resolveCSharpUsing. cbv zeta.
  now rewrite Hroot.
Qed.

Lemma top_level_file_resolves_nothing_witness :
  findProjectRoot sampleWorld "/go.java" = Ok None /\
  resolveJavaImport sampleWorld "/go.java" "w.r.User" = Ok None /\
  resolveCSharpUsing sampleWorld "/go.java" "w.r.User" = Ok None.
Proof.
  apply (top_level_file_resolves_nothing sampleWorld "/go.java" "w.r.User").
  reflexivity.
Defined.

(** X14. A Go import is resolved only when it is relative: the target is
    then the first entry with the suffix [.go] in the listing of the
    imported directory, joined to that directory; an import that starts
    with neither [./] nor [../] resolves to nothing without a look at
    the disk. *)
Theorem go_import_target w path importPath :
  (Str.startsWith importPath "./" = false ->
   Str.startsWith importPath "../" = false ->
   resolveGoImport w path importPath = Ok None) /\
  (forall target,
     resolveGoImport w path importPath = Ok (Some target) ->
     let dir := Path.resolve (cwd w) [Path.dirname path; importPath] in
     pathExists w dir = true /\
     exists before goFile rest,
       readdir w dir = Ok (before ++ goFile :: rest)%list /\
       Str.endsWith goFile ".go" = true /\
       (forall entry, In entry before -> Str.endsWith entry ".go" = false) /\
       target = Path.join [dir; goFile]).
Proof.
  split.
  - intros H1 H2. unfold resolveGoImport. now rewrite H1, H2.
  - intros target H. cbv zeta. unfold resolveGoImport in H.
    destruct (Str.startsWith importPath "./" || Str.startsWith importPath "../");
      [|discriminate].
    cbv zeta in H.
    destruct (pathExists w (Path.resolve (cwd w) [Path.dirname path; importPath]));
      [|discriminate].
    split; [reflexivity|]. unfold obind in H.
    destruct (readdir w (Path.resolve (cwd w) [Path.dirname path; importPath]))
      as [files|e|]; try discriminate.
    destruct (find (fun f => Str.endsWith f ".go") files) as [goFile|] eqn:Hfind;
      [|discriminate].
    apply Ok_inj in H. injection H as <-.
    apply find_first in Hfind.
    destruct Hfind as (pre & post & -> & Hgo & Hpre).
    exists pre, goFile, post. repeat split; auto.
Qed.

(** ** The class lookup and the module table *)

(** X15. [findClassDefinition] answers with the first entry of the
    module table, in insertion order, one of whose classes has the name
    asked for, and with nothing exactly when no stored module declares
    such a class; it leaves the analyzer as it was. *)
Theorem class_definition_is_first_declaring_entry basePath className st :
  snd (findClassDefinition basePath className st) = st /\
  (forall path,
     fst (findClassDefinition basePath className st) = Ok (Some path) ->
     exists before module rest,
       codeModules st = (before ++ (path, module) :: rest)%list /\
       hasClass className module = true /\
       forall entry, In entry before -> hasClass className (snd entry) = false) /\
  (fst (findClassDefinition basePath className st) = Ok None <->
   forall entry, In entry (codeModules st) ->
                 hasClass className (snd entry) = false).
Proof.
  unfold findClassDefinition, gets, JsMap.entries. cbn [fst snd].
  split; [reflexivity|].
  destruct (find (fun e => hasClass className (snd e)) (codeModules st))
    as [[p m]|] eqn:Hfind.
  - apply find_first in Hfind.
    destruct Hfind as (pre & post & Htbl & Hm & Hpre). split.
    + intros path H. apply Ok_inj in H. injection H as <-.
      now exists pre, m, post.
    + split; [discriminate|].
      intros Hnone. specialize (Hnone (p, m)). rewrite Htbl in Hnone.
      cbn [snd] in *. rewrite Hnone in Hm; [discriminate|].
      apply in_or_app. right. now left.
  - split; [discriminate|]. split; [|reflexivity].
    intros _. now apply find_none_all.
Qed.

(** X16. The module table after a run on a new analyzer holds, under
    their paths, exactly the modules of the discovered files that the
    parser of their extension could parse. *)
Theorem module_table_of_first_run w fuel dir ctxs st' files path m :
  analyzeDirectory w fuel dir newAnalyzer = (Ok ctxs, st') ->
  findAllSupportedFiles w fuel dir = Ok files ->
  (In (path, m) (codeModules st') <->
   In path files /\ parseFile w path = Ok (Some m)).
Proof.
  intros Hrun Hfiles.
  apply analyzeDirectory_returns in Hrun.
  destruct Hrun as (files' & st1 & Hf' & Hloop & _ & Htbl & _).
  rewrite Hfiles in Hf'. apply Ok_inj in Hf'. subst files'.
  destruct (parseLoop_state w files newAnalyzer)
    as (_ & _ & _ & _ & Hsound & Hcomplete & _).
  rewrite Hloop in Hsound, Hcomplete. cbn [fst snd] in *. rewrite Htbl.
  split.
  - intros Hin. destruct (Hsound _ _ Hin) as [[] | H]. exact H.
  - intros [Hin Hparse].
    exact (Hcomplete eq_refl (wellFormed_new w) path m Hin Hparse).
Qed.

Lemma module_table_of_first_run_witness :
  In "/w/r/a.go" sampleFound /\
  parseFile sampleWorld "/w/r/a.go"
  = Ok (Some {| filePath := "/w/r/a.go"; language := go; endpoints := [];
                classes := []; functions := []; lastModified := 0 |}).
Proof.
  refine (proj1 (module_table_of_first_run
                   sampleWorld 4 "/w/r" sampleContexts sampleFinal sampleFound
                   "/w/r/a.go" _ _ _) _).
  - vm_compute; reflexivity.
  - vm_compute; reflexivity.
  - vm_compute; tauto.
Defined.

(** ** Names by the last two components *)

(** X17. The service name and the category of a file depend only on its
    base name and on the base name of its directory: two files that
    agree on both get the same name and the same category, wherever
    their directories lie. *)
Theorem naming_by_last_two_components p q :
  Path.basename1 p = Path.basename1 q ->
  Path.basename1 (Path.dirname p) = Path.basename1 (Path.dirname q) ->
  extractServiceName p = extractServiceName q /\
  categorizeFile p = categorizeFile q.
Proof.
  intros Hb Hd. split.
  - unfold extractServiceName.
    assert (He : Path.extname p = Path.extname q)
      by now apply extname_of_basename.
    assert (Hs : Path.basename p (Path.extname p)
                 = Path.basename q (Path.extname q)).
    { apply append_inv_head with (Path.extname p).
      rewrite basename_extname, He, basename_extname. exact Hb. }
    now rewrite Hs, Hd.
  - unfold categorizeFile. now rewrite Hb, Hd.
Qed.

Lemma naming_by_last_two_components_witness :
  extractServiceName "/a/api/UserController.java"
  = extractServiceName "b/c/api/UserController.java" /\
  categorizeFile "/a/api/UserController.java"
  = categorizeFile "b/c/api/UserController.java".
Proof.
  apply naming_by_last_two_components; reflexivity.
Defined.

(** ** Texts without keywords *)

Lemma run_lit_prefix (R : Type) l : forall s c (k : string -> Regex.captures -> option R) x,
  Regex.run (Regex.lit l) s c k = Some x -> String.prefix l s = true.
Proof.
  induction l as [|a l IH]; intros s c k x H; [now destruct s|].
  cbn [Regex.lit Regex.run Regex.chr] in H.
  destruct s as [|b s]; [discriminate|].
  destruct (Ascii.eqb a b) eqn:Hab; [|discriminate].
  apply Ascii.eqb_eq in Hab. subst b. apply IH in H. cbn [String.prefix].
  destruct (ascii_dec a a); [exact H | congruence].
Qed.

Lemma headed_lit l r : headed (Regex.Seq (Regex.lit l) r) [l].
Proof.
  intros R s c k x H. cbn [Regex.run] in H. apply run_lit_prefix in H.
  exists l. split; [now left | exact H].
Qed.

Lemma headed_chr a r : headed (Regex.Seq (Regex.chr a) r) [String a ""].
Proof.
  intros R s c k x H. cbn [Regex.run Regex.chr] in H.
  destruct s as [|b s]; [discriminate|].
  destruct (Ascii.eqb a b) eqn:Hab; [|discriminate].
  apply Ascii.eqb_eq in Hab. subst b.
  exists (String a ""). split; [now left|]. cbn [String.prefix].
  destruct (ascii_dec a a); [now destruct s | congruence].
Qed.

Lemma headed_visibility r :
  headed (Regex.Seq Patterns.visibility r) ["private"; "protected"; "public"].
Proof.
  intros R s c k x H. unfold Patterns.visibility in H.
  cbn [Regex.run] in H.
  destruct (Regex.run (Regex.lit "private") s c _) eqn:H1.
  - apply run_lit_prefix in H1. exists "private". cbn [In]. auto.
  - destruct (Regex.run (Regex.lit "protected") s c _) eqn:H2.
    + apply run_lit_prefix in H2. exists "protected". cbn [In]. auto.
    + apply run_lit_prefix in H. exists "public". cbn [In]. auto.
Qed.

Lemma search_none r ls :
  headed r ls ->
  forall s pos, (forall l, In l ls -> Str.includes s l = false) ->
                Regex.search r pos s = None.
Proof.
  intros Hr. induction s as [|a s IH]; intros pos Hno; cbn [Regex.search].
  - destruct (Regex.run r "" [] _) as [[s' c]|] eqn:Hrun; [|reflexivity].
    destruct (Hr _ _ _ _ _ Hrun) as (l & Hl & Hp).
    specialize (Hno l Hl). cbn [Str.includes] in Hno. rewrite Hp in Hno.
    discriminate.
  - destruct (Regex.run r (String a s) [] _) as [[s' c]|] eqn:Hrun.
    + destruct (Hr _ _ _ _ _ Hrun) as (l & Hl & Hp).
      specialize (Hno l Hl). cbn [Str.includes] in Hno. rewrite Hp in Hno.
      discriminate.
    + apply IH. intros l Hl. specialize (Hno l Hl). cbn [Str.includes] in Hno.
      now apply orb_false_iff in Hno.
Qed.

Lemma exec_all_none r ls s :
  headed r ls -> (forall l, In l ls -> Str.includes s l = false) ->
  Regex.exec_all r s = [].
Proof.
  intros Hr Hno. unfold Regex.exec_all. cbn [Regex.exec_loop].
  now rewrite (search_none r ls Hr s 0 Hno).
Qed.

(** X18. A source text in which none of the words occurs that the
    patterns of its language start with yields no relationship: the scan
    of the file returns without a push and without a look at the disk
    beyond the read of the file.  An empty file is such a text. *)
Theorem no_keyword_no_relationship w path module content st :
  readFile w path = Ok content ->
  (forall k, In k (keywords (language module)) ->
             Str.includes content k = false) ->
  findRelationshipsForFile w path module st = (Ok tt, st).
Proof.
  intros Hread Hno. unfold findRelationshipsForFile, bind, lift.
  rewrite Hread.
  assert (Hnone : forall r ls,
            headed r ls -> incl ls (keywords (language module)) ->
            Regex.exec_all r content = []).
  { intros r ls Hr Hincl. apply exec_all_none with ls; [exact Hr|].
    intros l Hl. apply Hno, Hincl, Hl. }
  destruct (language module); cbn [keywords] in Hnone.
  - unfold analyzeGoRelationships.
    rewrite (Hnone Patterns.goImportRegex ["import"] (headed_lit _ _));
      [reflexivity|].
    intros x [<- | []]; cbn [In]; auto.
  - unfold analyzeJavaRelationships, bind.
    rewrite (Hnone Patterns.javaImportRegex ["import"] (headed_lit _ _))
      by (intros x [<- | []]; cbn [In]; auto).
    rewrite (Hnone Patterns.javaClassRegex ["class"] (headed_lit _ _))
      by (intros x [<- | []]; cbn [In]; auto).
    rewrite (Hnone Patterns.annotationRegex ["@"] (headed_chr _ _))
      by (intros x [<- | []]; cbn [In]; auto).
    reflexivity.
  - unfold analyzeCSharpRelationships, bind.
    rewrite (Hnone Patterns.usingRegex ["using"] (headed_lit _ _))
      by (intros x [<- | []]; cbn [In]; auto).
    rewrite (Hnone Patterns.csharpClassRegex ["class"] (headed_lit _ _))
      by (intros x [<- | []]; cbn [In]; auto).
    rewrite (Hnone Patterns.diRegex ["private"; "protected"; "public"]
                   (headed_visibility _))
      by (intros x Hx; cbn [In] in *; tauto).
    reflexivity.
Qed.

Lemma no_keyword_no_relationship_witness :
  findRelationshipsForFile sampleWorld "/w/shared/x.go"
    {| filePath := "/w/shared/x.go"; language := go; endpoints := [];
       classes := []; functions := []; lastModified := 0 |} sampleFinal
  = (Ok tt, sampleFinal).
Proof.
  apply (no_keyword_no_relationship sampleWorld "/w/shared/x.go" _
                                    "package shared").
  - vm_compute; reflexivity.
  - intros k [<- | []]. vm_compute; reflexivity.
Defined.

(** ** The directory parsers *)

Lemma BaseParser_parseFile_never_throws w lang path e :
  BaseParser_parseFile w lang path <> Throw e.
Proof.
  unfold BaseParser_parseFile.
  destruct (obind _ _); discriminate.
Qed.

Lemma BaseParser_parseFile_module w lang path m :
  BaseParser_parseFile w lang path = Ok (Some m) ->
  filePath m = path /\ language m = lang.
Proof.
  unfold BaseParser_parseFile, obind.
  destruct (readFile w path); try discriminate.
  destruct (stat w path); try discriminate.
  destruct (extractApiEndpoints w lang _ path); try discriminate.
  destruct (extractClasses w lang _ path); try discriminate.
  destruct (extractFunctions w lang _ path); try discriminate.
  intros H. apply Ok_inj in H. injection H as <-. now split.
Qed.

Lemma parseEach_spec w lang files : forall modules,
  (forall e, fst (parseEach w lang files modules) <> Throw e) /\
  (fst (parseEach w lang files modules) = Ok tt ->
   snd (parseEach w lang files modules)
   = (modules ++ parsedModules w lang files)%list).
Proof.
  induction files as [|f files IH]; intros modules; cbn [parseEach].
  - split; [discriminate|]. intros _. cbn. now rewrite app_nil_r.
  - unfold parsedModules. cbn [flat_map].
    pose proof (BaseParser_parseFile_never_throws w lang f) as Hnt.
    destruct (BaseParser_parseFile w lang f) as [[m|]|e|].
    + destruct (IH (modules ++ [m])%list) as [H1 H2]. split; [exact H1|].
      intros H. rewrite (H2 H), <- app_assoc. reflexivity.
    + apply IH.
    + now destruct (Hnt e).
    + split; [discriminate|]. discriminate.
Qed.

Lemma BaseParser_parseDirectory_never_throws w lang fuel dir e :
  BaseParser_parseDirectory w lang fuel dir <> Throw e.
Proof.
  unfold BaseParser_parseDirectory.
  destruct (getSourceFiles w lang fuel dir) as [files| |]; try discriminate.
  destruct (parseEach w lang files []) as [[[]|e'|] ms]; discriminate.
Qed.

(** X19. [BaseParser.parseDirectory] contains the failures that reject a
    run of the analyzer: it never throws, and answers with no module
    when its traversal throws.  When the traversal returns, its files
    are the collected files of the one extension of the language, found
    with the shorter skip list of the parser, and the modules are those
    of the files that could be parsed, in the order of the files, each
    with the language of the parser and the path of its file. *)
Theorem base_parser_directory w lang fuel dir :
  (forall e, BaseParser_parseDirectory w lang fuel dir <> Throw e) /\
  (forall e, getSourceFiles w lang fuel dir = Throw e ->
             BaseParser_parseDirectory w lang fuel dir = Ok []) /\
  (forall files,
     getSourceFiles w lang fuel dir = Ok files ->
     (forall f, In f files <->
                collected w BaseParser_shouldSkipDirectory
                          (getFileExtensions lang) dir f) /\
     (forall modules,
        BaseParser_parseDirectory w lang fuel dir = Ok modules ->
        modules = parsedModules w lang files /\
        forall m, In m modules ->
                  language m = lang /\ In (filePath m) files)).
Proof.
  split; [|split]; [| unfold BaseParser_parseDirectory .. ].
  - intros e. apply BaseParser_parseDirectory_never_throws.
  - intros e H. now rewrite H.
  - intros files Hfiles. rewrite Hfiles. split.
    + intros f. unfold getSourceFiles in Hfiles.
      rewrite BaseParser_traverse_walk in Hfiles.
      now apply walk_characterized with fuel.
    + intros modules H.
      destruct (parseEach_spec w lang files []) as [Hnt Hok].
      destruct (parseEach w lang files []) as [[[]|e'|] ms]; cbn [fst snd] in *;
        try discriminate.
      * apply Ok_inj in H. subst ms. specialize (Hok eq_refl).
        cbn [app] in Hok. split; [exact Hok|].
        intros m Hm. rewrite Hok in Hm. unfold parsedModules in Hm.
        apply in_flat_map in Hm. destruct Hm as (f & Hf & Hm).
        destruct (BaseParser_parseFile w lang f) as [[m'|]|e'|] eqn:Hp;
          [destruct Hm as [<- | []] | destruct Hm ..].
        destruct (BaseParser_parseFile_module w lang f m' Hp) as [<- <-].
        now split.
      * now destruct (Hnt e').
Qed.

Lemma parseWith_spec w fuel dir languages : forall modules,
  (forall e, parseWith w fuel dir languages modules <> Throw e) /\
  (forall result,
     parseWith w fuel dir languages modules = Ok result ->
     exists parts,
       Forall2 (fun lang ms => BaseParser_parseDirectory w lang fuel dir = Ok ms)
               languages parts /\
       result = (modules ++ concat parts)%list).
Proof.
  induction languages as [|lang languages IH]; intros modules;
    cbn [parseWith].
  - split; [discriminate|]. intros result H. apply Ok_inj in H. subst.
    exists []. split; [constructor | now rewrite app_nil_r].
  - unfold obind.
    pose proof (BaseParser_parseDirectory_never_throws w lang fuel dir) as Hnt.
    destruct (BaseParser_parseDirectory w lang fuel dir) as [ms|e|] eqn:Hd.
    + destruct (IH (modules ++ ms)%list) as [H1 H2]. split; [exact H1|].
      intros result H. destruct (H2 result H) as (parts & Hparts & ->).
      exists (ms :: parts). split; [now constructor|].
      cbn [concat]. now rewrite app_assoc.
    + now destruct (Hnt e).
    + split; discriminate.
Qed.

(** X20. [ParserFactory.parseDirectory] never throws; without a language
    list it runs the parsers of the three supported languages in their
    order, with an empty list it runs none, and its answer is the
    concatenation of the answers of the parsers it runs. *)
Theorem factory_parse_directory w fuel dir :
  parseDirectory w fuel dir (Some []) = Ok [] /\
  parseDirectory w fuel dir None
  = parseDirectory w fuel dir (Some getSupportedLanguages) /\
  (forall languages e, parseDirectory w fuel dir languages <> Throw e) /\
  (forall languages modules,
     parseDirectory w fuel dir (Some languages) = Ok modules ->
     exists parts,
       Forall2 (fun lang ms => BaseParser_parseDirectory w lang fuel dir = Ok ms)
               languages parts /\
       modules = concat parts).
Proof.
  split; [reflexivity|]. split; [reflexivity|]. split.
  - intros languages e. unfold parseDirectory. apply parseWith_spec.
  - intros languages modules H. unfold parseDirectory in H.
    apply parseWith_spec in H. exact H.
Qed.

(** ** Line numbers and comments *)

Lemma split_nonempty sep s : 1 <= List.length (Str.split sep s).
Proof.
  induction s as [|c s IH]; cbn [Str.split]; [cbn; lia|].
  destruct (Ascii.eqb c sep); [cbn; lia|].
  destruct (Str.split sep s); cbn; lia.
Qed.

Lemma findLineFrom_some lines searchText : forall i n,
  findLineFrom lines searchText i = Some n ->
  i < n <= i + List.length lines /\
  exists l,
    nth_error lines (n - 1 - i) = Some l /\
    Str.includes l searchText = true /\
    forall j l', j < n - 1 - i -> nth_error lines j = Some l' ->
                 Str.includes l' searchText = false.
Proof.
  induction lines as [|line lines IH]; intros i n H; [discriminate|].
  cbn [findLineFrom] in H. destruct (Str.includes line searchText) eqn:Hinc.
  - injection H as <-. cbn [List.length]. split; [lia|].
    replace (i + 1 - 1 - i) with 0 by lia. exists line.
    repeat split; auto. intros j l' Hj. lia.
  - apply IH in H. destruct H as (Hn & l & Hnth & Hl & Hbefore).
    cbn [List.length]. split; [lia|].
    replace (n - 1 - i) with (S (n - 1 - S i)) by lia.
    exists l. repeat split; auto.
    intros [|j] l' Hj Hj'.
    + cbn in Hj'. injection Hj' as <-. exact Hinc.
    + cbn in Hj'. apply (Hbefore j l'); [lia | exact Hj'].
Qed.

Lemma findLineFrom_none lines searchText : forall i,
  findLineFrom lines searchText i = None <->
  forall l, In l lines -> Str.includes l searchText = false.
Proof.
  induction lines as [|line lines IH]; intros i; cbn [findLineFrom].
  - split; [intros _ l [] | reflexivity].
  - destruct (Str.includes line searchText) eqn:Hinc.
    + split; [discriminate|]. intros H.
      rewrite (H line (or_introl eq_refl)) in Hinc. discriminate.
    + rewrite IH. split.
      * intros H l [<- | Hl]; auto.
      * intros H l Hl. apply H. now right.
Qed.

(** X21. [findLineNumber] answers with the number, counted from 1, of
    the first line that includes the text, a number between 1 and the
    number of lines; when no line includes the text it answers 1 as
    well, so that the answer 1 does not tell a match on the first line
    from no match at all. *)
Theorem line_number_of_first_match content searchText :
  let lines := Str.split Patterns.newline content in
  let n := findLineNumber content searchText in
  1 <= n <= List.length lines /\
  ((exists l, In l lines /\ Str.includes l searchText = true) ->
   exists l,
     nth_error lines (n - 1) = Some l /\
     Str.includes l searchText = true /\
     forall j l', j < n - 1 -> nth_error lines j = Some l' ->
                  Str.includes l' searchText = false) /\
  ((forall l, In l lines -> Str.includes l searchText = false) -> n = 1).
Proof.
  cbv zeta. unfold findLineNumber.
  pose proof (split_nonempty Patterns.newline content) as Hlen.
  destruct (findLineFrom (Str.split Patterns.newline content) searchText 0)
    as [n|] eqn:Hfind.
  - apply findLineFrom_some in Hfind.
    destruct Hfind as (Hn & l & Hnth & Hl & Hbefore).
    rewrite Nat.sub_0_r in Hnth, Hbefore.
    split; [lia|]. split.
    + intros _. now exists l.
    + intros Hnone. apply nth_error_In in Hnth.
      rewrite (Hnone l Hnth) in Hl. discriminate.
  - split; [lia|]. split; [|reflexivity].
    intros (l & Hin & Hl).
    rewrite (proj1 (findLineFrom_none _ _ 0) Hfind l Hin) in Hl. discriminate.
Qed.

Lemma firstn_succ_some {A : Type} (l : list A) : forall i x,
  nth_error l i = Some x -> firstn (S i) l = (firstn i l ++ [x])%list.
Proof.
  induction l as [|a l IH]; intros [|i] x H; try discriminate.
  - cbn in H. injection H as <-. reflexivity.
  - cbn [nth_error] in H. change (firstn (S (S i)) (a :: l))
      with (a :: firstn (S i) l). now rewrite (IH i x H).
Qed.

Lemma firstn_succ_none {A : Type} (l : list A) : forall i,
  nth_error l i = None -> firstn (S i) l = firstn i l.
Proof.
  induction l as [|a l IH]; intros [|i] H; try discriminate; try reflexivity.
  cbn [nth_error] in H. change (firstn (S (S i)) (a :: l))
    with (a :: firstn (S i) l). now rewrite (IH i H).
Qed.

Lemma commentsAbove_block isComment cleanComment lines n : forall description,
  commentsAbove isComment cleanComment lines n description
  = blockText cleanComment
      (rev (takeWhile isComment
              (filter Str.truthy (rev (firstn n (map Str.trim lines))))))
      description.
Proof.
  induction n as [|i IH]; intros description; [reflexivity|].
  cbn [commentsAbove].
  destruct (nth_error lines i) as [l|] eqn:Hnth.
  - rewrite (firstn_succ_some (map Str.trim lines) i (Str.trim l))
      by (rewrite nth_error_map, Hnth; reflexivity).
    rewrite rev_app_distr. cbn [rev app filter].
    destruct (Str.truthy (Str.trim l)); cbn [negb]; [|apply IH].
    cbn [takeWhile]. destruct (isComment (Str.trim l)); [|reflexivity].
    cbn [rev]. unfold blockText. rewrite fold_right_app. cbn [fold_right].
    apply IH.
  - rewrite (firstn_succ_none (map Str.trim lines) i)
      by (rewrite nth_error_map, Hnth; reflexivity).
    apply IH.
Qed.

(** X22. [extractComments] returns the comment block of the line: of the
    lines above the given one, trimmed and read upwards with the blank
    ones passed over, the comments met before the first line that is
    neither blank nor a comment; they are cleaned, put in the order of
    the text, one to a line, and the whole is trimmed.  A line number
    beyond the text reads from the last line.  So above a function on
    line 7, two comments with blank lines after them make the block, and
    the comment above the line of code before them does not. *)
Theorem comment_block_above_line isComment cleanComment content lineNumber :
  extractComments isComment cleanComment content lineNumber
  = Str.trim
      (blockText cleanComment
         (commentBlock isComment (Str.split Patterns.newline content)
                       lineNumber)
         "") /\
  commentBlock (fun line => Str.startsWith line "//")
               ["// old"; "x := 1"; "  // doc"; ""; "// more  "; " ";
                "func f()"] 7
  = ["// doc"; "// more"].
Proof.
  split; [|reflexivity].
  unfold extractComments, commentBlock. now rewrite commentsAbove_block.
Qed.

(** ** The dependency diagram *)

Lemma fold_setAdd_map {A : Type} (f : A -> string) (l : list A) : forall s,
  (NoDup s -> NoDup (fold_left (fun nodes x => setAdd nodes (f x)) l s)) /\
  (forall n, In n (fold_left (fun nodes x => setAdd nodes (f x)) l s) <->
             In n s \/ exists x, In x l /\ f x = n).
Proof.
  induction l as [|a l IH]; intros s; cbn [fold_left].
  - split; [auto|]. intros n. split; [auto|]. intros [H | (x & [] & _)]; exact H.
  - destruct (IH (setAdd s (f a))) as [H1 H2]. split.
    + intros Hs. apply H1. now apply setAdd_NoDup.
    + intros n. rewrite H2, setAdd_in. split.
      * intros [[-> | H] | (x & Hx & Hn)]; eauto.
        -- right. exists a. split; [now left | reflexivity].
        -- right. exists x. split; [now right | exact Hn].
      * intros [H | (x & [<- | Hx] & Hn)]; eauto.
Qed.

Lemma diagramEdges_eq nodes c :
  diagramEdges nodes c = map diagramEdge (filter (drawn nodes) (relationships c)).
Proof.
  unfold diagramEdges.
  assert (H : forall rels acc,
            fold_left (fun edges rel =>
                         if Str.mem (stem (sourceFile rel)) nodes
                            && Str.mem (stem (targetFile rel)) nodes
                         then (edges ++ [diagramEdge rel])%list
                         else edges) rels acc
            = (acc ++ map diagramEdge (filter (drawn nodes) rels))%list).
  { induction rels as [|rel rels IH]; intros acc; cbn [fold_left filter map].
    - now rewrite app_nil_r.
    - rewrite IH. unfold drawn at 2.
      destruct (Str.mem (stem (sourceFile rel)) nodes
                && Str.mem (stem (targetFile rel)) nodes);
        [|reflexivity].
      cbn [map]. now rewrite <- app_assoc. }
  apply (H (relationships c) []).
Qed.

(** X23. The dependency diagram of a context: its nodes are the distinct
    stems (base names without extension) of the files in the four
    buckets of controllers, services, models and repositories, and its
    edges are, in order, the relationships of the context both of whose
    files have the stem of a node.  So a relationship with a file of
    another bucket or of another context is not drawn, unless the stem
    of that file is also the stem of a node. *)
Theorem diagram_nodes_and_edges c :
  NoDup (diagramNodes c) /\
  (forall n, In n (diagramNodes c) <->
             exists m, In m (controllers c ++ services c ++ models c
                             ++ repositories c)%list /\
                       stem (filePath m) = n) /\
  diagramEdges (diagramNodes c) c
  = map diagramEdge (filter (drawn (diagramNodes c)) (relationships c)) /\
  (forall rel,
     In (diagramEdge rel) (diagramEdges (diagramNodes c) c) ->
     exists rel',
       In rel' (relationships c) /\ diagramEdge rel' = diagramEdge rel /\
       In (stem (sourceFile rel')) (diagramNodes c) /\
       In (stem (targetFile rel')) (diagramNodes c)).
Proof.
  unfold diagramNodes at 1 2.
  destruct (fold_setAdd_map (fun m => stem (filePath m))
              (controllers c ++ services c ++ models c ++ repositories c)%list
              []) as [Hnd Hin].
  split; [apply Hnd; constructor|]. split.
  - intros n. rewrite Hin. split; [intros [[] | H]; exact H | auto].
  - split; [apply diagramEdges_eq|].
    intros rel Hrel. rewrite diagramEdges_eq in Hrel.
    apply in_map_iff in Hrel. destruct Hrel as (rel' & Heq & Hf).
    apply filter_In in Hf. destruct Hf as [Hin' Hd].
    unfold drawn in Hd. apply andb_true_iff in Hd. destruct Hd as [Hs Ht].
    exists rel'. repeat split; auto; now apply mem_true_iff.
Qed.

(** ** The search for project markers *)

Lemma markerPresent_named w dir marker :
  String.eqb marker ".git" = false -> Str.includes marker "*" = false ->
  markerPresent w dir marker = Ok (pathExists w (Path.join [dir; marker])).
Proof. intros H1 H2. unfold markerPresent. now rewrite H1, H2. Qed.

Lemma markerPresent_star w dir marker :
  String.eqb marker ".git" = false -> Str.includes marker "*" = true ->
  markerPresent w dir marker
  = obind (readdir w dir)
          (fun files =>
             Ok (existsb (fun f => Str.endsWith f (Str.replace_first "*" "" marker))
                         files)).
Proof. intros H1 H2. unfold markerPresent. now rewrite H1, H2. Qed.

(** X24. The search for project markers in a directory: when one of
    [package.json], [pom.xml], [build.gradle] and [go.mod] exists in it,
    a marker is found without listing the directory; otherwise the
    directory is listed for the two patterns with a star, so that a
    directory that cannot be listed makes the search throw, whether or
    not it holds a [.git]; and when it can be listed, a marker is found
    exactly when an entry ends in [.csproj] or [.sln] or [.git] exists
    in it. *)
Theorem marker_search w dir :
  let present name := pathExists w (Path.join [dir; name]) in
  let named := present "package.json" || present "pom.xml"
               || present "build.gradle" || present "go.mod" in
  (named = true -> anyMarker w dir possibleMarkers = Ok true) /\
  (named = false ->
   (forall e, readdir w dir = Throw e ->
              anyMarker w dir possibleMarkers = Throw e) /\
   (forall files, readdir w dir = Ok files ->
      anyMarker w dir possibleMarkers
      = Ok (existsb (fun f => Str.endsWith f ".csproj") files
            || existsb (fun f => Str.endsWith f ".sln") files
            || present ".git"))).
Proof.
  cbv zeta. unfold possibleMarkers. cbn [anyMarker].
  rewrite !(markerPresent_named w dir) by reflexivity.
  rewrite !(markerPresent_star w dir) by reflexivity.
  change (Str.replace_first "*" "" "*.csproj") with ".csproj".
  change (Str.replace_first "*" "" "*.sln") with ".sln".
  change (markerPresent w dir ".git")
    with (Ok (pathExists w (Path.join [dir; ".git"]))).
  cbn [obind].
  destruct (pathExists w (Path.join [dir; "package.json"]));
    [split; [reflexivity | discriminate]|].
  destruct (pathExists w (Path.join [dir; "pom.xml"]));
    [split; [reflexivity | discriminate]|].
  destruct (pathExists w (Path.join [dir; "build.gradle"]));
    [split; [reflexivity | discriminate]|].
  destruct (pathExists w (Path.join [dir; "go.mod"]));
    [split; [reflexivity | discriminate]|].
  cbn [orb]. split; [discriminate|]. intros _. split.
  - intros e ->. reflexivity.
  - intros files ->. cbn [obind].
    destruct (existsb (fun f => Str.endsWith f ".csproj") files);
      [reflexivity|].
    destruct (existsb (fun f => Str.endsWith f ".sln") files); [reflexivity|].
    cbn [obind orb]. now destruct (pathExists w (Path.join [dir; ".git"])).
Qed.

(** ** A second run *)

Lemma set_stored {V : Type} (k : string) (v : V) (m : JsMap.t V) :
  NoDup (JsMap.keys m) -> In (k, v) m -> JsMap.set k v m = m.
Proof.
  induction m as [|[k' v'] m IH]; intros Hnd Hin; [destruct Hin|].
  cbn in Hnd. inversion Hnd as [|? ? Hnotin Hnd']; subst.
  cbn [JsMap.set]. destruct (String.eqb k k') eqn:Hk.
  - apply String.eqb_eq in Hk. subst k'.
    destruct Hin as [Heq | Hin]; [now rewrite Heq|].
    exfalso. apply Hnotin. now apply entry_in_keys with v.
  - f_equal. apply IH; [exact Hnd'|].
    destruct Hin as [Heq | Hin]; [|exact Hin].
    injection Heq as -> _. rewrite String.eqb_refl in Hk. discriminate.
Qed.

Lemma parseLoop_stored w files : forall st r st',
  NoDup (JsMap.keys (codeModules st)) ->
  (forall f m, In f files -> parseFile w f = Ok (Some m) ->
               In (f, m) (codeModules st)) ->
  forEach files (parseOne w) st = (r, st') -> st' = st.
Proof.
  induction files as [|f files IH]; intros st r st' Hnd Hall Hrun.
  - cbn in Hrun. now injection Hrun as _ <-.
  - cbn [forEach] in Hrun. unfold bind at 1 in Hrun.
    assert (Hone : parseOne w f st = (fst (parseOne w f st), st)).
    { unfold parseOne, bind, lift.
      destruct (parseFile w f) as [[m|]|e|] eqn:Hp; try reflexivity.
      unfold setModule. cbn [fst].
      rewrite (set_stored f m _ Hnd (Hall f m (or_introl eq_refl) Hp)).
      now destruct st. }
    rewrite Hone in Hrun.
    destruct (fst (parseOne w f st)) as [[]|e|].
    + apply (IH st r st' Hnd); [|exact Hrun].
      intros f' m Hf'. apply Hall. now right.
    + now injection Hrun as _ <-.
    + now injection Hrun as _ <-.
Qed.

(** X25. A second run over the same directory leaves the module table
    as the first run on a new analyzer left it, and stores every
    relationship of the first run once more. *)
Theorem second_run_duplicates w fuel dir ctxs1 st1 ctxs2 st2 :
  analyzeDirectory w fuel dir newAnalyzer = (Ok ctxs1, st1) ->
  analyzeDirectory w fuel dir st1 = (Ok ctxs2, st2) ->
  codeModules st2 = codeModules st1 /\
  fileRelationships st2
  = (fileRelationships st1 ++ fileRelationships st1)%list.
Proof.
  intros Hrun1 Hrun2.
  pose proof (@analyzeDirectory_wf w fuel dir newAnalyzer (wellFormed_new w))
    as Hwf1.
  rewrite Hrun1 in Hwf1. cbn [snd] in Hwf1.
  apply analyzeDirectory_returns in Hrun1.
  destruct Hrun1 as (files & st0 & Hfiles & Hloop1 & Hrel1 & Htbl1 & _).
  apply analyzeDirectory_returns in Hrun2.
  destruct Hrun2 as (files' & st1' & Hfiles' & Hloop2 & Hrel2 & Htbl2 & _).
  rewrite Hfiles in Hfiles'. apply Ok_inj in Hfiles'. subst files'.
  destruct (parseLoop_state w files newAnalyzer)
    as (Hr0 & _ & _ & _ & _ & Hcomplete & _).
  rewrite Hloop1 in Hr0, Hcomplete. cbn [fst snd] in Hr0, Hcomplete.
  assert (Hsame : st1' = st1).
  { apply (parseLoop_stored w files st1 (Ok tt) st1' (wf_keys Hwf1));
      [|exact Hloop2].
    intros f m Hf Hp. rewrite Htbl1.
    exact (Hcomplete eq_refl (wellFormed_new w) f m Hf Hp). }
  subst st1'.
  destruct (analyzeFileRelationships_emits w st0) as (r & E & _ & HE).
  rewrite (HE st0 eq_refl) in Hrel1.
  rewrite (HE st1 Htbl1) in Hrel2.
  injection Hrel1 as _ <-. injection Hrel2 as _ <-.
  split; [reflexivity|]. cbn [fileRelationships addRels].
  cbn [newAnalyzer fileRelationships] in Hr0. rewrite Hr0. reflexivity.
Qed.

Lemma second_run_duplicates_witness :
  fileRelationships (snd sampleLoop)
  = (fileRelationships sampleFinal ++ fileRelationships sampleFinal)%list.
Proof.
  refine (proj2 (second_run_duplicates
                   sampleWorld 4 "/w/r" sampleContexts sampleFinal
                   (match fst (analyzeDirectory sampleWorld 4 "/w/r" sampleFinal)
                    with Ok c => c | _ => [] end)
                   (snd sampleLoop) _ _)).
  - vm_compute; reflexivity.
  - vm_compute; reflexivity.
Defined.

(** ** The skip lists of the two traversals *)





(** * The scan of a file, in full *)

(** ** The scan of a file and the references of its text *)

Lemma scanOf_app source refs1 refs2 :
  scanOf source (refs1 ++ refs2) =
  match fst (scanOf source refs1) with
  | Ok _ => (fst (scanOf source refs2),
             (snd (scanOf source refs1) ++ snd (scanOf source refs2))%list)
  | r => (r, snd (scanOf source refs1))
  end.
Proof.
  induction refs1 as [|ref refs1 IH]; cbn [app scanOf].
  - cbn [fst snd app]. now destruct (scanOf source refs2).
  - destruct (ref_answer ref) as [o|e|]; cbn [fst snd]; try reflexivity.
    rewrite IH. destruct (fst (scanOf source refs1)); cbn [fst snd];
      try reflexivity.
    now rewrite app_assoc.
Qed.

Section Performs.

Variable tbl : JsMap.t CodeModule.
Variable source : string.

Lemma performs_ret : performs tbl source (ret tt) [].
Proof. intros st _. cbn. now rewrite addRels_nil. Qed.

Lemma performs_pushIfResolved target type detail :
  performs tbl source (pushIfResolved source target type detail)
           [{| ref_answer := Ok target; ref_type := type;
               ref_details := detail |}].
Proof.
  intros st _. cbn [scanOf ref_answer fst snd]. unfold entriesOf.
  cbn [ref_answer ref_type ref_details]. rewrite app_nil_r.
  unfold pushIfResolved. destruct target as [t|].
  - destruct (Str.truthy t); cbn [when].
    + reflexivity.
    + cbn. now rewrite addRels_nil.
  - cbn. now rewrite addRels_nil.
Qed.

Lemma performs_resolveAndPush resolver detail :
  performs tbl source (resolveAndPush resolver source detail)
           [{| ref_answer := resolver; ref_type := rel_import;
               ref_details := detail |}].
Proof.
  intros st Hst. destruct resolver as [o|e|].
  - exact (performs_pushIfResolved o rel_import detail st Hst).
  - cbn. now rewrite addRels_nil.
  - cbn. now rewrite addRels_nil.
Qed.

Lemma performs_lookupAndPush className type detail :
  performs tbl source (lookupAndPush source className type detail)
           [symbolReference tbl className type detail].
Proof.
  intros st Hst. rewrite lookupAndPush_eq, Hst.
  exact (performs_pushIfResolved (classFile tbl className) type detail st Hst).
Qed.

Lemma performs_bind c1 c2 refs1 refs2 :
  performs tbl source c1 refs1 -> performs tbl source c2 refs2 ->
  performs tbl source (bind c1 (fun _ => c2)) (refs1 ++ refs2)%list.
Proof.
  intros H1 H2 st Hst. unfold bind. rewrite (H1 st Hst), scanOf_app.
  destruct (fst (scanOf source refs1)) as [[]|e|]; cbn [fst snd];
    try reflexivity.
  rewrite (H2 (addRels st (snd (scanOf source refs1))));
    [|now rewrite codeModules_addRels].
  now rewrite addRels_app.
Qed.

Lemma performs_forEach {A : Type} (l : list A) (body : A -> M unit)
      (f : A -> list Reference) :
  (forall x, performs tbl source (body x) (f x)) ->
  performs tbl source (forEach l body) (flat_map f l).
Proof.
  intros H. induction l as [|x l IH]; cbn [forEach flat_map].
  - apply performs_ret.
  - apply performs_bind; [apply H | exact IH].
Qed.

Lemma performs_forEach_one {A : Type} (l : list A) (body : A -> M unit)
      (f : A -> Reference) :
  (forall x, performs tbl source (body x) [f x]) ->
  performs tbl source (forEach l body) (map f l).
Proof.
  intros H. induction l as [|x l IH]; cbn [forEach map].
  - apply performs_ret.
  - change (f x :: map f l) with ([f x] ++ map f l)%list.
    apply performs_bind; [apply H | exact IH].
Qed.

Lemma performs_when (b : bool) c refs :
  performs tbl source c refs ->
  performs tbl source (when b c) (if b then refs else []).
Proof. intros H. destruct b; [exact H | apply performs_ret]. Qed.

End Performs.

Section Scan.

Variable w : World.
Variable tbl : JsMap.t CodeModule.

Lemma performs_analyzeGoRelationships path content :
  performs tbl path (analyzeGoRelationships w path content)
           (goReferences w path content).
Proof.
  unfold analyzeGoRelationships, goReferences.
  apply performs_forEach. intros m. cbv zeta.
  apply performs_when. apply performs_forEach. intros importLine. cbv zeta.
  apply (performs_when tbl path _ _ [_]).
  apply performs_resolveAndPush.
Qed.

Lemma performs_findServiceDependencies path content annotation :
  performs tbl path (findServiceDependencies path content annotation)
           (fieldReferences tbl content).
Proof.
  unfold findServiceDependencies, fieldReferences.
  apply performs_forEach_one. intros m. cbv zeta.
  apply performs_lookupAndPush.
Qed.

Lemma performs_analyzeJavaRelationships path content :
  performs tbl path (analyzeJavaRelationships w path content)
           (javaReferences w tbl path content).
Proof.
  unfold analyzeJavaRelationships, javaReferences, javaImportReferences,
    javaClassReferences, javaInjectionReferences.
  apply performs_bind; [|apply performs_bind].
  - apply performs_forEach. intros m. cbv zeta.
    apply (performs_when tbl path _ _ [_]). apply performs_resolveAndPush.
  - apply performs_forEach. intros m. cbv zeta.
    apply performs_bind.
    + apply (performs_when tbl path _ _ [_]). apply performs_lookupAndPush.
    + apply performs_when. apply performs_forEach_one. intros interfaceName.
      apply performs_lookupAndPush.
  - apply performs_forEach. intros m. cbv zeta.
    apply performs_when. apply performs_findServiceDependencies.
Qed.

Lemma performs_analyzeCSharpRelationships path content :
  performs tbl path (analyzeCSharpRelationships w path content)
           (csharpReferences w tbl path content).
Proof.
  unfold analyzeCSharpRelationships, csharpReferences, csharpUsingReferences,
    csharpClassReferences, csharpInjectionReferences.
  apply performs_bind; [|apply performs_bind].
  - apply performs_forEach. intros m. cbv zeta.
    apply (performs_when tbl path _ _ [_]). apply performs_resolveAndPush.
  - apply performs_forEach. intros m. cbv zeta.
    apply performs_when. apply performs_forEach_one. intros baseType.
    cbv zeta. apply performs_lookupAndPush.
  - apply performs_forEach_one. intros m. cbv zeta.
    apply performs_lookupAndPush.
Qed.

End Scan.

(** The scan of a file, as a whole *)
Lemma findRelationshipsForFile_scan w path module st :
  findRelationshipsForFile w path module st =
  match readFile w path with
  | Ok content =>
      (fst (scanOf path (references w (codeModules st) (language module)
                                    path content)),
       addRels st
         (snd (scanOf path (references w (codeModules st) (language module)
                                       path content))))
  | Throw e => (Throw e, st)
  | Hang => (Hang, st)
  end.
Proof.
  unfold findRelationshipsForFile, bind, lift.
  destruct (readFile w path) as [content|e|]; try reflexivity.
  unfold references. destruct (language module).
  - exact (performs_analyzeGoRelationships w (codeModules st) path content
                                           st eq_refl).
  - exact (performs_analyzeJavaRelationships w (codeModules st) path content
                                             st eq_refl).
  - exact (performs_analyzeCSharpRelationships w (codeModules st) path content
                                               st eq_refl).
Qed.

(** ** The entries of a reference and the edges of a scan *)

Lemma entriesOf_in source ref e :
  In e (entriesOf source ref) ->
  entriesOf source ref = [e] /\
  sourceFile e = source /\ targetFile e <> "" /\
  ref_answer ref = Ok (Some (targetFile e)) /\
  relationType e = ref_type ref /\ details e = ref_details ref.
Proof.
  unfold entriesOf. destruct (ref_answer ref) as [[t|]|err|]; try (intros []).
  destruct t as [|a t]; cbn [Str.truthy Str.is_empty negb]; [intros []|].
  intros [<- | []]. cbn. repeat split. discriminate.
Qed.

Lemma entriesOf_unresolved source ref :
  ref_answer ref = Ok None \/ ref_answer ref = Ok (Some "") ->
  entriesOf source ref = [].
Proof. unfold entriesOf. now intros [-> | ->]. Qed.

Lemma entriesOf_resolved source ref target :
  ref_answer ref = Ok (Some target) -> target <> "" ->
  entriesOf source ref
  = [{| sourceFile := source; targetFile := target;
        relationType := ref_type ref; details := ref_details ref |}].
Proof.
  unfold entriesOf. intros -> Hne. destruct target; [now elim Hne | reflexivity].
Qed.

Lemma scanOf_edges source refs e :
  In e (snd (scanOf source refs)) ->
  exists ref, In ref refs /\ In e (entriesOf source ref).
Proof.
  induction refs as [|ref refs IH]; cbn [scanOf]; [intros []|].
  destruct (ref_answer ref) as [o|err|] eqn:Ha; cbn [snd]; try (intros []).
  intros H. apply in_app_or in H. destruct H as [H | H].
  - exists ref. split; [now left | exact H].
  - destruct (IH H) as (ref' & Hin & He). exists ref'. split; [now right | exact He].
Qed.

Lemma scanOf_answered source refs :
  (forall ref, In ref refs -> exists answer, ref_answer ref = Ok answer) ->
  scanOf source refs = (Ok tt, flat_map (entriesOf source) refs).
Proof.
  induction refs as [|ref refs IH]; intros H; [reflexivity|].
  cbn [scanOf flat_map]. destruct (H ref (or_introl eq_refl)) as [answer ->].
  rewrite IH by (intros r Hr; apply H; now right). reflexivity.
Qed.


Lemma references_kinds w tbl lang path content ref :
  In ref (references w tbl lang path content) ->
  (ref_type ref = rel_import /\
   ref_answer ref = importResolver w lang path (ref_details ref)) \/
  (ref_type ref <> rel_import /\
   exists className, ref_answer ref = Ok (classFile tbl className)).
Proof.
  assert (Himport : forall text, 
            (ref_type (importReference w lang path text) = rel_import /\
             ref_answer (importReference w lang path text)
             = importResolver w lang path
                 (ref_details (importReference w lang path text))))
    by (intros text; split; reflexivity).
  assert (Hsymbol : forall cn type detail,
            type <> rel_import ->
            ref_type (symbolReference tbl cn type detail) <> rel_import /\
            exists className,
              ref_answer (symbolReference tbl cn type detail)
              = Ok (classFile tbl className))
    by (intros cn type detail Hty; split; [exact Hty | now exists cn]).
  unfold references. destruct lang.
  - unfold goReferences. intros H. apply in_flat_map in H.
    destruct H as (m & _ & H). cbv zeta in H.
    destruct (Str.truthy _); [|destruct H].
    apply in_flat_map in H. destruct H as (line & _ & H). cbv zeta in H.
    destruct (_ && _); [|destruct H]. destruct H as [<- | []].
    left. apply Himport.
  - unfold javaReferences. intros H.
    apply in_app_or in H. destruct H as [H | H];
      [|apply in_app_or in H; destruct H as [H | H]].
    + unfold javaImportReferences in H. apply in_flat_map in H.
      destruct H as (m & _ & H). cbv zeta in H.
      destruct (Str.truthy _); [|destruct H]. destruct H as [<- | []].
      left. apply Himport.
    + unfold javaClassReferences in H. apply in_flat_map in H.
      destruct H as (m & _ & H). cbv zeta in H.
      apply in_app_or in H. destruct H as [H | H].
      * destruct (Str.truthy _); [|destruct H]. destruct H as [<- | []].
        right. apply Hsymbol. discriminate.
      * destruct (Str.truthy _); [|destruct H].
        apply in_map_iff in H. destruct H as (i & <- & _).
        right. apply Hsymbol. discriminate.
    + unfold javaInjectionReferences in H. apply in_flat_map in H.
      destruct H as (m & _ & H). destruct (Str.mem _ _); [|destruct H].
      unfold fieldReferences in H. apply in_map_iff in H.
      destruct H as (f & <- & _). right. apply Hsymbol. discriminate.
  - unfold csharpReferences. intros H.
    apply in_app_or in H. destruct H as [H | H];
      [|apply in_app_or in H; destruct H as [H | H]].
    + unfold csharpUsingReferences in H. apply in_flat_map in H.
      destruct H as (m & _ & H). cbv zeta in H.
      destruct (Str.truthy _); [|destruct H]. destruct H as [<- | []].
      left. apply Himport.
    + unfold csharpClassReferences in H. apply in_flat_map in H.
      destruct H as (m & _ & H). cbv zeta in H.
      destruct (Str.truthy _); [|destruct H].
      apply in_map_iff in H. destruct H as (b & <- & _).
      right. apply Hsymbol. discriminate.
    + unfold csharpInjectionReferences in H. apply in_map_iff in H.
      destruct H as (m & <- & _). right. apply Hsymbol. discriminate.
Qed.

Lemma scan_edges w tbl lang path content e :
  In e (snd (scanOf path (references w tbl lang path content))) ->
  scannedEdge w tbl lang path e.
Proof.
  intros H. apply scanOf_edges in H. destruct H as (ref & Hin & He).
  apply entriesOf_in in He.
  destruct He as (_ & Hs & Hne & Hans & Hty & Hdet).
  split; [exact Hs|]. split; [exact Hne|].
  destruct (references_kinds w tbl lang path content ref Hin)
    as [[Himp Hres] | [Hsym (cn & Hres)]].
  - rewrite Hty, Himp. unfold justifiedImport.
    now rewrite Hs, Hdet, <- Hres.
  - rewrite Hans in Hres. apply Ok_inj in Hres. symmetry in Hres.
    apply classFile_key in Hres.
    rewrite Hty. destruct (ref_type ref); try exact Hres. now elim Hsym.
Qed.

Lemma emits_scan w tbl path module :
  emits tbl (scannedEdge w tbl (language module) path)
        (findRelationshipsForFile w path module).
Proof.
  destruct (readFile w path) as [content|e|] eqn:Hread.
  - exists (fst (scanOf path (references w tbl (language module) path content))),
      (snd (scanOf path (references w tbl (language module) path content))).
    split.
    + apply Forall_forall. intros e. apply scan_edges.
    + intros st Hst. now rewrite findRelationshipsForFile_scan, Hread, Hst.
  - exists (Throw e), []. split; [constructor|].
    intros st _. now rewrite findRelationshipsForFile_scan, Hread, addRels_nil.
  - exists Hang, []. split; [constructor|].
    intros st _. now rewrite findRelationshipsForFile_scan, Hread, addRels_nil.
Qed.

Lemma emits_extraction w tbl :
  emits tbl (entryEdge w tbl) (analyzeFileRelationships w).
Proof.
  apply emits_ext
    with (c' := forEach (JsMap.entries tbl)
                        (fun e => findRelationshipsForFile w (fst e) (snd e))).
  - intros st Hst. unfold analyzeFileRelationships, bind, gets.
    now rewrite Hst.
  - apply emits_forEach. intros [k m] Hin. cbn [fst snd].
    apply emits_weaken with (Q := scannedEdge w tbl (language m) k).
    + intros rel Hrel. now exists k, m.
    + apply emits_scan.
Qed.

Lemma parseFile_language w path m :
  parseFile w path = Ok (Some m) ->
  getParserByFileExtension path = Some (language m).
Proof.
  unfold parseFile.
  destruct (getParserByFileExtension path) as [lang|]; [|discriminate].
  intros H. now destruct (BaseParser_parseFile_module w lang path m H) as [_ ->].
Qed.

(** The import edges stored after a run *)
Lemma run_imports w fuel dir st rel :
  wellFormed w st -> importsJustified w st ->
  In rel (fileRelationships (snd (analyzeDirectory w fuel dir st))) ->
  relationType rel = rel_import ->
  exists m, parseFile w (sourceFile rel) = Ok (Some m) /\
            justifiedImport w (language m) rel.
Proof.
  intros Hwf Hjust. rewrite analyzeDirectory_eq, parseAllFiles_eq.
  destruct (findAllSupportedFiles w fuel dir) as [files|e|]; cbn [snd];
    try (apply Hjust).
  destruct (parseLoop_state w files st) as (Hr & _ & _ & Hwf1 & _).
  specialize (Hwf1 Hwf).
  destruct (forEach files (parseOne w) st) as [r1 st1]; cbn [snd fst] in *.
  assert (Hold : forall rel0, In rel0 (fileRelationships st1) ->
                 relationType rel0 = rel_import ->
                 exists m, parseFile w (sourceFile rel0) = Ok (Some m) /\
                           justifiedImport w (language m) rel0)
    by (rewrite Hr; exact Hjust).
  destruct r1 as [[]|e|]; cbn [snd]; try (apply Hold).
  destruct (emits_extraction w (codeModules st1)) as (r & E & HE & Hrun).
  rewrite (Hrun st1 eq_refl).
  assert (Hnew : In rel (fileRelationships (addRels st1 E)) ->
                 relationType rel = rel_import ->
                 exists m, parseFile w (sourceFile rel) = Ok (Some m) /\
                           justifiedImport w (language m) rel).
  { cbn [addRels fileRelationships]. intros Hin Himp.
    apply in_app_or in Hin. destruct Hin as [Hin | Hin]; [now apply Hold|].
    rewrite Forall_forall in HE.
    destruct (HE rel Hin) as (p & m & Hentry & Hs & _ & Hty).
    rewrite Himp in Hty. exists m. split; [|exact Hty].
    rewrite Hs. exact (wf_table Hwf1 p m Hentry). }
  destruct r as [[]|e|]; exact Hnew.
Qed.

(** ** Failures of the discovery *)

Section WalkFailures.

Variable w : World.
Variable skip : string -> bool.
Variable exts : list string.






End WalkFailures.


(** ** The amended claims on references, edges and failures *)

(** C5, amended.  The scan of a file appends, for the references of its
    text in their order, the entries of each reference: one edge to the
    path that the resolution of the reference answers with, and nothing
    when the resolution finds no file (it answers with nothing or with
    the empty path; for a symbol, no module of the table declares it).
    A reference that is not resolved does not end the scan: when every
    resolution answers, the scan returns.  So no appended edge has an
    empty or made-up target: the target of each is the answer of the
    resolution of one of the references.  An import that resolves to a
    file on disk gives its edge whether or not the file is in the module
    table. *)
Theorem unresolved_reference_dropped w path module st content :
  readFile w path = Ok content ->
  let refs := references w (codeModules st) (language module) path content in
  findRelationshipsForFile w path module st
  = (fst (scanOf path refs), addRels st (snd (scanOf path refs))) /\
  ((forall ref, In ref refs -> exists answer, ref_answer ref = Ok answer) ->
   findRelationshipsForFile w path module st
   = (Ok tt, addRels st (flat_map (entriesOf path) refs))) /\
  (forall ref,
     ref_answer ref = Ok None \/ ref_answer ref = Ok (Some "") ->
     entriesOf path ref = []) /\
  (forall className type detail,
     (forall k m, In (k, m) (codeModules st) -> hasClass className m = false) ->
     entriesOf path (symbolReference (codeModules st) className type detail)
     = []) /\
  (forall ref target,
     ref_answer ref = Ok (Some target) -> target <> "" ->
     entriesOf path ref
     = [{| sourceFile := path; targetFile := target;
           relationType := ref_type ref; details := ref_details ref |}]) /\
  (forall e,
     In e (snd (scanOf path refs)) ->
     sourceFile e = path /\ targetFile e <> "" /\
     exists ref,
       In ref refs /\ ref_answer ref = Ok (Some (targetFile e)) /\
       relationType e = ref_type ref /\ details e = ref_details ref) /\
  (forall resolver detail,
     resolver = Ok None \/ resolver = Ok (Some "") ->
     resolveAndPush resolver path detail st = (Ok tt, st)) /\
  (forall className type detail,
     (forall k m, In (k, m) (codeModules st) -> hasClass className m = false) ->
     lookupAndPush path className type detail st = (Ok tt, st)).
Proof.
  intros Hread. cbv zeta.
  assert (Hscan := findRelationshipsForFile_scan w path module st).
  rewrite Hread in Hscan.
  split; [exact Hscan|]. split.
  { intros Hall. rewrite Hscan. now rewrite (scanOf_answered path _ Hall). }
  split; [apply entriesOf_unresolved|]. split.
  { intros className type detail Hnone. apply entriesOf_unresolved. left.
    cbn [symbolReference ref_answer]. now rewrite (classFile_none _ _ Hnone). }
  split; [apply entriesOf_resolved|]. split.
  { intros e He. apply scanOf_edges in He. destruct He as (ref & Hin & He).
    apply entriesOf_in in He. destruct He as (_ & Hs & Hne & Ha & Hty & Hd).
    split; [exact Hs|]. split; [exact Hne|]. now exists ref. }
  split.
  - intros resolver detail [-> | ->]; reflexivity.
  - intros className type detail Hnone. rewrite lookupAndPush_eq.
    now rewrite (classFile_none _ _ Hnone).
Qed.

Lemma unresolved_reference_dropped_witness :
  findRelationshipsForFile sampleWorld "/w/r/a.go" sampleGoModule sampleParsed
  = (Ok tt, addRels sampleParsed [sampleImportEdge]).
Proof.
  refine (eq_trans
            (proj1 (unresolved_reference_dropped
                      sampleWorld "/w/r/a.go" sampleGoModule sampleParsed
                      sampleGoText _)) _).
  - vm_compute; reflexivity.
  - vm_compute; reflexivity.
Defined.

(** C6, amended.  Every edge appended while a file is scanned has that
    file as its source and a non-empty target; the target of an extends,
    implements or references edge is a key of the module table, and the
    target of an import edge is the path that the import resolver of the
    language of the scanned file returned for the imported text.  The
    same holds of every edge stored after a run: its source is a key of
    the table, and for an import edge the resolver is the one of the
    language of the module stored for the source, which is the language
    of its extension. *)
Theorem edge_invariant w fuel dir st rel :
  wellFormed w st ->
  importsJustified w st ->
  In rel (fileRelationships (snd (analyzeDirectory w fuel dir st))) ->
  (forall path module st0, exists r E,
     findRelationshipsForFile w path module st0 = (r, addRels st0 E) /\
     Forall (fun e => sourceFile e = path /\ targetFile e <> "" /\
                      (relationType e <> rel_import ->
                       In (targetFile e) (JsMap.keys (codeModules st0))) /\
                      (relationType e = rel_import ->
                       importResolver w (language module) path (details e)
                       = Ok (Some (targetFile e)))) E) /\
  In (sourceFile rel)
     (JsMap.keys (codeModules (snd (analyzeDirectory w fuel dir st)))) /\
  targetFile rel <> "" /\
  (relationType rel <> rel_import ->
   In (targetFile rel)
      (JsMap.keys (codeModules (snd (analyzeDirectory w fuel dir st))))) /\
  (relationType rel = rel_import ->
   exists m,
     In (sourceFile rel, m)
        (codeModules (snd (analyzeDirectory w fuel dir st))) /\
     getParserByFileExtension (sourceFile rel) = Some (language m) /\
     importResolver w (language m) (sourceFile rel) (details rel)
     = Ok (Some (targetFile rel))) /\
  importsJustified w (snd (analyzeDirectory w fuel dir st)).
Proof.
  intros Hwf Hjust Hrel.
  pose proof (@analyzeDirectory_wf w fuel dir st Hwf) as Hwf'.
  split; [|split; [|split; [|split; [|split]]]].
  - intros path module st0.
    destruct (emits_scan w (codeModules st0) path module)
      as (r & E & HE & Hrun).
    exists r, E. split; [now apply Hrun|].
    eapply Forall_impl; [|exact HE].
    intros e (Hs & Hne & Hty). repeat split; try assumption.
    + intros Hsym. destruct (relationType e); try assumption. now elim Hsym.
    + intros Himp. rewrite Himp in Hty. unfold justifiedImport in Hty.
      now rewrite Hs in Hty.
  - now destruct (wf_edges Hwf' rel Hrel).
  - destruct (wf_edges Hwf' rel Hrel) as [_ He]. now apply edgeOf_target in He.
  - intros Hsym. destruct (wf_edges Hwf' rel Hrel) as [_ (_ & _ & Hty)].
    destruct (relationType rel); try assumption. now elim Hsym.
  - intros Himp.
    destruct (run_imports w fuel dir st rel Hwf Hjust Hrel Himp)
      as (m & Hparse & Hres).
    destruct (wf_edges Hwf' rel Hrel) as [Hsrc _].
    apply in_keys_entry in Hsrc. destruct Hsrc as (m' & Hentry).
    pose proof (wf_table Hwf' _ _ Hentry) as Hparse'.
    rewrite Hparse in Hparse'. apply Ok_inj in Hparse'.
    injection Hparse' as <-.
    exists m. split; [exact Hentry|]. split; [|exact Hres].
    now apply parseFile_language with w.
  - intros rel0 Hrel0 Himp0.
    exact (run_imports w fuel dir st rel0 Hwf Hjust Hrel0 Himp0).
Qed.

Lemma edge_invariant_witness :
  In "/w/r/UserService.java" (JsMap.keys (codeModules sampleFinal)) /\
  In "/w/r/User.java" (JsMap.keys (codeModules sampleFinal)) /\
  exists m,
    In ("/w/r/a.go", m) (codeModules sampleFinal) /\
    getParserByFileExtension "/w/r/a.go" = Some (language m) /\
    importResolver sampleWorld (language m) "/w/r/a.go" "../shared"
    = Ok (Some "/w/shared/x.go").
Proof.
  assert (Hfinal : snd (analyzeDirectory sampleWorld 4 "/w/r" newAnalyzer)
                   = sampleFinal) by (vm_compute; reflexivity).
  assert (Hnew : importsJustified sampleWorld newAnalyzer)
    by (intros rel []).
  destruct (edge_invariant sampleWorld 4 "/w/r" newAnalyzer sampleExtendsEdge
                           (wellFormed_new _) Hnew)
    as (_ & Hsrc & _ & Htgt & _).
  { vm_compute; tauto. }
  destruct (edge_invariant sampleWorld 4 "/w/r" newAnalyzer sampleImportEdge
                           (wellFormed_new _) Hnew)
    as (_ & _ & _ & _ & Himp & _).
  { vm_compute; tauto. }
  rewrite Hfinal in Hsrc, Htgt, Himp.
  split; [exact Hsrc|]. split; [apply Htgt; discriminate|].
  exact (Himp eq_refl).
Defined.

